(** * Charleston concierge: event ingestion, venue matching and date heuristics

    A shallow embedding of the entity-resolution core of the repository:

    - [utils/event_importer.py]      (class [EventImporter]),
    - [utils/create_venue_connections.py] (function [create_venue_connections]),
    - [data_collection/sources/holycitysinner.py] (date handling of
      [HolyCitySinnerScraper]).

    Python values are modelled as follows.  [str] is [string] (the ASCII
    range of Python's character classes), [None]-able values are [option],
    unbounded [int] is [Z], a [set] is a [gset], a [dict] that is only looked
    up is a [gmap], and a [dict] whose iteration order is observed is an
    insertion-ordered association list ([odict]). *)

From Stdlib Require Import ZArith Lia Ascii String List Bool Sorted.
From stdpp Require Import gmap strings list fin_maps.

Local Open Scope Z_scope.

(** ** Python strings *)

Module PyStr.

Definition code (c : ascii) : N := N_of_ascii c.

Definition in_range (lo hi : N) (c : ascii) : bool :=
  ((lo <=? code c) && (code c <=? hi))%N.

Definition is_upper : ascii -> bool := in_range 65 90.
Definition is_lower : ascii -> bool := in_range 97 122.
Definition is_digit : ascii -> bool := in_range 48 57.

(** [\w] of module [re]: letters, digits and the underscore. *)
Definition is_word (c : ascii) : bool :=
  is_upper c || is_lower c || is_digit c || (code c =? 95)%N.

(** [\s] of module [re]: the characters for which [str.isspace] holds. *)
Definition is_space (c : ascii) : bool :=
  in_range 9 13 c || in_range 28 32 c.

Definition lower_char (c : ascii) : ascii :=
  if is_upper c then ascii_of_N (code c + 32) else c.

(** [s.lower()] *)
Fixpoint lower (s : string) : string :=
  match s with
  | EmptyString => EmptyString
  | String c r => String (lower_char c) (lower r)
  end.

(** [len(s)] *)
Definition len (s : string) : Z := Z.of_nat (String.length s).

(** Truth value of a string: [bool(s)]. *)
Definition truthy (s : string) : bool :=
  match s with EmptyString => false | _ => true end.

(** [x if x else None] for a value that is a string or [None]. *)
Definition or_none (o : option string) : option string :=
  match o with
  | Some s => if truthy s then Some s else None
  | None => None
  end.

(** [hay.startswith(needle)] *)
Fixpoint startswith (needle hay : string) : bool :=
  match needle, hay with
  | EmptyString, _ => true
  | String _ _, EmptyString => false
  | String a n, String b h => if Ascii.eqb a b then startswith n h else false
  end.

(** [needle in hay] *)
Fixpoint contains (needle hay : string) : bool :=
  startswith needle hay ||
  match hay with
  | EmptyString => false
  | String _ h => contains needle h
  end.

(** [a <= b] on strings: lexicographic order on the code points. *)
Fixpoint str_le (a b : string) : bool :=
  match a, b with
  | EmptyString, _ => true
  | String _ _, EmptyString => false
  | String x a', String y b' =>
      if (code x <? code y)%N then true
      else if (code y <? code x)%N then false
      else str_le a' b'
  end.

(** [re.sub(r'[^\w\s]', '', s)] *)
Fixpoint strip_punct (s : string) : string :=
  match s with
  | EmptyString => EmptyString
  | String c r =>
      if is_word c || is_space c then String c (strip_punct r)
      else strip_punct r
  end.

(** [re.sub(r'[^\w\s]', '', s).lower()] *)
Definition clean (s : string) : string := lower (strip_punct s).

(** [re.split(r'\W+', s)].  [cur] is the token being read (reversed) and
    [in_sep] tells that the previous character belonged to a separator;
    a separator run ends the current token once, and the token after the
    last separator is always emitted, so that leading and trailing
    separators give empty strings as in Python. *)
Fixpoint rev_string (acc s : string) : string :=
  match s with
  | EmptyString => acc
  | String c r => rev_string (String c acc) r
  end.

Fixpoint split_go (s : string) (cur : string) (in_sep : bool) : list string :=
  match s with
  | EmptyString => [rev_string EmptyString cur]
  | String c r =>
      if is_word c then split_go r (String c cur) false
      else if in_sep then split_go r cur true
      else rev_string EmptyString cur :: split_go r EmptyString true
  end.

Definition split_nonword (s : string) : list string :=
  split_go s EmptyString false.

End PyStr.

(** ** Insertion-ordered dictionaries

    A Python [dict] iterates in insertion order; assigning to a key that is
    present keeps its position. *)

Module ODict.
Section Defs.
Context {K V : Type} `{EqDecision K}.

Definition odict := list (K * V).

Fixpoint get (k : K) (d : odict) : option V :=
  match d with
  | [] => None
  | (k', v) :: r => if decide (k = k') then Some v else get k r
  end.

(** [d[k] = v] *)
Fixpoint set (k : K) (v : V) (d : odict) : odict :=
  match d with
  | [] => [(k, v)]
  | (k', v') :: r =>
      if decide (k = k') then (k', v) :: r else (k', v') :: set k v r
  end.

(** [d.get(k, dflt)] *)
Definition get_default (k : K) (dflt : V) (d : odict) : V :=
  match get k d with Some v => v | None => dflt end.
End Defs.
Arguments odict : clear implicits.
End ODict.

(** ** [utils/event_importer.py] *)

Module EventImporter.
Import PyStr.

(** A scraped event: a [dict] read with [event.get(...)]. *)
Record raw_event := {
  get_Name : option string;
  get_Date : option string;
  get_Time : option string;
  get_Location : option string;
  get_Description : option string;
  get_URL : option string;
  get_Image_URL : option string;
  get_Source : option string
}.

(** A row of table [events], in the column order of the [INSERT]. *)
Record event_row := {
  row_id : Z;
  row_name : string;
  row_date : option string;
  row_time : option string;
  row_location : option string;
  row_description : option string;
  row_url : option string;
  row_image_url : option string;
  row_source : string;
  row_business_id : option Z
}.

(** A row of [SELECT id, name, location FROM businesses]. *)
Definition business := (Z * string * option string)%type.

Record database := {
  events : list event_row;
  db_businesses : list business
}.

(** The attributes of an [EventImporter] instance. *)
Record importer := {
  imported_count : Z;
  duplicate_count : Z;
  business_match_count : Z;
  existing_events : gset (string * option string);
  businesses : list business;
  business_by_name : ODict.odict string Z;
  business_by_location : gmap string Z;
  business_keywords : gmap string (list Z)
}.

(** [__init__] *)
Definition init : importer :=
  {| imported_count := 0; duplicate_count := 0; business_match_count := 0;
     existing_events := ∅; businesses := []; business_by_name := [];
     business_by_location := ∅; business_keywords := ∅ |}.

(** *** [load_existing_data] *)

Definition build_by_name (bs : list business) : ODict.odict string Z :=
  fold_left (fun d b => let '(business_id, name, _) := b in
               if truthy name then ODict.set (lower name) business_id d else d)
            bs [].

Definition build_by_location (bs : list business) : gmap string Z :=
  fold_left (fun (m : gmap string Z) b => let '(business_id, _, location) := b in
               match or_none location with
               | Some l => <[lower l := business_id]> m
               | None => m
               end)
            bs ∅.

(** [[w for w in re.split(r'\W+', name.lower()) if len(w) > 3]] *)
Definition keywords_of (name : string) : list string :=
  List.filter (fun w => 3 <? len w) (split_nonword (lower name)).

Definition add_keyword (business_id : Z) (kw : gmap string (list Z)) (word : string)
  : gmap string (list Z) :=
  <[word := (default [] (kw !! word)) ++ [business_id]]> kw.

Definition build_keywords (bs : list business) : gmap string (list Z) :=
  fold_left (fun kw b => let '(business_id, name, _) := b in
               if truthy name
               then fold_left (add_keyword business_id) (keywords_of name) kw
               else kw)
            bs ∅.

Definition load_existing_data (db : database) (self : importer) : importer :=
  {| imported_count := imported_count self;
     duplicate_count := duplicate_count self;
     business_match_count := business_match_count self;
     existing_events :=
       list_to_set (map (fun r => (row_name r, row_date r)) (events db));
     businesses := db_businesses db;
     business_by_name := build_by_name (db_businesses db);
     business_by_location := build_by_location (db_businesses db);
     business_keywords := build_keywords (db_businesses db) |}.

(** *** [_find_matching_business] *)

(** [not business_id]: [None] and the integer [0] are both false. *)
Definition not_id (business_id : option Z) : bool :=
  match business_id with
  | None => true
  | Some b => b =? 0
  end.

(** The [for ... in self.business_by_name.items(): if business_name in
    text: ...; break] loop of methods 2 and 3. *)
Fixpoint first_name_in (names : ODict.odict string Z) (text : string) : option Z :=
  match names with
  | [] => None
  | (business_name, b_id) :: r =>
      if contains business_name text then Some b_id else first_name_in r text
  end.

Definition method1 (self : importer) (event_location : option string) : option Z :=
  match or_none event_location with
  | Some loc => business_by_location self !! lower loc
  | None => None
  end.

Definition method2 (self : importer) (event_location : option string)
           (business_id : option Z) : option Z :=
  match or_none event_location with
  | Some loc =>
      if not_id business_id then
        match first_name_in (business_by_name self) (lower loc) with
        | Some b => Some b
        | None => business_id
        end
      else business_id
  | None => business_id
  end.

Definition method3 (self : importer) (event_name : option string)
           (business_id : option Z) : option Z :=
  match or_none event_name with
  | Some name =>
      if not_id business_id then
        match first_name_in (business_by_name self) (lower name) with
        | Some b => Some b
        | None => business_id
        end
      else business_id
  | None => business_id
  end.

(** [potential_matches[b_id] = potential_matches.get(b_id, 0) + weight] *)
Definition bump (weight : Z) (pm : ODict.odict Z Z) (b_id : Z) : ODict.odict Z Z :=
  ODict.set b_id (ODict.get_default b_id 0 pm + weight) pm.

Definition score_words (kw : gmap string (list Z)) (weight : Z)
           (pm : ODict.odict Z Z) (words : list string) : ODict.odict Z Z :=
  fold_left (fun pm word =>
               match kw !! word with
               | Some ids => fold_left (bump weight) ids pm
               | None => pm
               end)
            words pm.

Definition potential_matches (self : importer)
           (event_name event_location : option string) : ODict.odict Z Z :=
  let pm0 : ODict.odict Z Z := [] in
  let pm1 :=
    match or_none event_location with
    | Some loc => score_words (business_keywords self) 2 pm0 (split_nonword (lower loc))
    | None => pm0
    end in
  match or_none event_name with
  | Some name => score_words (business_keywords self) 1 pm1 (split_nonword (lower name))
  | None => pm1
  end.

(** [max(items, key=lambda x: x[1])]: the first item of maximal value. *)
Fixpoint max_by_value (best : Z * Z) (rest : list (Z * Z)) : Z * Z :=
  match rest with
  | [] => best
  | x :: r => if snd best <? snd x then max_by_value x r else max_by_value best r
  end.

(** The body of [if not business_id:] of method 4; [None] when the
    fallback leaves [business_id] as it was. *)
Definition keyword_fallback (self : importer)
           (event_name event_location : option string) : option Z :=
  match potential_matches self event_name event_location with
  | [] => None
  | x :: r =>
      let best_match := max_by_value x r in
      if 2 <=? snd best_match then Some (fst best_match) else None
  end.

Definition method4 (self : importer) (event_name event_location : option string)
           (business_id : option Z) : option Z :=
  if not_id business_id then
    match keyword_fallback self event_name event_location with
    | Some b => Some b
    | None => business_id
    end
  else business_id.

Definition _find_matching_business (self : importer)
           (event_name event_location : option string) : option Z :=
  let business_id := method1 self event_location in
  let business_id := method2 self event_location business_id in
  let business_id := method3 self event_name business_id in
  method4 self event_name event_location business_id.

(** *** [import_events_from_scraper] *)

(** [SELECT MAX(id) FROM events] *)
Definition max_id (rows : list event_row) : option Z :=
  match rows with
  | [] => None
  | r :: rs => Some (fold_left Z.max (map row_id rs) (row_id r))
  end.

(** [next_id = (result[0] + 1) if result[0] is not None else 0] *)
Definition next_id_of (db : database) : Z :=
  match max_id (events db) with
  | Some m => m + 1
  | None => 0
  end.

Definition count_duplicate (self : importer) : importer :=
  {| imported_count := imported_count self;
     duplicate_count := duplicate_count self + 1;
     business_match_count := business_match_count self;
     existing_events := existing_events self;
     businesses := businesses self;
     business_by_name := business_by_name self;
     business_by_location := business_by_location self;
     business_keywords := business_keywords self |}.

Definition count_import (matched : bool) (self : importer) : importer :=
  {| imported_count := imported_count self + 1;
     duplicate_count := duplicate_count self;
     business_match_count :=
       if matched then business_match_count self + 1 else business_match_count self;
     existing_events := existing_events self;
     businesses := businesses self;
     business_by_name := business_by_name self;
     business_by_location := business_by_location self;
     business_keywords := business_keywords self |}.

Definition reset_statistics (self : importer) : importer :=
  {| imported_count := 0; duplicate_count := 0; business_match_count := 0;
     existing_events := existing_events self;
     businesses := businesses self;
     business_by_name := business_by_name self;
     business_by_location := business_by_location self;
     business_keywords := business_keywords self |}.

(** One iteration of [for event in events:]; the state is the importer
    and the list [events_to_import]. *)
Definition process_event (scraper_name : string) (next_id : Z)
           (st : importer * list event_row) (event : raw_event)
  : importer * list event_row :=
  let '(self, events_to_import) := st in
  match or_none (get_Name event) with
  | None => st
  | Some name =>
      let date := or_none (get_Date event) in
      let time := or_none (get_Time event) in
      let location := or_none (get_Location event) in
      let description := or_none (get_Description event) in
      let url := or_none (get_URL event) in
      let image_url := or_none (get_Image_URL event) in
      let source := default scraper_name (or_none (get_Source event)) in
      if decide ((name, date) ∈ existing_events self) then
        (count_duplicate self, events_to_import)
      else
        let business_id := _find_matching_business self (Some name) location in
        let row :=
          {| row_id := next_id + imported_count self;
             row_name := name; row_date := date; row_time := time;
             row_location := location; row_description := description;
             row_url := url; row_image_url := image_url;
             row_source := source; row_business_id := business_id |} in
        (count_import (bool_decide (business_id <> None)) self,
         events_to_import ++ [row])
  end.

Definition process_events (scraper_name : string) (next_id : Z)
           (self : importer) (evs : list raw_event) : importer * list event_row :=
  fold_left (process_event scraper_name next_id) evs (self, []).

(** [cursor.executemany("INSERT INTO events ...", rows)] followed by
    [commit]: [id] is the primary key of the table, so a row whose id is
    already stored makes the statement fail ([None]) and nothing is
    committed.  The ids are the unbounded integers of Python here; the 64
    bits of the column are added by
    [EventImporterSources.executemany_insert_sqlite]. *)
Fixpoint executemany_insert (table rows : list event_row) : option (list event_row) :=
  match rows with
  | [] => Some table
  | r :: rs =>
      if existsb (fun r' => row_id r' =? row_id r) table then None
      else executemany_insert (table ++ [r]) rs
  end.

(** [import_events_from_scraper], from the scraped [events] on, with a
    database that can be reached ([load_existing_data] returns [True]): the
    importer after the run and the database it leaves, or [None] when the
    batch insert fails.  The value the method returns is [imported_count]
    of the importer. *)
Definition import_events_from_scraper (self : importer) (db : database)
           (scraper_name : string) (evs : list raw_event)
  : option (importer * database) :=
  let self := reset_statistics self in
  match evs with
  | [] => Some (self, db)
  | _ =>
      let self := load_existing_data db self in
      let next_id := next_id_of db in
      let '(self, events_to_import) := process_events scraper_name next_id self evs in
      match events_to_import with
      | [] => Some (self, db)
      | _ =>
          match executemany_insert (events db) events_to_import with
          | Some table => Some (self, {| events := table; db_businesses := db_businesses db |})
          | None => None
          end
      end
  end.

(** *** Vocabulary of the statements about a run *)

(** The dedup key [(name, date)] of a scraped event; [None] for an event
    the loop skips for want of a name. *)
Definition event_key (e : raw_event) : option (string * option string) :=
  match or_none (get_Name e) with
  | Some name => Some (name, or_none (get_Date e))
  | None => None
  end.

(** The key of a stored row. *)
Definition row_key (r : event_row) : string * option string :=
  (row_name r, row_date r).

(** [SELECT name, date FROM events] as a set. *)
Definition stored_keys (db : database) : gset (string * option string) :=
  list_to_set (map row_key (events db)).

Definition has_name (e : raw_event) : bool :=
  match event_key e with Some _ => true | None => false end.

(** The event is named and its key is in [S]. *)
Definition is_duplicate (S : gset (string * option string)) (e : raw_event) : bool :=
  match event_key e with
  | Some k => bool_decide (k ∈ S)
  | None => false
  end.

(** The event is named and its key is not in [S]. *)
Definition is_new (S : gset (string * option string)) (e : raw_event) : bool :=
  match event_key e with
  | Some k => bool_decide (k ∉ S)
  | None => false
  end.

(** The tokens the keyword fallback reads off a name or a location. *)
Definition tokens (text : option string) : list string :=
  match or_none text with
  | Some s => split_nonword (lower s)
  | None => []
  end.

(** How many times venue [b] is listed under the words [words] of the
    keyword index, counting every occurrence of a word and every
    occurrence of [b] in the list of a word. *)
Definition hits (kw : gmap string (list Z)) (b : Z) (words : list string) : Z :=
  fold_right (fun w n => Z.of_nat (count_occ Z.eq_dec (default [] (kw !! w)) b) + n)
             0 words.

(** How many times the word [w] occurs among the keywords of the names
    of the businesses of [bs] that have the id [b]. *)
Definition name_occurrences (bs : list business) (w : string) (b : Z) : Z :=
  fold_right (fun row n =>
                let '(business_id, name, _) := row in
                (if truthy name && (business_id =? b)
                 then Z.of_nat (count_occ string_dec (keywords_of name) w)
                 else 0) + n)
             0 bs.

(** The same count over the words [words], every occurrence of a word
    counted. *)
Definition catalog_hits (bs : list business) (b : Z) (words : list string) : Z :=
  fold_right (fun w n => name_occurrences bs w b + n) 0 words.

(** No venue is listed under any of the words. *)
Definition all_miss (kw : gmap string (list Z)) (words : list string) : Prop :=
  Forall (fun w => kw !! w = None) words.

(** The lookup tables of [self'] are those of [self]. *)
Definition same_tables (self self' : importer) : Prop :=
  existing_events self' = existing_events self /\
  businesses self' = businesses self /\
  business_by_name self' = business_by_name self /\
  business_by_location self' = business_by_location self /\
  business_keywords self' = business_keywords self.

(** The ids [first], [first + 1], ... given to [n] rows. *)
Definition ids_from (first : Z) (n : nat) : list Z :=
  map (fun k => first + Z.of_nat k) (seq 0 n).

End EventImporter.

(** ** [utils/create_venue_connections.py] *)

Module VenueConnections.
Import PyStr.

(** The values written to column [Business_Match_Type]. *)
Inductive match_type_t := location_to_name | location_to_location | name_to_name.

(** The four local variables of the matching passes. *)
Record match_state := {
  best_match : option string;
  best_score : Z;
  match_type : option match_type_t;
  match_index : Z
}.

(** [not best_match]: [None] or the empty string. *)
Definition not_best_match (st : match_state) : bool :=
  match best_match st with
  | None => true
  | Some s => negb (truthy s)
  end.

(** [enumerate(l)] *)
Definition enumerate {A} (l : list A) : list (Z * A) :=
  imap (fun j x => (Z.of_nat j, x)) l.

Section Matcher.
(** [fuzz.partial_ratio] of library [thefuzz]: a score between 0 and
    100.  The passes below use it as a black box. *)
Variable partial_ratio : string -> string -> Z.

(** A row of [businesses_df]: columns [Name] and [Location] (a missing
    location is [None]).  [read_csv] gives an empty name as [NaN], on
    which the cleaning of the names raises, so the names of a catalog that
    reaches the loop are not empty. *)
Definition business := (string * option string)%type.

Definition accept (threshold : Z) (kind : match_type_t) (name : string)
           (j score : Z) (st : match_state) : match_state :=
  if (threshold <? score) && (best_score st <? score) then
    {| best_match := Some name; best_score := score;
       match_type := Some kind; match_index := j |}
  else st.

(** First pass: the cleaned location against the cleaned business
    names.  [clean_business_names[j]] is [clean (business_names[j])]. *)
Definition pass_location_to_name (catalog : list business)
           (clean_location : string) (st : match_state) : match_state :=
  fold_left (fun st jb =>
               let '(j, (name, _)) := jb in
               let business_name := clean name in
               if truthy business_name && (3 <? len business_name) then
                 accept 80 location_to_name name j
                        (partial_ratio clean_location business_name) st
               else st)
            (enumerate catalog) st.

(** Second pass: the cleaned location against the cleaned business
    locations. *)
Definition pass_location_to_location (catalog : list business)
           (clean_location : string) (st : match_state) : match_state :=
  fold_left (fun st jb =>
               let '(j, (name, business_loc)) := jb in
               match or_none business_loc with
               | Some loc =>
                   accept 80 location_to_location name j
                          (partial_ratio clean_location (clean loc)) st
               | None => st
               end)
            (enumerate catalog) st.

(** Third pass: the cleaned event name against the cleaned business
    names. *)
Definition pass_name_to_name (catalog : list business)
           (clean_event_name : string) (st : match_state) : match_state :=
  fold_left (fun st jb =>
               let '(j, (name, _)) := jb in
               let business_name := clean name in
               if truthy business_name && (3 <? len business_name) then
                 accept 85 name_to_name name j
                        (partial_ratio clean_event_name business_name) st
               else st)
            (enumerate catalog) st.

Definition initial_state : match_state :=
  {| best_match := None; best_score := 0; match_type := None; match_index := -1 |}.

(** The three passes, run on the cleaned location of an event that has
    one. *)
Definition run_passes (catalog : list business)
           (location event_name : string) : match_state :=
  let clean_location := clean location in
  let st := pass_location_to_name catalog clean_location initial_state in
  let st :=
    if not_best_match st then pass_location_to_location catalog clean_location st
    else st in
  if not_best_match st then pass_name_to_name catalog (clean event_name) st
  else st.

(** The body of [for i, event in events_df.iterrows()]: the values
    written to [Business_ID], [Business_Match_Type] and
    [Business_Match_Score] of the event, or [None] when the three
    columns keep their initial [None]. *)
Definition match_event (catalog : list business)
           (ev_location ev_name : option string)
  : option (Z * option match_type_t * Z) :=
  let location := default EmptyString ev_location in
  let event_name := default EmptyString ev_name in
  if negb (truthy location) then None
  else
    let st := run_passes catalog location event_name in
    if negb (not_best_match st) && (0 <=? match_index st)
    then Some (match_index st, match_type st, best_score st)
    else None.
(** [create_venue_connections] on the rows of [events_df], given as
    their columns [Location] and [Name]: the three new columns of each
    row. *)
Definition create_venue_connections (catalog : list business)
           (events_df : list (option string * option string))
  : list (option (Z * option match_type_t * Z)) :=
  map (fun event => match_event catalog (fst event) (snd event)) events_df.

(** *** Vocabulary of the statements about the passes *)

(** The cleaned name a name pass scores at a catalog row, if any. *)
Definition candidate_name (b : business) : option string :=
  let business_name := clean (fst b) in
  if truthy business_name && (3 <? len business_name) then Some business_name else None.

(** The cleaned location the location pass scores at a catalog row. *)
Definition candidate_location (b : business) : option string :=
  option_map clean (or_none (snd b)).

(** The common shape of the three passes. *)
Definition pass_step (cand : business -> option string) (threshold : Z)
           (kind : match_type_t) (text : string)
           (st : match_state) (jb : Z * business) : match_state :=
  match cand (snd jb) with
  | Some c => accept threshold kind (fst (snd jb)) (fst jb) (partial_ratio text c) st
  | None => st
  end.

(** The state [st] is either the initial one or records row [j] of the
    catalog with a score its pass accepts. *)
Definition justified (catalog : list business) (clean_location clean_event_name : string)
           (st : match_state) : Prop :=
  st = initial_state \/
  exists (k : nat) b,
    catalog !! k = Some b /\ match_index st = Z.of_nat k /\
    best_match st = Some (fst b) /\
    match match_type st with
    | Some location_to_name =>
        truthy (fst b) = true /\
        best_score st = partial_ratio clean_location (clean (fst b)) /\ 80 < best_score st
    | Some location_to_location =>
        exists l, or_none (snd b) = Some l /\
                  best_score st = partial_ratio clean_location (clean l) /\ 80 < best_score st
    | Some name_to_name =>
        best_score st = partial_ratio clean_event_name (clean (fst b)) /\ 85 < best_score st
    | None => False
    end.

End Matcher.

End VenueConnections.

(** ** Calendar dates of module [datetime] *)

Module Calendar.

Record date := { year : Z; month : Z; day : Z }.

Definition is_leap (y : Z) : bool :=
  (y mod 4 =? 0) && (negb (y mod 100 =? 0) || (y mod 400 =? 0)).

Definition days_in_month (y m : Z) : Z :=
  if m =? 2 then (if is_leap y then 29 else 28)
  else if (m =? 4) || (m =? 6) || (m =? 9) || (m =? 11) then 30
  else 31.

(** The dates [datetime] accepts; anything else raises [ValueError]. *)
Definition valid (d : date) : bool :=
  (1 <=? year d) && (year d <=? 9999) &&
  (1 <=? month d) && (month d <=? 12) &&
  (1 <=? day d) && (day d <=? days_in_month (year d) (month d)).

Definition make_date (y m d : Z) : option date :=
  let r := {| year := y; month := m; day := d |} in
  if valid r then Some r else None.

Definition days_before_year (y : Z) : Z :=
  let y' := y - 1 in y' * 365 + y' / 4 - y' / 100 + y' / 400.

Fixpoint days_before_month_nat (y : Z) (m : nat) : Z :=
  match m with
  | O => 0
  | S k => days_before_month_nat y k + days_in_month y (Z.of_nat (S k))
  end.

(** Days of year [y] that precede the first day of month [m]. *)
Definition days_before_month (y m : Z) : Z :=
  days_before_month_nat y (Z.to_nat (m - 1)).

(** [d.toordinal()] *)
Definition toordinal (d : date) : Z :=
  days_before_year (year d) + days_before_month (year d) (month d) + day d.

(** [(a - b).days] for a moment [a] of day [a] and midnight of day [b]:
    the time of day of [a] is less than a day, so the floor of the
    difference is the difference of the ordinals. *)
Definition days_between (a b : date) : Z := toordinal a - toordinal b.

Definition next_day (d : date) : date :=
  if day d <? days_in_month (year d) (month d) then
    {| year := year d; month := month d; day := day d + 1 |}
  else if month d <? 12 then
    {| year := year d; month := month d + 1; day := 1 |}
  else {| year := year d + 1; month := 1; day := 1 |}.

(** [d + timedelta(days=n)]; [OverflowError] past year 9999. *)
Definition add_days (n : nat) (d : date) : option date :=
  let r := Nat.iter n next_day d in
  if year r <=? 9999 then Some r else None.

(** [d.replace(year=y)] *)
Definition replace_year (d : date) (y : Z) : option date :=
  make_date y (month d) (day d).

Definition digit (n : Z) : ascii := ascii_of_N (48 + Z.to_N (n mod 10)).

(** [f"{n:02d}"] for [0 <= n < 100] *)
Definition pad2 (n : Z) : string :=
  String (digit (n / 10)) (String (digit n) EmptyString).

(** [f"{n:04d}"] for [0 <= n < 10000] *)
Definition pad4 (n : Z) : string :=
  String (digit (n / 1000)) (String (digit (n / 100)) (pad2 n)).

(** [%Y] of [strftime], which Python leaves to the C library: glibc prints
    the year as a decimal number without padding, so that the years below
    1000 have less than four digits ([datetime(501, 3, 3)] prints
    ['501-03-03']).  For [1 <= y <= 9999]. *)
Definition year_str (y : Z) : string :=
  if y <? 10 then String (digit y) EmptyString
  else if y <? 100 then pad2 y
  else if y <? 1000 then String (digit (y / 100)) (pad2 y)
  else pad4 y.

(** [d.strftime('%Y-%m-%d')] *)
Definition strftime (d : date) : string :=
  (year_str (year d) +:+ "-" +:+ pad2 (month d) +:+ "-" +:+ pad2 (day d))%string.

Definition digit_value (c : ascii) : Z := Z.of_N (PyStr.code c) - 48.

(** [int(s)] for a string of decimal digits. *)
Definition int_of_digits (s : string) : Z :=
  (fix go (acc : Z) (s : string) : Z :=
     match s with
     | EmptyString => acc
     | String c r => go (acc * 10 + digit_value c) r
     end) 0 s.

Definition month_names : list string :=
  ["January"; "February"; "March"; "April"; "May"; "June"; "July";
   "August"; "September"; "October"; "November"; "December"]%string.

Definition month_abbrs : list string :=
  ["Jan"; "Feb"; "Mar"; "Apr"; "May"; "Jun"; "Jul"; "Aug"; "Sep"; "Oct";
   "Nov"; "Dec"]%string.

Fixpoint index_of (x : string) (l : list string) (i : Z) : option Z :=
  match l with
  | [] => None
  | y :: r => if String.eqb x y then Some i else index_of x r (i + 1)
  end.

(** The month number [strptime] gives for a full month name ([%B]), for
    the capitalised names the callers pass. *)
Definition month_of_name (s : string) : option Z := index_of s month_names 1.

(** The month number [strptime] gives for an abbreviation ([%b]). *)
Definition month_of_abbr (s : string) : option Z := index_of s month_abbrs 1.

(** *** Vocabulary of the statements about dates *)

(** A date with a month and a day that exist, in a year from 1 on. *)
Definition wf (d : date) : Prop :=
  1 <= year d /\ 1 <= month d <= 12 /\ 1 <= day d <= days_in_month (year d) (month d).

Definition year_length (y : Z) : Z := if is_leap y then 366 else 365.

(** The number [YYYYMMDD], which orders dates as the calendar does. *)
Definition date_key (d : date) : Z := year d * 10000 + month d * 100 + day d.

End Calendar.

(** ** Regular expressions of module [re]

    A backtracking matcher for the constructs the date patterns of the
    scraper use: character classes, literals, concatenation, ordered
    alternation, greedy bounded repetition and capturing groups, with the
    [re.IGNORECASE] flag. *)

Module Regex.
Import PyStr.

Inductive regex :=
| Eps
| Class (p : ascii -> bool)
| Lit (s : string)
| Cat (a b : regex)
| Alt (a b : regex)
| Rep (r : regex) (lo : nat) (hi : option nat)
| Group (i : nat) (r : regex).

(** A match object: [group(0)] and [groups()]. *)
Record match_obj := { group0 : string; groups : list (option string) }.

Definition upper_char (c : ascii) : ascii :=
  if is_lower c then ascii_of_N (code c - 32) else c.

Definition class_ok (ignorecase : bool) (p : ascii -> bool) (c : ascii) : bool :=
  if ignorecase then p c || p (lower_char c) || p (upper_char c) else p c.

Definition char_eq (ignorecase : bool) (a b : ascii) : bool :=
  if ignorecase then Ascii.eqb (lower_char a) (lower_char b) else Ascii.eqb a b.

(** The rest of [s] after the literal [l], when [s] starts with it. *)
Fixpoint strip_prefix (ignorecase : bool) (l s : string) : option string :=
  match l, s with
  | EmptyString, _ => Some s
  | String _ _, EmptyString => None
  | String a l', String b s' =>
      if char_eq ignorecase a b then strip_prefix ignorecase l' s' else None
  end.

(** The part of [s] consumed when [rest] is what remains of it. *)
Definition consumed (s rest : string) : string :=
  String.substring 0 (String.length s - String.length rest) s.

Definition under (cnt : nat) (hi : option nat) : bool :=
  match hi with
  | Some h => (cnt <? h)%nat
  | None => true
  end.

Section Match.
Context {R : Type}.
Variable ignorecase : bool.

Fixpoint run (r : regex) (s : string) (caps : list (option string))
         (k : string -> list (option string) -> option R) {struct r} : option R :=
  match r with
  | Eps => k s caps
  | Class p =>
      match s with
      | String c s' => if class_ok ignorecase p c then k s' caps else None
      | EmptyString => None
      end
  | Lit l =>
      match strip_prefix ignorecase l s with
      | Some s' => k s' caps
      | None => None
      end
  | Cat a b => run a s caps (fun s' caps' => run b s' caps' k)
  | Alt a b =>
      match run a s caps k with
      | Some x => Some x
      | None => run b s caps k
      end
  | Group i a =>
      run a s caps (fun s' caps' => k s' (<[i := Some (consumed s s')]> caps'))
  | Rep a lo hi =>
      (fix loop (fuel cnt : nat) (s : string) (caps : list (option string))
         : option R :=
         match fuel with
         | O => None
         | S fuel' =>
             let more :=
               if under cnt hi then
                 run a s caps
                     (fun s' caps' =>
                        if (String.length s' <? String.length s)%nat
                        then loop fuel' (S cnt) s' caps'
                        else None)
               else None in
             match more with
             | Some x => Some x
             | None => if (lo <=? cnt)%nat then k s caps else None
             end
         end) (S (String.length s)) O s caps
  end.
End Match.

(** [pattern.match(s)] at the start of [s]: the match and the rest. *)
Definition match_at (ignorecase : bool) (ngroups : nat) (r : regex) (s : string)
  : option (match_obj * string) :=
  run ignorecase r s (replicate ngroups None)
      (fun rest caps => Some ({| group0 := consumed s rest; groups := caps |}, rest)).

(** [re.search(pattern, s)]: the leftmost match. *)
Fixpoint search_rest (ignorecase : bool) (ngroups : nat) (r : regex) (s : string)
  : option (match_obj * string) :=
  match match_at ignorecase ngroups r s with
  | Some x => Some x
  | None =>
      match s with
      | EmptyString => None
      | String _ s' => search_rest ignorecase ngroups r s'
      end
  end.

Definition search (ignorecase : bool) (ngroups : nat) (r : regex) (s : string)
  : option match_obj :=
  option_map fst (search_rest ignorecase ngroups r s).

(** [re.finditer(pattern, s)] for a pattern that matches no empty string:
    the search resumes where the previous match ended. *)
Fixpoint finditer_fuel (fuel : nat) (ngroups : nat) (r : regex) (s : string)
  : list match_obj :=
  match fuel with
  | O => []
  | S fuel' =>
      match search_rest false ngroups r s with
      | Some (mo, rest) => mo :: finditer_fuel fuel' ngroups r rest
      | None => []
      end
  end.

Definition finditer (ngroups : nat) (r : regex) (s : string) : list match_obj :=
  finditer_fuel (S (String.length s)) ngroups r s.

(** Pattern combinators. *)
Definition digit : regex := Class is_digit.
Definition space_plus : regex := Rep (Class is_space) 1 None.
Definition opt (r : regex) : regex := Rep r 0 (Some 1%nat).
Definition times (r : regex) (lo hi : nat) : regex := Rep r lo (Some hi).
Definition any_of (l : list string) : regex :=
  fold_right (fun s r => Alt (Lit s) r) (Class (fun _ => false)) l.
Fixpoint cat (l : list regex) : regex :=
  match l with
  | [] => Eps
  | [r] => r
  | r :: rs => Cat r (cat rs)
  end.

End Regex.

(** ** [data_collection/sources/holycitysinner.py] *)

Module HolyCitySinner.
Import PyStr Calendar Regex.
Export EventImporter(raw_event, Build_raw_event, get_Name, get_Date, get_Time,
                     get_Location, get_Description, get_URL, get_Image_URL,
                     get_Source).

(** *** The date patterns *)

(** [(?:st|nd|rd|th)?] *)
Definition ordinal_suffix : regex := opt (any_of ["st"; "nd"; "rd"; "th"]%string).

(** [(?:,?\s+(\d{4}))?] *)
Definition optional_year (i : nat) : regex :=
  opt (cat [opt (Lit ","); space_plus; Group i (times digit 4 4)]).

(** [(January|...|December)\s+(\d{1,2})(?:st|nd|rd|th)?(?:,?\s+(\d{4}))?] *)
Definition pat_month_day : regex :=
  cat [Group 0 (any_of month_names); space_plus; Group 1 (times digit 1 2);
       ordinal_suffix; optional_year 2].

(** [(Jan|...|Dec)[a-z]*\.?\s+(\d{1,2})(?:st|nd|rd|th)?(?:,?\s+(\d{4}))?] *)
Definition pat_abbr_day : regex :=
  cat [Group 0 (any_of month_abbrs); Rep (Class is_lower) 0 None; opt (Lit ".");
       space_plus; Group 1 (times digit 1 2); ordinal_suffix; optional_year 2].

(** [(\d{1,2})(?:st|nd|rd|th)?\s+(?:of\s+)?(January|...|December)(?:,?\s+(\d{4}))?] *)
Definition pat_day_month : regex :=
  cat [Group 0 (times digit 1 2); ordinal_suffix; space_plus;
       opt (cat [Lit "of"; space_plus]); Group 1 (any_of month_names);
       optional_year 2].

(** [(\d{1,2})/(\d{1,2})/(\d{4})] *)
Definition pat_mdy : regex :=
  cat [Group 0 (times digit 1 2); Lit "/"; Group 1 (times digit 1 2); Lit "/";
       Group 2 (times digit 4 4)].

(** [(\d{4})-(\d{1,2})-(\d{1,2})] *)
Definition pat_ymd : regex :=
  cat [Group 0 (times digit 4 4); Lit "-"; Group 1 (times digit 1 2); Lit "-";
       Group 2 (times digit 1 2)].

(** [occ_dtstart=(\d{4}-\d{2}-\d{2})T(\d{2}:\d{2})] *)
Definition pat_occ_dtstart : regex :=
  cat [Lit "occ_dtstart=";
       Group 0 (cat [times digit 4 4; Lit "-"; times digit 2 2; Lit "-";
                     times digit 2 2]);
       Lit "T"; Group 1 (cat [times digit 2 2; Lit ":"; times digit 2 2])].

Definition date_patterns : list regex :=
  [pat_month_day; pat_abbr_day; pat_day_month; pat_mdy; pat_ymd].

(** *** [_extract_events_from_text]: the date of one date match *)

(** The body of the inner [try] for one match of [pat_month_day], at the
    calendar day [now]: [None] stands for the [ValueError] branch
    ([continue]), [Some date_str] for the date given to every event that
    follows the match.  [year or str(current_year)] is read back by
    [strptime] as the number it prints. *)
Definition resolve_match (now : date) (mo : match_obj) : option string :=
  match groups mo with
  | [Some month; Some day; year] =>
      let year_num :=
        match or_none year with
        | Some y => int_of_digits y
        | None => Calendar.year now
        end in
      match month_of_name month with
      | Some m =>
          match make_date year_num m (int_of_digits day) with
          | Some date_obj =>
              let rolled :=
                if 180 <? days_between now date_obj
                then replace_year date_obj (Calendar.year date_obj + 1)
                else Some date_obj in
              option_map strftime rolled
          | None => None
          end
      | None => None
      end
  | _ => None
  end.

(** The [date_str] computed for each date match of [text], in order. *)
Definition text_date_strs (now : date) (text : string) : list (option string) :=
  map (resolve_match now) (finditer 3 pat_month_day text).

(** *** [scrape_event]: the date of an event page *)

(** [str(n)] for [0 <= n] *)
Fixpoint str_int_fuel (fuel : nat) (n : Z) (acc : string) : string :=
  match fuel with
  | O => acc
  | S f =>
      let acc' := String (Calendar.digit n) acc in
      if n <? 10 then acc' else str_int_fuel f (n / 10) acc'
  end.

Definition str_int (n : Z) : string := str_int_fuel (S (Z.to_nat n)) n EmptyString.

(** [g and g.isdigit()] *)
Definition is_digits (g : option string) : bool :=
  match g with
  | Some s => truthy s && forallb is_digit (list_ascii_of_string s)
  | None => false
  end.

(** [g in names] *)
Definition among (g : option string) (names : list string) : bool :=
  match g with
  | Some s => existsb (String.eqb s) names
  | None => false
  end.

(** [f"{year}-{month_num:02d}-{int(day):02d}"] *)
Definition format_date (year : string) (month_num day_num : Z) : string :=
  (year +:+ "-" +:+ pad2 month_num +:+ "-" +:+ pad2 day_num)%string.

(** [month, day, year = ...; year = year or current_year;
    month_num = datetime.strptime(month[:3], '%b').month] and the
    formatting that follows. *)
Definition named_month_date (current_year : Z) (month day year : option string)
  : option string :=
  match month, day with
  | Some month, Some day =>
      let year := default (str_int current_year) (or_none year) in
      match month_of_abbr (String.substring 0 3 month) with
      | Some month_num => Some (format_date year month_num (int_of_digits day))
      | None => None
      end
  | _, _ => None
  end.

(** The [if]/[elif] chain on [match.groups()].  In Python [and] binds
    tighter than [or], so the first test reads [(len(groups) == 3 and
    groups[0] in full_names) or groups[0] in abbreviations]. *)
Definition date_of_groups (current_year : Z) (mo : match_obj) : option string :=
  match groups mo with
  | [g0; g1; g2] =>
      if among g0 month_names || among g0 month_abbrs then
        named_month_date current_year g0 g1 g2
      else if among g1 month_names then
        named_month_date current_year g1 g0 g2
      else if is_digits g0 && is_digits g1 && is_digits g2 then
        match g0, g1, g2 with
        | Some a, Some b, Some c =>
            if contains "/" (group0 mo)
            then Some (format_date c (int_of_digits a) (int_of_digits b))
            else Some (format_date a (int_of_digits b) (int_of_digits c))
        | _, _, _ => None
        end
      else None
  | _ => None
  end.

(** [for pattern in date_patterns: match = re.search(pattern,
    description, re.IGNORECASE); if match: ...; break] *)
Fixpoint first_match (patterns : list regex) (description : string) : option match_obj :=
  match patterns with
  | [] => None
  | p :: ps =>
      match search true 3 p description with
      | Some mo => Some mo
      | None => first_match ps description
      end
  end.

(** The date taken from parameter [occ_dtstart] of the URL. *)
Definition url_date (event_url : string) : option string :=
  if contains "occ_dtstart=" event_url then
    match search false 2 pat_occ_dtstart event_url with
    | Some mo => mjoin (groups mo !! 0%nat)
    | None => None
    end
  else None.

(** The value of [date_text] when [scrape_event] builds the event. *)
Definition scrape_event_date (current_year : Z) (event_url : string)
           (description : option string) : option string :=
  match or_none (url_date event_url) with
  | Some date_text => Some date_text
  | None =>
      match or_none description with
      | Some description =>
          match first_match date_patterns description with
          | Some mo => date_of_groups current_year mo
          | None => None
          end
      | None => None
      end
  end.

(** The end of [scrape_event].  The name, description, location and
    image are what the selectors found on the page and [time_text] what
    the time patterns gave; the date does not depend on them. *)
Definition scrape_event (current_year : Z) (event_url : string)
           (name description location image_url time_text : option string)
  : option raw_event :=
  let date_text := scrape_event_date current_year event_url description in
  let event :=
    {| get_Name := name; get_Description := description;
       get_Date := date_text; get_Time := time_text;
       get_Location := location; get_URL := Some event_url;
       get_Image_URL := image_url; get_Source := Some "Holy City Sinner"%string |} in
  match or_none name, or_none date_text with
  | Some _, Some _ => Some event
  | _, _ => None
  end.

(** *** [get_events_for_date_range] and [get_all_events] *)

(** The test [get_events_for_date_range] applies to each scraped event
    page. *)
Definition in_date_range (start_date end_date : string) (event : raw_event) : bool :=
  match or_none (get_Date event) with
  | Some event_date => str_le start_date event_date && str_le event_date end_date
  | None => true
  end.

(** [[e for e in new_events if e.get('URL') not in existing_urls]] *)
Definition unique_by_url (all_events new_events : list raw_event) : list raw_event :=
  let existing_urls : gset (option string) := list_to_set (map get_URL all_events) in
  List.filter (fun e => bool_decide (get_URL e ∉ existing_urls)) new_events.

(** [event_date and event_date <= max_date_threshold] *)
Definition keeps (max_date_threshold : string) (event : raw_event) : bool :=
  match or_none (get_Date event) with
  | Some event_date => str_le event_date max_date_threshold
  | None => false
  end.

(** [all_events] before the final filter: the events of the calendar
    page, then those of the weekend page and of the mobile page whose URL
    was not seen yet. *)
Definition gather_events (web_events weekend_events mobile_events : list raw_event)
  : list raw_event :=
  let all_events := web_events in
  let all_events := all_events ++ unique_by_url all_events weekend_events in
  all_events ++ unique_by_url all_events mobile_events.

(** [get_all_events] on the events of the three fetches; [today] is the
    calendar day of [datetime.now()] (or of [start_date] when given).
    [None] is the [OverflowError] of [today + timedelta(days=365)]. *)
Definition get_all_events (today : date)
           (web_events weekend_events mobile_events : list raw_event)
  : option (list raw_event) :=
  match add_days 365 today with
  | Some limit =>
      let max_date_threshold := strftime limit in
      let all_events := gather_events web_events weekend_events mobile_events in
      Some (List.filter (keeps max_date_threshold) all_events)
  | None => None
  end.

End HolyCitySinner.

(** ** Concrete inputs used by the examples *)

Module Examples.
Import PyStr EventImporter.
Local Open Scope string_scope.

Definition event (name date : string) (location : option string) : raw_event :=
  {| get_Name := Some name; get_Date := Some date; get_Time := None;
     get_Location := location; get_Description := None; get_URL := None;
     get_Image_URL := None; get_Source := None |}.

Definition food_truck_friday : raw_event :=
  event "Food Truck Friday" "2024-06-07" None.

Definition empty_db : database := {| events := []; db_businesses := [] |}.

(** A catalog whose first business has id 0, as [create_sql_database]
    numbers businesses from the index of the CSV file. *)
Definition harbor_catalog : list business :=
  [(0, "Harbor Cafe", Some "123 Main St"); (1, "Gin Joint", Some "182 East Bay St")].

Definition harbor_importer : importer :=
  load_existing_data {| events := []; db_businesses := harbor_catalog |} init.

(** A catalog with a venue whose name repeats a word. *)
Definition chop_catalog : list business :=
  [(7, "Chop Chop", Some "12 King St"); (8, "Gin Joint", Some "182 East Bay St")].

Definition chop_importer : importer :=
  load_existing_data {| events := []; db_businesses := chop_catalog |} init.

(** Stand-ins for [fuzz.partial_ratio] in the examples.  The first gives
    100 when the shorter string occurs in the longer one, as the partial
    ratio does, and 0 otherwise; the second gives the same score to every
    pair. *)
Definition containment_ratio (a b : string) : Z :=
  if (len a <=? len b)%Z && truthy a && contains a b then 100
  else if (len b <=? len a)%Z && truthy b && contains b a then 100
  else 0.

Definition constant_ratio (score : Z) (a b : string) : Z := score.

Definition gin_catalog : list VenueConnections.business :=
  [("The Gin Joint", Some "182 East Bay St"); ("Harbor Cafe", None)].

(** September 1, 2024, and a page of the site. *)
Definition sep_1_2024 : Calendar.date :=
  {| Calendar.year := 2024; Calendar.month := 9; Calendar.day := 1 |}.

Definition sep_1_2025 : Calendar.date :=
  {| Calendar.year := 2025; Calendar.month := 9; Calendar.day := 1 |}.

Definition market_url : string := "https://holycitysinner.com/events/spring-market".

(** An event without a date, and one dated a year after [sep_1_2024]. *)
Definition undated_event : raw_event :=
  {| get_Name := Some "Patio Music"; get_Date := None; get_Time := None;
     get_Location := None; get_Description := Some "Live music on the patio all weekend";
     get_URL := Some market_url; get_Image_URL := None;
     get_Source := Some "Holy City Sinner" |}.

Definition next_year_event : raw_event := event "Fall Market" "2025-09-01" None.

(** A page of text: a date line and one paragraph. *)
Definition oyster_text : string :=
  String.append "March 3"
    (String "010" "Oyster roast at the Harbor Cafe. Doors open at 6 pm").

(** The links of a calendar page: five events, one of them twice, and a
    link that is no event. *)
Definition calendar_hrefs : list (option string) :=
  [Some "/events/a"; Some "/events/b"; Some "/about"; Some "/events/a"; None;
   Some "https://mylonews.trumba.com/c"; Some "//holycitysinner.com/event/d";
   Some "events/e"; Some "/events/f"].

(** The same page with a year of long ago in the date line. *)
Definition old_text : string :=
  String.append "March 3, 0500"
    (String "010" "Oyster roast at the Harbor Cafe. Doors open at 6 pm").

(** March 3 of the year 501. *)
Definition mar_3_501 : Calendar.date :=
  {| Calendar.year := 501; Calendar.month := 3; Calendar.day := 3 |}.

(** A site on which one event page, that of the fall market, can be
    scraped. *)
Definition scrape_one (url : string) : option raw_event :=
  if String.eqb url "https://holycitysinner.com/events/a" then Some next_year_event
  else None.

End Examples.

(** ** [utils/event_importer.py]: the sources and the rows of a run *)

Module EventImporterSources.
Import PyStr EventImporter.

(** What the two scrapers return when they are asked for their events:
    [HolyCitySinnerScraper().get_all_events()] and
    [CharlestonCVBScraper().get_events_for_date_range()]. *)
Record sources := {
  hcs_events : list raw_event;
  cvb_events : list raw_event
}.

(** [_get_events_from_scraper] *)
Definition _get_events_from_scraper (src : sources) (scraper_name : string)
  : list raw_event :=
  if String.eqb (lower scraper_name) "hcs" then hcs_events src
  else if String.eqb (lower scraper_name) "cvb" then cvb_events src
  else [].

(** [import_events_from_scraper(scraper_name)] with the call of the
    scraper in it. *)
Definition import_events_from (self : importer) (db : database) (src : sources)
           (scraper_name : string) : option (importer * database) :=
  import_events_from_scraper self db scraper_name
    (_get_events_from_scraper src scraper_name).

(** [import_events_from_all_sources]: the total it returns, the importer
    and the database after the two runs. *)
Definition import_events_from_all_sources (self : importer) (db : database)
           (src : sources) : option (Z * importer * database) :=
  let total_imported := 0 in
  match import_events_from self db src "hcs" with
  | Some (self, db) =>
      let total_imported := total_imported + imported_count self in
      match import_events_from self db src "cvb" with
      | Some (self, db) =>
          let total_imported := total_imported + imported_count self in
          Some (total_imported, self, db)
      | None => None
      end
  | None => None
  end.

(** The module-level [import_events_from_source]: a fresh importer, one
    run, the count of the run. *)
Definition import_events_from_source (db : database) (src : sources)
           (source_name : string) : option (Z * database) :=
  match import_events_from init db src source_name with
  | Some (importer, db) => Some (imported_count importer, db)
  | None => None
  end.

(** *** The batch insert on the [INTEGER] column of SQLite *)

(** The values an [INTEGER] of SQLite holds: 64 bits, signed.  Binding a
    Python integer outside this range raises [OverflowError]. *)
Definition sqlite_integer (n : Z) : bool := (- 2 ^ 63 <=? n) && (n <? 2 ^ 63).

(** [cursor.executemany("INSERT INTO events ...", rows)] followed by
    [commit], with the ids of Python bound as integers of SQLite: [None]
    stands for the [OverflowError] of an id that does not fit and for the
    [IntegrityError] of an id that is stored already; in both cases the
    statement is left before [commit] and nothing is stored. *)
Fixpoint executemany_insert_sqlite (table rows : list event_row)
  : option (list event_row) :=
  match rows with
  | [] => Some table
  | r :: rs =>
      if negb (sqlite_integer (row_id r)) then None
      else if existsb (fun r' => row_id r' =? row_id r) table then None
      else executemany_insert_sqlite (table ++ [r]) rs
  end.

(** [import_events_from_scraper] with that insert: the ids are computed as
    unbounded integers, as Python does, and meet the 64 bits of SQLite when
    the batch is inserted. *)
Definition import_events_from_scraper_sqlite (self : importer) (db : database)
           (scraper_name : string) (evs : list raw_event)
  : option (importer * database) :=
  let self := reset_statistics self in
  match evs with
  | [] => Some (self, db)
  | _ =>
      let self := load_existing_data db self in
      let next_id := next_id_of db in
      let '(self, events_to_import) := process_events scraper_name next_id self evs in
      match events_to_import with
      | [] => Some (self, db)
      | _ =>
          match executemany_insert_sqlite (events db) events_to_import with
          | Some table => Some (self, {| events := table; db_businesses := db_businesses db |})
          | None => None
          end
      end
  end.

(** *** Vocabulary of the statements about the rows of a run *)

(** The tuple the loop appends for the event [event] named [name], when it
    is the record number [id]. *)
Definition row_of (self : importer) (scraper_name : string) (id : Z)
           (name : string) (event : raw_event) : event_row :=
  {| row_id := id;
     row_name := name;
     row_date := or_none (get_Date event);
     row_time := or_none (get_Time event);
     row_location := or_none (get_Location event);
     row_description := or_none (get_Description event);
     row_url := or_none (get_URL event);
     row_image_url := or_none (get_Image_URL event);
     row_source := default scraper_name (or_none (get_Source event));
     row_business_id :=
       _find_matching_business self (Some name) (or_none (get_Location event)) |}.

(** The rows of the events [admitted], numbered from [first]. *)
Fixpoint rows_of (self : importer) (scraper_name : string) (first : Z)
         (admitted : list raw_event) : list event_row :=
  match admitted with
  | [] => []
  | event :: rest =>
      match or_none (get_Name event) with
      | Some name =>
          row_of self scraper_name first name event
          :: rows_of self scraper_name (first + 1) rest
      | None => rows_of self scraper_name first rest
      end
  end.

(** The rows with a business. *)
Definition matched_rows (rows : list event_row) : list event_row :=
  List.filter (fun r => bool_decide (row_business_id r <> None)) rows.

(** One step of each of the three loops of [load_existing_data]. *)
Definition location_step (m : gmap string Z) (b : business) : gmap string Z :=
  let '(business_id, _, location) := b in
  match or_none location with
  | Some l => <[lower l := business_id]> m
  | None => m
  end.

Definition name_step (d : ODict.odict string Z) (b : business) : ODict.odict string Z :=
  let '(business_id, name, _) := b in
  if truthy name then ODict.set (lower name) business_id d else d.

Definition keyword_step (kw : gmap string (list Z)) (b : business)
  : gmap string (list Z) :=
  let '(business_id, name, _) := b in
  if truthy name then fold_left (add_keyword business_id) (keywords_of name) kw else kw.

(** Business [b] has the keyword [w] in its name. *)
Definition has_keyword (bs : list business) (w : string) (b : Z) : Prop :=
  exists name loc, (b, name, loc) ∈ bs /\ truthy name = true /\ In w (keywords_of name).

(** The ids of a catalog. *)
Definition business_ids (bs : list business) : list Z :=
  map (fun b => fst (fst b)) bs.

End EventImporterSources.

(** ** [data_collection/sources/holycitysinner.py]: pages of text and URLs *)

Module HolyCitySinnerText.
Import PyStr Calendar Regex HolyCitySinner.

(** *** String methods *)

(** [s.lstrip()] *)
Fixpoint lstrip (s : string) : string :=
  match s with
  | EmptyString => EmptyString
  | String c r => if is_space c then lstrip r else s
  end.

(** [s.rstrip()] *)
Definition rstrip (s : string) : string :=
  rev_string EmptyString (lstrip (rev_string EmptyString s)).

(** [s.strip()] *)
Definition strip (s : string) : string := rstrip (lstrip s).

(** [s.split(sep)] for a separator of one character; [cur] is the piece
    being read, reversed. *)
Fixpoint split_char_go (sep : ascii) (s cur : string) : list string :=
  match s with
  | EmptyString => [rev_string EmptyString cur]
  | String c r =>
      if Ascii.eqb c sep then rev_string EmptyString cur :: split_char_go sep r EmptyString
      else split_char_go sep r (String c cur)
  end.

Definition split_char (sep : ascii) (s : string) : list string :=
  split_char_go sep s EmptyString.

(** [s[:n]] *)
Fixpoint take (n : nat) (s : string) : string :=
  match n, s with
  | S k, String c r => String c (take k r)
  | _, _ => EmptyString
  end.

(** *** [_make_absolute_url] *)

Definition base_url : string := "https://holycitysinner.com".

Definition _make_absolute_url (url : string) : string :=
  if startswith "http" url then url
  else if startswith "//" url then ("https:" +:+ url)%string
  else if startswith "/" url then (base_url +:+ url)%string
  else (base_url +:+ "/" +:+ url)%string.

(** *** [get_events_for_date_range]: the links of the event pages *)

(** The test on a link of the calendar page. *)
Definition is_event_href (href : string) : bool :=
  (contains "/events/" href || contains "/event/" href)
  || contains "trumba.com" href
  || (contains "calendar" href && contains "?date=" href).

(** The test on a link of an alternate page. *)
Definition is_alternate_href (href : string) : bool :=
  (contains "/events/" href || contains "/event/" href)
  || contains "trumba.com" href.

(** One iteration of [for link in soup.select('a')]; [href] is
    [link.get('href')]. *)
Definition add_link (test : string -> bool) (event_links : list string)
           (href : option string) : list string :=
  match or_none href with
  | None => event_links
  | Some href =>
      if test href then
        let event_url := _make_absolute_url href in
        if bool_decide (event_url ∈ event_links) then event_links
        else event_links ++ [event_url]
      else event_links
  end.

(** [event_links] when the pages are scraped: [hrefs] are the links of the
    calendar page, [alternate_pages] the links of each alternate page
    ([None] for a page that could not be fetched). *)
Definition event_links_of (hrefs : list (option string))
           (alternate_pages : list (option (list (option string)))) : list string :=
  let event_links := fold_left (add_link is_event_href) hrefs [] in
  if (Z.of_nat (length event_links) =? 0) || (Z.of_nat (length event_links) <? 5) then
    fold_left (fun event_links page =>
                 match page with
                 | Some alt_hrefs => fold_left (add_link is_alternate_href) alt_hrefs event_links
                 | None => event_links
                 end)
              alternate_pages event_links
  else event_links.

(** The hrefs of the calendar page and of the alternate pages that were
    fetched. *)
Definition all_hrefs (hrefs : list (option string))
           (alternate_pages : list (option (list (option string)))) : list string :=
  omap id (hrefs ++ mjoin (omap id alternate_pages)).

(** What the loops over the links keep true of [event_links]: no link
    twice, and every link the absolute form of one of [hrefs]. *)
Definition links_ok (hrefs : list string) (event_links : list string) : Prop :=
  NoDup event_links /\
  Forall (fun u => startswith "http" u = true /\
                   exists href, href ∈ hrefs /\ u = _make_absolute_url href) event_links.

(** *** [scrape_event]: the time of parameter [occ_dtstart] *)

(** The text made of group 2 of the URL pattern, [hh:mm]; [None] stands
    for the [IndexError] of a group without a colon. *)
Definition time_of_clock (clock : string) : option string :=
  match split_char ":" clock with
  | h :: minutes :: _ =>
      let hour := int_of_digits h in
      let am_pm : string := if hour <? 12 then "AM" else "PM" in
      let hour := if 12 <? hour then hour - 12 else hour in
      Some (str_int hour +:+ ":" +:+ minutes +:+ " " +:+ am_pm)%string
  | _ => None
  end.

(** The value of [time_text] after the URL was read. *)
Definition url_time (event_url : string) : option string :=
  if contains "occ_dtstart=" event_url then
    match search false 2 pat_occ_dtstart event_url with
    | Some mo =>
        match mjoin (groups mo !! 1%nat) with
        | Some clock => time_of_clock clock
        | None => None
        end
    | None => None
    end
  else None.

(** *** [_extract_events_from_text] *)

(** [re.search] with the text before the match and the text after it. *)
Fixpoint search_split (ignorecase : bool) (ngroups : nat) (r : regex)
         (s skipped : string) : option (string * match_obj * string) :=
  match match_at ignorecase ngroups r s with
  | Some (mo, rest) => Some (rev_string EmptyString skipped, mo, rest)
  | None =>
      match s with
      | EmptyString => None
      | String c s' => search_split ignorecase ngroups r s' (String c skipped)
      end
  end.

(** The matches of [re.finditer], each with [text[match.end():next.start()]]
    (the rest of the text after the last match). *)
Fixpoint matches_with_content (fuel : nat) (ngroups : nat) (r : regex) (s : string)
  : list (match_obj * string) :=
  match fuel with
  | O => []
  | S fuel' =>
      match search_split false ngroups r s EmptyString with
      | Some (_, mo, after) =>
          let content :=
            match search_split false ngroups r after EmptyString with
            | Some (before, _, _) => before
            | None => after
            end in
          (mo, content) :: matches_with_content fuel' ngroups r after
      | None => []
      end
  end.

(** [at\s+(?:the\s+)?([A-Z][^\.]+)] *)
Definition pat_location : regex :=
  cat [Lit "at"; space_plus; opt (cat [Lit "the"; space_plus]);
       Group 0 (cat [Class is_upper;
                     Rep (Class (fun c => negb (Ascii.eqb c "."))) 1 None])].

(** [(\d{1,2}(?::\d{2})?\s*[ap]m)] *)
Definition pat_time : regex :=
  Group 0 (cat [times digit 1 2; opt (cat [Lit ":"; times digit 2 2]);
                Rep (Class is_space) 0 None;
                Class (fun c => Ascii.eqb c "a" || Ascii.eqb c "p"); Lit "m"]).

(** [[p.strip() for p in content.split('\n') if p.strip()]] *)
Definition paragraphs_of (content : string) : list string :=
  map strip (List.filter (fun p => truthy (strip p)) (split_char "010" content)).

(** [paragraph.split('.')[0]], cut to 100 characters and three dots when it
    is longer. *)
Definition title_of (paragraph : string) : string :=
  let title := hd EmptyString (split_char "." paragraph) in
  if 100 <? len title then (take 100 title +:+ "...")%string else title.

(** The event made of one paragraph, or [None] for a paragraph of less
    than 20 characters. *)
Definition event_of_paragraph (date_str source_url paragraph : string)
  : option raw_event :=
  if len paragraph <? 20 then None
  else
    let location :=
      match search false 1 pat_location paragraph with
      | Some mo => option_map strip (mjoin (groups mo !! 0%nat))
      | None => None
      end in
    let time_str :=
      match search true 1 pat_time paragraph with
      | Some mo => default EmptyString (mjoin (groups mo !! 0%nat))
      | None => EmptyString
      end in
    Some {| get_Name := Some (title_of paragraph);
            get_Date := Some date_str;
            get_Time := Some time_str;
            get_Location := location;
            get_Description := Some paragraph;
            get_URL := Some source_url;
            get_Image_URL := Some EmptyString;
            get_Source := Some "Holy City Sinner"%string |}.

(** The events of one date match: none when the date raises [ValueError]. *)
Definition events_of_match (now : date) (source_url : string)
           (mc : match_obj * string) : list raw_event :=
  match resolve_match now (fst mc) with
  | Some date_str =>
      omap (event_of_paragraph date_str source_url) (paragraphs_of (snd mc))
  | None => []
  end.

(** [_extract_events_from_text(text, source_url)] on the calendar day
    [now]. *)
Definition _extract_events_from_text (now : date) (text source_url : string)
  : list raw_event :=
  flat_map (events_of_match now source_url)
           (matches_with_content (S (String.length text)) 3 pat_month_day text).

(** *** [get_events_for_date_range] *)

Definition events_url : string := "https://holycitysinner.com/calendar".

(** [get_events_for_date_range] on the calendar day [now], with
    [start_date] and [end_date] as they are once the defaults are filled
    in.  [soup] is what [get_soup(self.events_url)] gives: [None] when the
    page cannot be fetched, else the [href] of each link of the page and
    the text of the content element (of [article] or [.entry-content]),
    if there is one; [alternate_pages] are the links of the alternate
    pages and [scrape] is [self.scrape_event] on each link.  When no link
    is found and the page has a content element, the events read off its
    text are returned as they are; otherwise each link is scraped and the
    events are tested against the range. *)
Definition get_events_for_date_range (now : date) (start_date end_date : string)
           (soup : option (list (option string) * option string))
           (alternate_pages : list (option (list (option string))))
           (scrape : string -> option raw_event) : list raw_event :=
  match soup with
  | None => []
  | Some (hrefs, content_elem) =>
      let event_links := event_links_of hrefs alternate_pages in
      match event_links, content_elem with
      | [], Some text => _extract_events_from_text now text events_url
      | _, _ =>
          List.filter (in_date_range start_date end_date) (omap scrape event_links)
      end
  end.

(** *** Vocabulary of the statements about the events of a text *)

(** What every event read off a text at [source_url] looks like: its URL,
    source and image, a date that exists, a paragraph of at least 20
    characters as description, and the title of the paragraph as name. *)
Definition text_event_shape (source_url : string) (e : raw_event) : Prop :=
  get_URL e = Some source_url /\
  get_Source e = Some "Holy City Sinner"%string /\
  get_Image_URL e = Some EmptyString /\
  (exists d, valid d = true /\ get_Date e = Some (strftime d)) /\
  (exists t, get_Time e = Some t) /\
  (exists paragraph,
     get_Description e = Some paragraph /\ 20 <= len paragraph /\
     get_Name e = Some (title_of paragraph) /\ len (title_of paragraph) <= 103).

End HolyCitySinnerText.

(** * Properties *)

(** ** The ingestion run of [EventImporter] *)

Module EventImporterSpec.
Import PyStr EventImporter.

Lemma same_tables_refl self : same_tables self self.
Proof. unfold same_tables. tauto. Qed.

Lemma same_tables_trans a b c : same_tables a b -> same_tables b c -> same_tables a c.
Proof. unfold same_tables. intuition congruence. Qed.

Lemma ids_from_cons first n :
  ids_from first (S n) = first :: ids_from (first + 1) n.
Proof.
  unfold ids_from. cbn. f_equal; [lia|].
  rewrite <- seq_shift, map_map. apply map_ext. intros k. lia.
Qed.

(** The three ways one iteration of the loop can go. *)
Lemma process_event_skip scraper next_id self acc e :
  event_key e = None ->
  process_event scraper next_id (self, acc) e = (self, acc).
Proof.
  unfold event_key, process_event. destruct (or_none (get_Name e)); [discriminate|reflexivity].
Qed.

Lemma process_event_dup scraper next_id self acc e k :
  event_key e = Some k -> k ∈ existing_events self ->
  process_event scraper next_id (self, acc) e = (count_duplicate self, acc).
Proof.
  unfold event_key, process_event. destruct (or_none (get_Name e)); [|discriminate].
  intros [= <-] Hin. destruct (decide _); [reflexivity|contradiction].
Qed.

Lemma process_event_new scraper next_id self acc e k :
  event_key e = Some k -> k ∉ existing_events self ->
  exists matched row,
    process_event scraper next_id (self, acc) e = (count_import matched self, acc ++ [row]) /\
    row_id row = next_id + imported_count self /\
    row_key row = k.
Proof.
  unfold event_key, process_event. destruct (or_none (get_Name e)); [|discriminate].
  intros [= <-] Hin. destruct (decide _); [contradiction|].
  eexists _, _. split; [reflexivity|]. split; reflexivity.
Qed.

(** The loop of [import_events_from_scraper]. *)
Lemma process_events_fold scraper next_id evs :
  forall self acc,
  exists self' new_rows,
    fold_left (process_event scraper next_id) evs (self, acc) = (self', acc ++ new_rows) /\
    same_tables self self' /\
    imported_count self' = imported_count self + Z.of_nat (length new_rows) /\
    duplicate_count self' =
      duplicate_count self
      + Z.of_nat (length (List.filter (is_duplicate (existing_events self)) evs)) /\
    map row_id new_rows = ids_from (next_id + imported_count self) (length new_rows) /\
    map (fun r => Some (row_key r)) new_rows
      = map event_key (List.filter (is_new (existing_events self)) evs).
Proof.
  induction evs as [|e evs IH]; intros self acc.
  - exists self, []. rewrite app_nil_r. cbn. split; [reflexivity|].
    split; [apply same_tables_refl|]. repeat split; lia.
  - cbn [fold_left List.filter]. unfold is_duplicate at 1, is_new at 1.
    destruct (event_key e) as [k|] eqn:Hk.
    + destruct (decide (k ∈ existing_events self)) as [Hin|Hnin].
      * rewrite (process_event_dup _ _ _ _ _ _ Hk Hin).
        destruct (IH (count_duplicate self) acc) as (self' & rows & Hf & Hs & Hi & Hd & Hids & Hks).
        exists self', rows. rewrite Hf.
        rewrite bool_decide_eq_true_2 by assumption.
        rewrite bool_decide_eq_false_2 by (intros Hc; exact (Hc Hin)).
        cbn [imported_count duplicate_count count_duplicate existing_events] in *.
        repeat split; try assumption; try apply Hs. rewrite Hd. cbn [length]. lia.
      * destruct (process_event_new scraper next_id self acc e k Hk Hnin)
          as (matched & row & Hstep & Hid & Hrk).
        rewrite Hstep.
        destruct (IH (count_import matched self) (acc ++ [row]))
          as (self' & rows & Hf & Hs & Hi & Hd & Hids & Hks).
        exists self', (row :: rows). rewrite Hf.
        rewrite bool_decide_eq_false_2 by assumption.
        rewrite bool_decide_eq_true_2 by assumption.
        change (length (row :: rows)) with (S (length rows)).
        rewrite ids_from_cons.
        cbn [map imported_count duplicate_count count_import existing_events] in *.
        split; [by rewrite <- app_assoc|].
        split; [repeat split; apply Hs|].
        split; [lia|]. split; [rewrite Hd; lia|].
        split.
        -- rewrite Hids, Hid. do 2 f_equal. lia.
        -- rewrite Hrk, Hks, Hk. reflexivity.
    + rewrite (process_event_skip _ _ _ _ _ Hk).
      destruct (IH self acc) as (self' & rows & Hf & Hs & Hi & Hd & Hids & Hks).
      exists self', rows. rewrite Hf. repeat split; try assumption; apply Hs.
Qed.


(** *** Ids *)

Lemma fold_max_bound l : forall a,
  a <= fold_left Z.max l a /\ Forall (fun x => x <= fold_left Z.max l a) l.
Proof.
  induction l as [|x l IH]; intros a; cbn.
  - split; [lia|constructor].
  - destruct (IH (Z.max a x)) as [H1 H2]. split; [lia|].
    constructor; [lia|exact H2].
Qed.

Lemma max_id_bound rows m :
  max_id rows = Some m -> Forall (fun r => row_id r <= m) rows.
Proof.
  destruct rows as [|r rs]; cbn; [discriminate|]. intros [= <-].
  destruct (fold_max_bound (map row_id rs) (row_id r)) as [H1 H2].
  constructor; [exact H1|].
  rewrite Forall_map in H2. exact H2.
Qed.

(** Every stored id is below [next_id]. *)
Lemma next_id_fresh db : Forall (fun r => row_id r < next_id_of db) (events db).
Proof.
  unfold next_id_of. destruct (max_id (events db)) as [m|] eqn:Hm.
  - eapply Forall_impl; [apply (max_id_bound _ _ Hm)|]. cbn. intros; lia.
  - destruct (events db); [constructor|discriminate].
Qed.

Lemma ids_from_lookup first n k :
  (k < n)%nat -> ids_from first n !! k = Some (first + Z.of_nat k).
Proof.
  intros Hk. unfold ids_from. rewrite list_lookup_fmap.
  rewrite lookup_seq_lt by assumption. reflexivity.
Qed.

Lemma ids_from_sorted n : forall first, StronglySorted Z.lt (ids_from first n).
Proof.
  induction n as [|n IH]; intros first.
  - constructor.
  - rewrite ids_from_cons. constructor; [apply IH|].
    apply Forall_forall. intros x Hx. unfold ids_from in Hx.
    apply list_elem_of_In, in_map_iff in Hx. destruct Hx as (k & <- & _). lia.
Qed.

Lemma ids_from_ge first n : Forall (fun x => first <= x) (ids_from first n).
Proof.
  apply Forall_forall. intros x Hx. unfold ids_from in Hx.
  apply list_elem_of_In, in_map_iff in Hx. destruct Hx as (k & <- & _). lia.
Qed.

Lemma sorted_lt_NoDup l : StronglySorted Z.lt l -> NoDup l.
Proof.
  induction 1 as [|x l Hs IH Hx]; constructor; [|exact IH].
  intros Hin. rewrite Forall_forall in Hx.
  specialize (Hx x Hin). lia.
Qed.

(** The batch insert of rows with fresh consecutive ids succeeds. *)
Lemma executemany_insert_fresh rows : forall table first,
  Forall (fun r => row_id r < first) table ->
  map row_id rows = ids_from first (length rows) ->
  executemany_insert table rows = Some (table ++ rows).
Proof.
  induction rows as [|r rs IH]; intros table first Hlt Hids.
  - cbn. by rewrite app_nil_r.
  - cbn [length] in Hids. rewrite ids_from_cons in Hids. cbn [map] in Hids.
    injection Hids as Hr Hrs. cbn [executemany_insert].
    replace (existsb _ table) with false.
    + rewrite (IH (table ++ [r]) (first + 1)); [by rewrite <- app_assoc| |exact Hrs].
      apply Forall_app. split.
      * eapply Forall_impl; [exact Hlt|]. cbn. intros; lia.
      * constructor; [lia|constructor].
    + symmetry. apply not_true_is_false. intros Hex.
      apply existsb_exists in Hex. destruct Hex as (r' & Hin & Heq).
      rewrite Forall_forall in Hlt. apply list_elem_of_In in Hin.
      specialize (Hlt r' Hin). lia.
Qed.

(** *** The whole run *)

Lemma import_run self db scraper evs :
  exists self' rows,
    import_events_from_scraper self db scraper evs
      = Some (self', {| events := events db ++ rows; db_businesses := db_businesses db |}) /\
    imported_count self' = Z.of_nat (length rows) /\
    duplicate_count self' =
      Z.of_nat (length (List.filter (is_duplicate (stored_keys db)) evs)) /\
    map row_id rows = ids_from (next_id_of db) (length rows) /\
    map (fun r => Some (row_key r)) rows
      = map event_key (List.filter (is_new (stored_keys db)) evs).
Proof.
  unfold import_events_from_scraper.
  destruct evs as [|e evs].
  - exists (reset_statistics self), []. destruct db. rewrite app_nil_r. cbn. tauto.
  - set (evs' := e :: evs). unfold process_events.
    destruct (process_events_fold scraper (next_id_of db) evs'
                (load_existing_data db (reset_statistics self)) [])
      as (self' & rows & Hf & Hs & Hi & Hd & Hids & Hks).
    rewrite Hf. cbn [app]. cbn [imported_count duplicate_count load_existing_data
                                reset_statistics existing_events] in *.
    fold (stored_keys db) in *. rewrite Z.add_0_r in Hids.
    exists self', rows. destruct rows as [|r rs].
    + destruct db. rewrite app_nil_r. cbn in *. tauto.
    + rewrite (executemany_insert_fresh (r :: rs) (events db) (next_id_of db)
                 (next_id_fresh db) Hids).
      repeat split; try assumption; lia.
Qed.


(** *** Claims about the run *)

(** C1 (counterexample).  On an empty table, a batch of two byte-identical
    records admits both: [imported_count] is 2, no duplicate is counted,
    and the two rows get ids 0 and 1. *)
Lemma C1_counterexample :
  option_map (fun x => (imported_count (fst x), duplicate_count (fst x),
                        map row_id (events (snd x)),
                        map row_key (events (snd x))))
             (import_events_from_scraper init Examples.empty_db "hcs"
                [Examples.food_truck_friday; Examples.food_truck_friday])
  = Some (2, 0, [0; 1],
          [("Food Truck Friday"%string, Some "2024-06-07"%string);
           ("Food Truck Friday"%string, Some "2024-06-07"%string)]).
Proof. vm_compute. reflexivity. Qed.

Lemma filter_length_insert {A} (f : A -> bool) pre e rest :
  length (List.filter f (pre ++ e :: rest))
  = (length (List.filter f (pre ++ rest)) + (if f e then 1 else 0))%nat.
Proof.
  rewrite !List.filter_app, !length_app. cbn [List.filter].
  destruct (f e); cbn [length]; lia.
Qed.

(** C1 (amended).  The dedup set of a run is the set of keys stored when
    the run starts; it is not extended while the batch is processed.  So
    the two copies of a named record in a batch are judged alike: when the
    key was stored before the run both are duplicates, and otherwise both
    are admitted, so that the pair adds 2 to the imported count. *)
Theorem C1_pair_judged_alike self db scraper pre mid post e k :
  event_key e = Some k ->
  exists s0 d0 s2 d2,
    import_events_from_scraper self db scraper (pre ++ mid ++ post) = Some (s0, d0) /\
    import_events_from_scraper self db scraper (pre ++ e :: mid ++ e :: post) = Some (s2, d2) /\
    if bool_decide (k ∈ stored_keys db)
    then imported_count s2 = imported_count s0 /\ duplicate_count s2 = duplicate_count s0 + 2
    else imported_count s2 = imported_count s0 + 2 /\ duplicate_count s2 = duplicate_count s0.
Proof.
  intros Hk.
  destruct (import_run self db scraper (pre ++ mid ++ post))
    as (s0 & rows0 & Hr0 & Hi0 & Hd0 & _ & Hk0).
  destruct (import_run self db scraper (pre ++ e :: mid ++ e :: post))
    as (s2 & rows2 & Hr2 & Hi2 & Hd2 & _ & Hk2).
  eexists s0, _, s2, _. split; [exact Hr0|]. split; [exact Hr2|].
  apply (f_equal (@length _)) in Hk0, Hk2. rewrite !length_map in Hk0, Hk2.
  replace (pre ++ e :: mid ++ e :: post) with ((pre ++ e :: mid) ++ e :: post) in *
    by (rewrite <- app_assoc; reflexivity).
  rewrite filter_length_insert in Hk2, Hd2.
  replace ((pre ++ e :: mid) ++ post) with (pre ++ e :: mid ++ post) in *
    by (rewrite <- app_assoc; reflexivity).
  rewrite filter_length_insert in Hk2, Hd2.
  unfold is_new at 2 3 in Hk2. unfold is_duplicate at 2 3 in Hd2. rewrite Hk in Hk2, Hd2.
  destruct (decide (k ∈ stored_keys db)) as [Hin|Hnin].
  - rewrite bool_decide_eq_true_2 by assumption.
    rewrite bool_decide_eq_true_2 in Hd2 by assumption.
    rewrite bool_decide_eq_false_2 in Hk2 by (intros Hc; exact (Hc Hin)).
    lia.
  - rewrite bool_decide_eq_false_2 by assumption.
    rewrite bool_decide_eq_false_2 in Hd2 by assumption.
    rewrite bool_decide_eq_true_2 in Hk2 by assumption.
    lia.
Qed.

Lemma C1_pair_judged_alike_witness :
  exists s0 d0 s2 d2,
    import_events_from_scraper init Examples.empty_db "hcs" ([] ++ [] ++ []) = Some (s0, d0) /\
    import_events_from_scraper init Examples.empty_db "hcs"
      ([] ++ Examples.food_truck_friday :: [] ++ Examples.food_truck_friday :: [])
      = Some (s2, d2) /\
    if bool_decide (("Food Truck Friday"%string, Some "2024-06-07"%string)
                      ∈ stored_keys Examples.empty_db)
    then imported_count s2 = imported_count s0 /\ duplicate_count s2 = duplicate_count s0 + 2
    else imported_count s2 = imported_count s0 + 2 /\ duplicate_count s2 = duplicate_count s0.
Proof.
  apply (C1_pair_judged_alike init Examples.empty_db "hcs" [] [] []
           Examples.food_truck_friday
           ("Food Truck Friday"%string, Some "2024-06-07"%string)).
  reflexivity.
Defined.

Lemma stored_keys_app db rows :
  stored_keys {| events := events db ++ rows; db_businesses := db_businesses db |}
  = stored_keys db ∪ list_to_set (map row_key rows).
Proof. unfold stored_keys. cbn. rewrite map_app, list_to_set_app_L. reflexivity. Qed.

(** C9.  A run always completes, and running the same batch again on the
    database it left imports nothing: every named record of the batch is
    counted as a duplicate and the database is unchanged. *)
Theorem C9_second_run_imports_nothing self db scraper evs :
  exists self1 db1 self2,
    import_events_from_scraper self db scraper evs = Some (self1, db1) /\
    import_events_from_scraper self1 db1 scraper evs = Some (self2, db1) /\
    imported_count self2 = 0 /\
    duplicate_count self2 = Z.of_nat (length (List.filter has_name evs)).
Proof.
  destruct (import_run self db scraper evs) as (self1 & rows & Hr1 & _ & _ & _ & Hk1).
  set (db1 := {| events := events db ++ rows; db_businesses := db_businesses db |}) in *.
  destruct (import_run self1 db1 scraper evs) as (self2 & rows2 & Hr2 & Hi2 & Hd2 & _ & Hk2).
  assert (Hdup : forall e, In e evs -> is_duplicate (stored_keys db1) e = has_name e
                                      /\ is_new (stored_keys db1) e = false).
  { intros e He. unfold is_duplicate, is_new, has_name.
    destruct (event_key e) as [k|] eqn:Hk; [|tauto].
    assert (Hin : k ∈ stored_keys db1).
    { unfold db1. rewrite stored_keys_app.
      destruct (decide (k ∈ stored_keys db)) as [|Hnin]; [by apply elem_of_union_l|].
      apply elem_of_union_r, elem_of_list_to_set, list_elem_of_In.
      assert (Hnew : In e (List.filter (is_new (stored_keys db)) evs)).
      { apply filter_In. split; [exact He|]. unfold is_new. rewrite Hk.
        by apply bool_decide_eq_true_2. }
      apply (in_map event_key) in Hnew. rewrite <- Hk1, Hk in Hnew.
      apply in_map_iff in Hnew. destruct Hnew as (r & [= Hr] & Hrin).
      rewrite <- Hr. by apply in_map. }
    rewrite bool_decide_eq_true_2 by assumption.
    rewrite bool_decide_eq_false_2 by (intros Hc; exact (Hc Hin)). tauto. }
  assert (Hnone : List.filter (is_new (stored_keys db1)) evs = []).
  { clear -Hdup. induction evs as [|e evs IH]; [reflexivity|]. cbn [List.filter].
    destruct (Hdup e (or_introl eq_refl)) as [_ ->].
    apply IH. intros e' He'. apply Hdup. by right. }
  assert (Hsame : List.filter (is_duplicate (stored_keys db1)) evs = List.filter has_name evs).
  { clear -Hdup. induction evs as [|e evs IH]; [reflexivity|]. cbn [List.filter].
    destruct (Hdup e (or_introl eq_refl)) as [-> _].
    rewrite IH; [reflexivity|]. intros e' He'. apply Hdup. by right. }
  rewrite Hnone in Hk2. destruct rows2; [|discriminate].
  exists self1, db1, self2. split; [exact Hr1|].
  split; [|split; [exact Hi2|by rewrite Hd2, Hsame]].
  rewrite Hr2. unfold db1. cbn. by rewrite app_nil_r.
Qed.

(** C10.  A run always completes, and the [k]-th record it admits (from 0,
    in input order) is stored with id [next_id + k], where [next_id] is
    the largest stored id plus one (0 for an empty table): the new ids
    increase strictly, are pairwise distinct, and are larger than every id
    stored before the run. *)
Theorem C10_sequential_ids self db scraper evs :
  exists self' rows,
    import_events_from_scraper self db scraper evs
      = Some (self', {| events := events db ++ rows; db_businesses := db_businesses db |}) /\
    map (fun r => Some (row_key r)) rows
      = map event_key (List.filter (is_new (stored_keys db)) evs) /\
    (forall (k : nat) r, rows !! k = Some r ->
       row_id r = next_id_of db + Z.of_nat k /\
       forall m, max_id (events db) = Some m -> row_id r = (m + 1) + Z.of_nat k) /\
    StronglySorted Z.lt (map row_id rows) /\
    NoDup (map row_id rows) /\
    Forall (fun old => Forall (fun r => row_id old < row_id r) rows) (events db).
Proof.
  destruct (import_run self db scraper evs) as (self' & rows & Hr & _ & _ & Hids & Hk).
  exists self', rows. split; [exact Hr|]. split; [exact Hk|].
  assert (Hsorted : StronglySorted Z.lt (map row_id rows))
    by (rewrite Hids; apply ids_from_sorted).
  split; [|split; [exact Hsorted|split; [by apply sorted_lt_NoDup|]]].
  - intros k r Hkr.
    assert (Hid : map row_id rows !! k = Some (row_id r))
      by (rewrite list_lookup_fmap, Hkr; reflexivity).
    rewrite Hids, ids_from_lookup in Hid by (eapply lookup_lt_Some; exact Hkr).
    injection Hid as Hid. split; [lia|].
    intros m Hm. unfold next_id_of in Hid. rewrite Hm in Hid. lia.
  - pose proof (next_id_fresh db) as Hold.
    eapply Forall_impl; [exact Hold|]. cbn. intros old Hlt.
    pose proof (ids_from_ge (next_id_of db) (length rows)) as Hge.
    rewrite <- Hids, Forall_map in Hge.
    eapply Forall_impl; [exact Hge|]. cbn. intros; lia.
Qed.

(** The importer itself admits a named record without a date. *)
Lemma undated_event_admitted self db scraper e name :
  or_none (get_Name e) = Some name -> or_none (get_Date e) = None ->
  (name, None) ∉ stored_keys db ->
  exists self' r,
    import_events_from_scraper self db scraper [e]
      = Some (self', {| events := events db ++ [r]; db_businesses := db_businesses db |}) /\
    imported_count self' = 1 /\ row_name r = name /\ row_date r = None.
Proof.
  intros Hname Hdate Hnew.
  destruct (import_run self db scraper [e]) as (self' & rows & Hr & Hi & _ & _ & Hk).
  assert (Hkey : event_key e = Some (name, None))
    by (unfold event_key; rewrite Hname, Hdate; reflexivity).
  cbn [List.filter] in Hk. unfold is_new in Hk. rewrite Hkey in Hk.
  rewrite bool_decide_eq_true_2 in Hk by assumption. cbn [map] in Hk. rewrite Hkey in Hk.
  destruct rows as [|r [|r' rows]]; try discriminate.
  cbn [map] in Hk. unfold row_key in Hk. injection Hk as Hn Hd.
  exists self', r. split; [exact Hr|]. split; [exact Hi|]. split; assumption.
Qed.

End EventImporterSpec.

(** ** The ingestion-time matcher [_find_matching_business] *)

Module MatcherSpec.
Import PyStr EventImporter.

(** *** Insertion-ordered dictionaries *)

Lemma odict_get_set (k k' v : Z) (d : ODict.odict Z Z) :
  ODict.get k (ODict.set k' v d) = if decide (k = k') then Some v else ODict.get k d.
Proof.
  induction d as [|[k0 v0] d IH]; cbn.
  - destruct (decide (k = k')); reflexivity.
  - destruct (decide (k' = k0)) as [->|Hne]; cbn.
    + destruct (decide (k = k0)); reflexivity.
    + destruct (decide (k = k0)) as [->|Hne'].
      * destruct (decide (k0 = k')); [congruence|reflexivity].
      * exact IH.
Qed.

Lemma odict_set_keys (k v : Z) (d : ODict.odict Z Z) :
  NoDup (map fst d) -> NoDup (map fst (ODict.set k v d)).
Proof.
  induction d as [|[k0 v0] d IH]; cbn; intros Hnd.
  - constructor; [apply not_elem_of_nil|constructor].
  - apply NoDup_cons in Hnd. destruct Hnd as [Hk0 Hnd].
    destruct (decide (k = k0)) as [->|Hne]; cbn.
    + apply NoDup_cons. split; assumption.
    + apply NoDup_cons. split; [|apply IH, Hnd].
      intros Hin. apply Hk0. clear -Hin Hne.
      induction d as [|[k1 v1] d IH]; cbn in *.
      * apply list_elem_of_singleton in Hin. congruence.
      * destruct (decide (k = k1)) as [->|Hne1]; cbn in *; [exact Hin|].
        apply elem_of_cons in Hin. destruct Hin as [->|Hin]; [left|right; apply IH, Hin].
Qed.

Lemma odict_get_in (k v : Z) (d : ODict.odict Z Z) :
  NoDup (map fst d) -> (k, v) ∈ d -> ODict.get k d = Some v.
Proof.
  induction d as [|[k0 v0] d IH]; cbn; intros Hnd Hin.
  - by apply elem_of_nil in Hin.
  - apply NoDup_cons in Hnd. destruct Hnd as [Hk0 Hnd].
    apply elem_of_cons in Hin. destruct Hin as [[= -> ->]|Hin].
    + destruct (decide (k0 = k0)); [reflexivity|congruence].
    + destruct (decide (k = k0)) as [->|Hne]; [|by apply IH].
      exfalso. apply Hk0. apply list_elem_of_fmap. exists (k0, v). split; [reflexivity|exact Hin].
Qed.

Lemma odict_get_some_in (k v : Z) (d : ODict.odict Z Z) :
  ODict.get k d = Some v -> (k, v) ∈ d.
Proof.
  induction d as [|[k0 v0] d IH]; cbn; [discriminate|].
  destruct (decide (k = k0)) as [->|Hne].
  - intros [= ->]. left.
  - intros H. right. by apply IH.
Qed.

(** *** Scoring *)

Lemma bump_get weight pm b b' :
  ODict.get_default b 0 (bump weight pm b')
  = ODict.get_default b 0 pm + (if decide (b = b') then weight else 0).
Proof.
  unfold bump, ODict.get_default. rewrite odict_get_set.
  destruct (decide (b = b')) as [->|Hne]; [reflexivity|lia].
Qed.

Lemma bump_keys weight pm b : NoDup (map fst pm) -> NoDup (map fst (bump weight pm b)).
Proof. apply odict_set_keys. Qed.

Lemma bump_ids_get weight ids : forall pm b,
  ODict.get_default b 0 (fold_left (bump weight) ids pm)
  = ODict.get_default b 0 pm + weight * Z.of_nat (count_occ Z.eq_dec ids b).
Proof.
  induction ids as [|i ids IH]; intros pm b; cbn [fold_left count_occ].
  - lia.
  - rewrite IH, bump_get.
    destruct (Z.eq_dec i b) as [->|Hne].
    + destruct (decide (b = b)); [lia|congruence].
    + destruct (decide (b = i)); [congruence|lia].
Qed.

Lemma bump_ids_keys weight ids : forall pm,
  NoDup (map fst pm) -> NoDup (map fst (fold_left (bump weight) ids pm)).
Proof.
  induction ids as [|i ids IH]; intros pm Hnd; cbn; [exact Hnd|].
  apply IH, bump_keys, Hnd.
Qed.

Lemma hits_cons kw b w words :
  hits kw b (w :: words)
  = Z.of_nat (count_occ Z.eq_dec (default [] (kw !! w)) b) + hits kw b words.
Proof. reflexivity. Qed.

Lemma hits_app kw b ws1 ws2 : hits kw b (ws1 ++ ws2) = hits kw b ws1 + hits kw b ws2.
Proof.
  induction ws1 as [|w ws1 IH]; [reflexivity|].
  rewrite <- app_comm_cons, !hits_cons, IH. lia.
Qed.

Lemma score_words_get kw weight words : forall pm b,
  ODict.get_default b 0 (score_words kw weight pm words)
  = ODict.get_default b 0 pm + weight * hits kw b words.
Proof.
  unfold score_words.
  induction words as [|w words IH]; intros pm b.
  - cbn. lia.
  - cbn [fold_left]. rewrite IH, hits_cons.
    destruct (kw !! w) as [ids|]; cbn [default count_occ].
    + rewrite bump_ids_get. change (id ids) with ids. lia.
    + lia.
Qed.

Lemma score_words_keys kw weight words : forall pm,
  NoDup (map fst pm) -> NoDup (map fst (score_words kw weight pm words)).
Proof.
  unfold score_words.
  induction words as [|w words IH]; intros pm Hnd; cbn [fold_left]; [exact Hnd|].
  apply IH. destruct (kw !! w); [by apply bump_ids_keys|exact Hnd].
Qed.

Lemma score_words_app kw weight pm ws1 ws2 :
  score_words kw weight pm (ws1 ++ ws2)
  = score_words kw weight (score_words kw weight pm ws1) ws2.
Proof. unfold score_words. apply fold_left_app. Qed.

Lemma score_words_miss kw weight words : forall pm,
  all_miss kw words -> score_words kw weight pm words = pm.
Proof.
  unfold score_words, all_miss.
  induction words as [|w words IH]; intros pm Hm; cbn [fold_left]; [reflexivity|].
  apply Forall_cons in Hm. destruct Hm as [-> Hm]. by apply IH.
Qed.

Lemma potential_matches_tokens self name loc :
  potential_matches self name loc
  = score_words (business_keywords self) 1
      (score_words (business_keywords self) 2 [] (tokens loc)) (tokens name).
Proof.
  unfold potential_matches, tokens.
  destruct (or_none loc), (or_none name); reflexivity.
Qed.

(** The total of a venue in the accumulator of the fallback. *)
Lemma potential_matches_total self name loc b :
  ODict.get_default b 0 (potential_matches self name loc)
  = 2 * hits (business_keywords self) b (tokens loc)
    + hits (business_keywords self) b (tokens name).
Proof.
  rewrite potential_matches_tokens, !score_words_get. cbn. lia.
Qed.

Lemma potential_matches_keys self name loc :
  NoDup (map fst (potential_matches self name loc)).
Proof.
  rewrite potential_matches_tokens. apply score_words_keys, score_words_keys. constructor.
Qed.

Lemma hits_nonneg kw b words : 0 <= hits kw b words.
Proof. induction words as [|w words IH]; [cbn; lia|rewrite hits_cons; lia]. Qed.

(** *** [max] *)

Lemma max_by_value_spec rest : forall best,
  max_by_value best rest ∈ best :: rest /\
  Forall (fun x => snd x <= snd (max_by_value best rest)) (best :: rest).
Proof.
  induction rest as [|x rest IH]; intros best; cbn [max_by_value].
  - split; [left|]. constructor; [lia|constructor].
  - destruct (Z.ltb_spec (snd best) (snd x)) as [Hlt|Hge].
    + destruct (IH x) as [Hin Hall]. split; [right; exact Hin|].
      apply Forall_cons in Hall. destruct Hall as [Hx Hall].
      constructor; [lia|]. constructor; assumption.
    + destruct (IH best) as [Hin Hall]. split.
      * apply elem_of_cons in Hin. destruct Hin as [->|Hin]; [left|right; right; exact Hin].
      * apply Forall_cons in Hall. destruct Hall as [Hb Hall].
        constructor; [exact Hb|]. constructor; [lia|exact Hall].
Qed.

(** *** The keyword fallback *)

Lemma keyword_fallback_some self name loc b :
  keyword_fallback self name loc = Some b ->
  2 <= ODict.get_default b 0 (potential_matches self name loc) /\
  forall b', ODict.get_default b' 0 (potential_matches self name loc)
             <= ODict.get_default b 0 (potential_matches self name loc).
Proof.
  unfold keyword_fallback.
  pose proof (potential_matches_keys self name loc) as Hnd.
  destruct (potential_matches self name loc) as [|x r] eqn:Hpm; [discriminate|].
  destruct (max_by_value_spec r x) as [Hin Hall].
  destruct (max_by_value x r) as [bb bv] eqn:Hbest. cbn [fst snd] in *.
  destruct (Z.leb_spec 2 bv) as [Hge|]; [|discriminate].
  intros [= <-].
  assert (Hb : ODict.get_default bb 0 (x :: r) = bv).
  { unfold ODict.get_default. by rewrite (odict_get_in bb bv (x :: r) Hnd Hin). }
  rewrite Hb. split; [exact Hge|].
  intros b'. unfold ODict.get_default.
  destruct (ODict.get b' (x :: r)) as [v|] eqn:Hget; [|lia].
  apply odict_get_some_in in Hget. rewrite Forall_forall in Hall.
  apply (Hall _ Hget).
Qed.

Lemma keyword_fallback_none self name loc :
  keyword_fallback self name loc = None <->
  forall b, ODict.get_default b 0 (potential_matches self name loc) < 2.
Proof.
  split.
  - unfold keyword_fallback.
    pose proof (potential_matches_keys self name loc) as Hnd.
    destruct (potential_matches self name loc) as [|x r] eqn:Hpm.
    + intros _ b. cbn. lia.
    + destruct (max_by_value_spec r x) as [Hin Hall].
      destruct (Z.leb_spec 2 (snd (max_by_value x r))) as [|Hlt]; [discriminate|].
      intros _ b. unfold ODict.get_default.
      destruct (ODict.get b (x :: r)) as [v|] eqn:Hget; [|lia].
      apply odict_get_some_in in Hget. rewrite Forall_forall in Hall.
      specialize (Hall _ Hget). cbn in Hall. lia.
  - intros Hall. destruct (keyword_fallback self name loc) as [b|] eqn:Hkf; [|reflexivity].
    apply keyword_fallback_some in Hkf. destruct Hkf as [Hge _].
    specialize (Hall b). lia.
Qed.

(** One word of the text is in the index and lists the single venue [b]. *)
Lemma score_words_single kw weight pre w post b :
  kw !! w = Some [b] -> all_miss kw (pre ++ post) ->
  score_words kw weight [] (pre ++ w :: post) = [(b, weight)].
Proof.
  intros Hw Hmiss. apply Forall_app in Hmiss. destruct Hmiss as [Hpre Hpost].
  rewrite score_words_app, (score_words_miss _ _ pre) by assumption.
  change (w :: post) with ([w] ++ post).
  rewrite score_words_app, (score_words_miss _ _ post) by assumption.
  unfold score_words. cbn [fold_left]. rewrite Hw. reflexivity.
Qed.

(** C5 (counterexample).  The venue "Chop Chop" is listed twice under its
    only keyword, so the single name token "chop" of an event without a
    location gives it 2 points, not 1, and the name-only overlap yields a
    match. *)
Lemma C5_counterexample :
  keywords_of "Chop Chop" = ["chop"; "chop"]%string /\
  business_keywords Examples.chop_importer !! "chop"%string = Some [7; 7] /\
  tokens (Some "Chop class"%string) = ["chop"; "class"]%string /\
  business_keywords Examples.chop_importer !! "class"%string = None /\
  potential_matches Examples.chop_importer (Some "Chop class"%string) None = [(7, 2)] /\
  keyword_fallback Examples.chop_importer (Some "Chop class"%string) None = Some 7 /\
  _find_matching_business Examples.chop_importer (Some "Chop class"%string) None = Some 7.
Proof. vm_compute. repeat split; reflexivity. Qed.

(** *** The keyword index of a loaded importer *)

Lemma add_keyword_count business_id kw word w b :
  Z.of_nat (count_occ Z.eq_dec (default [] (add_keyword business_id kw word !! w)) b)
  = Z.of_nat (count_occ Z.eq_dec (default [] (kw !! w)) b)
    + (if bool_decide (word = w) && (business_id =? b) then 1 else 0).
Proof.
  unfold add_keyword. destruct (bool_decide_reflect (word = w)) as [->|Hne]; cbn [andb].
  - rewrite lookup_insert_eq. cbn [default]. change (id ?x) with x.
    rewrite count_occ_app. cbn [count_occ].
    destruct (Z.eqb_spec business_id b) as [->|Hb].
    + destruct (Z.eq_dec b b); [|contradiction]. lia.
    + destruct (Z.eq_dec business_id b); [contradiction|]. lia.
  - rewrite lookup_insert_ne by exact Hne. lia.
Qed.

(** The inner loop over the words of one name lists the business once per
    occurrence of the word. *)
Lemma add_keywords_count business_id words w b : forall kw,
  Z.of_nat (count_occ Z.eq_dec
              (default [] (fold_left (add_keyword business_id) words kw !! w)) b)
  = Z.of_nat (count_occ Z.eq_dec (default [] (kw !! w)) b)
    + (if business_id =? b then Z.of_nat (count_occ string_dec words w) else 0).
Proof.
  induction words as [|word words IH]; intros kw; cbn [fold_left count_occ].
  - destruct (business_id =? b); lia.
  - rewrite IH, add_keyword_count.
    destruct (string_dec word w) as [->|Hne].
    + rewrite bool_decide_eq_true_2 by reflexivity. cbn [andb].
      destruct (business_id =? b); lia.
    + rewrite bool_decide_eq_false_2 by exact Hne. cbn [andb].
      destruct (business_id =? b); lia.
Qed.

Lemma build_keywords_count bs w b : forall kw,
  Z.of_nat (count_occ Z.eq_dec
              (default []
                 (fold_left (fun kw row =>
                               let '(business_id, name, _) := row in
                               if truthy name
                               then fold_left (add_keyword business_id) (keywords_of name) kw
                               else kw) bs kw !! w)) b)
  = Z.of_nat (count_occ Z.eq_dec (default [] (kw !! w)) b) + name_occurrences bs w b.
Proof.
  induction bs as [|[[business_id name] location] bs IH]; intros kw; cbn [fold_left].
  - unfold name_occurrences. cbn [fold_right]. lia.
  - rewrite IH.
    change (name_occurrences ((business_id, name, location) :: bs) w b)
      with ((if truthy name && (business_id =? b)
             then Z.of_nat (count_occ string_dec (keywords_of name) w)
             else 0) + name_occurrences bs w b).
    destruct (truthy name); cbn [andb].
    + rewrite add_keywords_count. destruct (business_id =? b); lia.
    + lia.
Qed.

(** The index a loaded importer holds lists a venue under a word once per
    occurrence of the word among the keywords of the names of the venue. *)
Lemma loaded_index_count db self0 w b :
  Z.of_nat (count_occ Z.eq_dec
              (default [] (business_keywords (load_existing_data db self0) !! w)) b)
  = name_occurrences (db_businesses db) w b.
Proof.
  cbn [load_existing_data business_keywords]. unfold build_keywords.
  rewrite build_keywords_count, lookup_empty. cbn [default count_occ]. lia.
Qed.

Lemma loaded_hits db self0 b words :
  hits (business_keywords (load_existing_data db self0)) b words
  = catalog_hits (db_businesses db) b words.
Proof.
  induction words as [|w words IH]; [reflexivity|].
  unfold hits, catalog_hits in *. cbn [fold_right]. rewrite IH, loaded_index_count.
  reflexivity.
Qed.

(** The points of the keyword fallback for any index: the total of venue
    [b] is 2 for every time [b] is listed under a token of the location plus
    1 for every time it is listed under a token of the name. *)
Lemma keyword_points_of_index self name loc :
  let kw := business_keywords self in
  let total b := 2 * hits kw b (tokens loc) + hits kw b (tokens name) in
  (forall b, ODict.get_default b 0 (potential_matches self name loc) = total b) /\
  (forall b, keyword_fallback self name loc = Some b ->
             2 <= total b /\ forall b', total b' <= total b) /\
  (keyword_fallback self name loc = None <-> forall b, total b < 2) /\
  (forall pre w post b,
     tokens loc = pre ++ w :: post -> kw !! w = Some [b] ->
     all_miss kw (pre ++ post) -> all_miss kw (tokens name) ->
     keyword_fallback self name loc = Some b) /\
  (forall pre w post b,
     tokens name = pre ++ w :: post -> kw !! w = Some [b] ->
     all_miss kw (pre ++ post) -> all_miss kw (tokens loc) ->
     keyword_fallback self name loc = None).
Proof.
  intros kw total. subst kw.
  assert (Htotal : forall b, ODict.get_default b 0 (potential_matches self name loc) = total b)
    by (intros b; apply potential_matches_total).
  split; [exact Htotal|]. split; [|split; [|split]].
  - intros b Hkf. apply keyword_fallback_some in Hkf.
    destruct Hkf as [Hge Hmax]. rewrite Htotal in Hge. split; [exact Hge|].
    intros b'. rewrite <- !Htotal. apply Hmax.
  - rewrite keyword_fallback_none. split; intros H b; [rewrite <- Htotal|rewrite Htotal]; apply H.
  - intros pre w post b Hloc Hw Hmiss Hname.
    unfold keyword_fallback. rewrite potential_matches_tokens, Hloc.
    rewrite (score_words_single _ 2 pre w post b Hw Hmiss).
    rewrite score_words_miss by exact Hname. reflexivity.
  - intros pre w post b Hname Hw Hmiss Hloc.
    unfold keyword_fallback. rewrite potential_matches_tokens, Hname.
    rewrite (score_words_miss _ 2 (tokens loc)) by exact Hloc.
    rewrite (score_words_single _ 1 pre w post b Hw Hmiss). reflexivity.
Qed.

(** C5 (amended).  The keyword index of a loaded importer lists a venue
    under a word once per occurrence of the word among the keywords of the
    names of the venue.  In the keyword fallback the total of venue [b] is
    therefore 2 for every occurrence of a token of the event location among
    the keywords of [b], plus 1 for every occurrence of a token of the event
    name.  The fallback returns a venue only of maximal total, and only when
    that total is at least 2.  In particular, when a single token of the
    event is in the index and lists the single venue [b] once, an overlap
    in the location (2 points) yields [b] and an overlap in the name
    (1 point) yields no match. *)
Theorem C5_keyword_points db self0 name loc :
  let self := load_existing_data db self0 in
  let kw := business_keywords self in
  let catalog := db_businesses db in
  let total b := 2 * catalog_hits catalog b (tokens loc)
                 + catalog_hits catalog b (tokens name) in
  (forall w b, Z.of_nat (count_occ Z.eq_dec (default [] (kw !! w)) b)
               = name_occurrences catalog w b) /\
  (forall b, ODict.get_default b 0 (potential_matches self name loc) = total b) /\
  (forall b, keyword_fallback self name loc = Some b ->
             2 <= total b /\ forall b', total b' <= total b) /\
  (keyword_fallback self name loc = None <-> forall b, total b < 2) /\
  (forall pre w post b,
     tokens loc = pre ++ w :: post -> kw !! w = Some [b] ->
     all_miss kw (pre ++ post) -> all_miss kw (tokens name) ->
     keyword_fallback self name loc = Some b) /\
  (forall pre w post b,
     tokens name = pre ++ w :: post -> kw !! w = Some [b] ->
     all_miss kw (pre ++ post) -> all_miss kw (tokens loc) ->
     keyword_fallback self name loc = None).
Proof.
  intros self kw catalog total.
  destruct (keyword_points_of_index self name loc)
    as (Htotal & Hsome & Hnone & Hloc & Hname). cbv zeta in *.
  assert (Heq : forall b,
            2 * hits (business_keywords self) b (tokens loc)
            + hits (business_keywords self) b (tokens name) = total b).
  { intros b. subst total self catalog. cbv beta. by rewrite !loaded_hits. }
  split; [intros w b; apply loaded_index_count|].
  split; [intros b; rewrite <- Heq; apply Htotal|].
  split; [|split; [|split; [exact Hloc|exact Hname]]].
  - intros b Hkf. destruct (Hsome b Hkf) as [Hge Hmax]. rewrite <- Heq.
    split; [exact Hge|]. intros b'. rewrite <- !Heq. apply Hmax.
  - rewrite Hnone. split; intros H b; [rewrite <- Heq|rewrite Heq]; apply H.
Qed.

Lemma C5_keyword_points_witness :
  keyword_fallback Examples.harbor_importer
    (Some "Live music"%string) (Some "near the joint"%string) = Some 1 /\
  keyword_fallback Examples.harbor_importer
    (Some "Joint venture"%string) (Some "King St"%string) = None.
Proof.
  split.
  - apply (proj1 (proj2 (proj2 (proj2 (proj2
             (C5_keyword_points {| events := []; db_businesses := Examples.harbor_catalog |}
                init (Some "Live music"%string) (Some "near the joint"%string))))))
             ["near"; "the"]%string "joint"%string [] 1).
    + reflexivity.
    + vm_compute. reflexivity.
    + repeat constructor.
    + repeat constructor.
  - apply (proj2 (proj2 (proj2 (proj2 (proj2
             (C5_keyword_points {| events := []; db_businesses := Examples.harbor_catalog |}
                init (Some "Joint venture"%string) (Some "King St"%string))))))
             [] "joint"%string ["venture"]%string 1).
    + reflexivity.
    + vm_compute. reflexivity.
    + repeat constructor.
    + repeat constructor.
Defined.

Lemma find_matching_falls_back self name loc :
  method3 self name (method2 self loc (method1 self loc)) = None ->
  _find_matching_business self name loc = keyword_fallback self name loc.
Proof.
  unfold _find_matching_business. intros ->. unfold method4. cbn.
  destruct (keyword_fallback self name loc); reflexivity.
Qed.

(** *** Exact location *)

(** A venue found by its exact location is returned when its id is not 0. *)
Lemma exact_location_wins self name loc b :
  or_none (Some loc) = Some loc ->
  business_by_location self !! lower loc = Some b -> b <> 0 ->
  _find_matching_business self name (Some loc) = Some b.
Proof.
  intros Hloc Hb Hnz.
  assert (Hnot : not_id (Some b) = false) by (cbn; lia).
  unfold _find_matching_business, method1. rewrite Hloc, Hb.
  unfold method2. rewrite Hloc, Hnot.
  unfold method3. rewrite Hnot. destruct (or_none name); unfold method4; rewrite Hnot; reflexivity.
Qed.

(** C7 (failing input).  "123 Main St" is the exact location of business 0,
    yet the matcher returns business 1, found by method 3 in the event
    name: [not business_id] also holds for the id 0 that method 1 found. *)
Theorem C7_exact_location_of_id_zero_overridden :
  business_by_location Examples.harbor_importer !! lower "123 Main St" = Some 0 /\
  method1 Examples.harbor_importer (Some "123 Main St"%string) = Some 0 /\
  _find_matching_business Examples.harbor_importer
    (Some "Gin Joint Party"%string) (Some "123 Main St"%string) = Some 1.
Proof. vm_compute. repeat split; reflexivity. Qed.

(** *** Events without a location *)

(** Without a location only methods 3 and 4 run, from [business_id = None]. *)
Lemma find_matching_without_location self name loc :
  or_none loc = None ->
  _find_matching_business self name loc = method4 self name None (method3 self name None)
  /\ method1 self loc = None /\ method2 self loc None = None.
Proof.
  intros Hloc.
  unfold _find_matching_business, method1, method2. rewrite Hloc.
  repeat split. unfold method4, keyword_fallback, potential_matches. rewrite Hloc.
  reflexivity.
Qed.

End MatcherSpec.

(** ** The passes of [create_venue_connections] *)

Module VenueConnectionsSpec.
Import PyStr VenueConnections.

Section Passes.
Variable partial_ratio : string -> string -> Z.

Lemma fold_left_pointwise {A B} (f g : A -> B -> A) l :
  (forall a b, f a b = g a b) -> forall a, fold_left f l a = fold_left g l a.
Proof.
  intros Hfg. induction l as [|x l IH]; intros a; cbn; [reflexivity|].
  rewrite Hfg. apply IH.
Qed.

Lemma elem_of_enumerate {A} (l : list A) j x :
  (j, x) ∈ enumerate l <-> exists k : nat, j = Z.of_nat k /\ l !! k = Some x.
Proof.
  unfold enumerate. rewrite elem_of_lookup_imap. split.
  - intros (k & y & [= -> ->] & Hl). eauto.
  - intros (k & -> & Hl). eauto.
Qed.

(** Each pass is a fold of [pass_step]. *)
Lemma pass_location_to_name_fold catalog text st :
  pass_location_to_name partial_ratio catalog text st
  = fold_left (pass_step partial_ratio candidate_name 80 location_to_name text)
              (enumerate catalog) st.
Proof.
  unfold pass_location_to_name. apply fold_left_pointwise. intros st' [j [name loc]].
  unfold pass_step, candidate_name. cbn [fst snd].
  destruct (truthy (clean name) && (3 <? len (clean name))); reflexivity.
Qed.

Lemma pass_name_to_name_fold catalog text st :
  pass_name_to_name partial_ratio catalog text st
  = fold_left (pass_step partial_ratio candidate_name 85 name_to_name text)
              (enumerate catalog) st.
Proof.
  unfold pass_name_to_name. apply fold_left_pointwise. intros st' [j [name loc]].
  unfold pass_step, candidate_name. cbn [fst snd].
  destruct (truthy (clean name) && (3 <? len (clean name))); reflexivity.
Qed.

Lemma pass_location_to_location_fold catalog text st :
  pass_location_to_location partial_ratio catalog text st
  = fold_left (pass_step partial_ratio candidate_location 80 location_to_location text)
              (enumerate catalog) st.
Proof.
  unfold pass_location_to_location. apply fold_left_pointwise. intros st' [j [name loc]].
  unfold pass_step, candidate_location. cbn [fst snd].
  destruct (or_none loc); reflexivity.
Qed.

(** What a pass does to the state: the score never decreases; the state is
    kept or replaced by a scored row above the threshold and above the
    previous best; and no scored row beats both the threshold and the
    final best. *)
Lemma pass_fold_spec cand threshold kind text xs : forall st,
  let st' := fold_left (pass_step partial_ratio cand threshold kind text) xs st in
  best_score st <= best_score st' /\
  (st' = st \/
   exists j b c, (j, b) ∈ xs /\ cand b = Some c /\
     st' = {| best_match := Some (fst b); best_score := partial_ratio text c;
              match_type := Some kind; match_index := j |} /\
     threshold < partial_ratio text c /\ best_score st < partial_ratio text c) /\
  (forall j b c, (j, b) ∈ xs -> cand b = Some c ->
                 partial_ratio text c <= Z.max threshold (best_score st')).
Proof.
  induction xs as [|[j b] xs IH]; intros st; cbn zeta.
  - cbn. split; [lia|]. split; [by left|]. intros j b c Hin. by apply elem_of_nil in Hin.
  - cbn [fold_left]. set (st1 := pass_step _ _ _ _ _ st (j, b)).
    destruct (IH st1) as (Hmono & Hcase & Hmax). cbn zeta in *.
    set (st' := fold_left _ xs st1) in *.
    assert (Hstep : best_score st <= best_score st1 /\
              (st1 = st \/
               exists c, cand b = Some c /\
                 st1 = {| best_match := Some (fst b); best_score := partial_ratio text c;
                          match_type := Some kind; match_index := j |} /\
                 threshold < partial_ratio text c /\ best_score st < partial_ratio text c) /\
              (forall c, cand b = Some c ->
                         partial_ratio text c <= Z.max threshold (best_score st1))).
    { unfold st1, pass_step, accept. cbn [fst snd].
      destruct (cand b) as [c|]; [|split; [lia|split; [by left|discriminate]]].
      destruct (Z.ltb_spec threshold (partial_ratio text c));
        destruct (Z.ltb_spec (best_score st) (partial_ratio text c)); cbn [andb best_score].
      - split; [lia|]. split; [right; exists c; repeat split; assumption|].
        intros c' [= <-]. lia.
      - split; [lia|]. split; [by left|]. intros c' [= <-]. lia.
      - split; [lia|]. split; [by left|]. intros c' [= <-]. lia.
      - split; [lia|]. split; [by left|]. intros c' [= <-]. lia. }
    destruct Hstep as (Hmono1 & Hcase1 & Hmax1).
    split; [lia|]. split.
    + destruct Hcase as [Heq|(j' & b' & c' & Hin & Hc & Heq & Hthr & Hbest)].
      * rewrite Heq. destruct Hcase1 as [->|(c & Hc & Heq1 & Hthr & Hbest)]; [by left|].
        right. exists j, b, c. split; [left|]. repeat split; assumption.
      * right. exists j', b', c'. split; [by right|]. repeat split; try assumption. lia.
    + intros j' b' c' Hin Hc. apply elem_of_cons in Hin.
      destruct Hin as [[= -> ->]|Hin]; [|by eapply Hmax].
      specialize (Hmax1 c' Hc). lia.
Qed.

Lemma candidate_name_truthy b c : candidate_name b = Some c -> truthy (fst b) = true /\ c = clean (fst b).
Proof.
  unfold candidate_name. destruct b as [name loc]. cbn [fst].
  destruct (truthy (clean name)) eqn:Ht; cbn [andb]; [|discriminate].
  destruct (3 <? len (clean name)); [|discriminate]. intros [= <-].
  split; [|reflexivity]. destruct name; [discriminate Ht|reflexivity].
Qed.

Lemma candidate_location_some b c :
  candidate_location b = Some c -> exists l, or_none (snd b) = Some l /\ c = clean l.
Proof.
  unfold candidate_location. destruct (or_none (snd b)) as [l|]; [|discriminate].
  intros [= <-]. eauto.
Qed.

Lemma initial_not_best_match : not_best_match initial_state = true.
Proof. reflexivity. Qed.

(** The three passes keep the state justified. *)
Lemma pass_location_to_name_justified catalog cl cn st :
  justified partial_ratio catalog cl cn st ->
  justified partial_ratio catalog cl cn (pass_location_to_name partial_ratio catalog cl st).
Proof.
  intros Hst. rewrite pass_location_to_name_fold.
  destruct (pass_fold_spec candidate_name 80 location_to_name cl (enumerate catalog) st)
    as (_ & [->|(j & b & c & Hin & Hc & -> & Hthr & _)] & _); [exact Hst|].
  apply elem_of_enumerate in Hin. destruct Hin as (k & -> & Hk).
  apply candidate_name_truthy in Hc. destruct Hc as [Ht ->].
  right. exists k, b. cbn. repeat split; assumption.
Qed.

Lemma pass_location_to_location_justified catalog cl cn st :
  justified partial_ratio catalog cl cn st ->
  justified partial_ratio catalog cl cn (pass_location_to_location partial_ratio catalog cl st).
Proof.
  intros Hst. rewrite pass_location_to_location_fold.
  destruct (pass_fold_spec candidate_location 80 location_to_location cl (enumerate catalog) st)
    as (_ & [->|(j & b & c & Hin & Hc & -> & Hthr & _)] & _); [exact Hst|].
  apply elem_of_enumerate in Hin. destruct Hin as (k & -> & Hk).
  apply candidate_location_some in Hc. destruct Hc as (l & Hl & ->).
  right. exists k, b. cbn. repeat split; try assumption. exists l. repeat split; assumption.
Qed.

Lemma pass_name_to_name_justified catalog cl cn st :
  justified partial_ratio catalog cl cn st ->
  justified partial_ratio catalog cl cn (pass_name_to_name partial_ratio catalog cn st).
Proof.
  intros Hst. rewrite pass_name_to_name_fold.
  destruct (pass_fold_spec candidate_name 85 name_to_name cn (enumerate catalog) st)
    as (_ & [->|(j & b & c & Hin & Hc & -> & Hthr & _)] & _); [exact Hst|].
  apply elem_of_enumerate in Hin. destruct Hin as (k & -> & Hk).
  apply candidate_name_truthy in Hc. destruct Hc as [Ht ->].
  right. exists k, b. cbn. repeat split; assumption.
Qed.

Lemma run_passes_justified catalog location event_name :
  justified partial_ratio catalog (clean location) (clean event_name)
            (run_passes partial_ratio catalog location event_name).
Proof.
  unfold run_passes.
  set (st1 := pass_location_to_name _ _ _ _).
  assert (H1 : justified partial_ratio catalog (clean location) (clean event_name) st1)
    by (apply pass_location_to_name_justified; by left).
  set (st2 := if not_best_match st1 then _ else st1).
  assert (H2 : justified partial_ratio catalog (clean location) (clean event_name) st2).
  { unfold st2. destruct (not_best_match st1); [|exact H1].
    by apply pass_location_to_location_justified. }
  destruct (not_best_match st2); [|exact H2].
  by apply pass_name_to_name_justified.
Qed.

(** A first pass that scores 81 at some row and no more at any row ends
    with the score 81. *)
Lemma pass_accepts_81 cand threshold kind text catalog st :
  threshold <= 80 -> best_score st <= 80 ->
  (exists b c, b ∈ catalog /\ cand b = Some c /\ partial_ratio text c = 81) ->
  (forall b c, b ∈ catalog -> cand b = Some c -> partial_ratio text c <= 81) ->
  exists (k : nat) b c,
    catalog !! k = Some b /\ cand b = Some c /\
    fold_left (pass_step partial_ratio cand threshold kind text) (enumerate catalog) st
    = {| best_match := Some (fst b); best_score := 81;
         match_type := Some kind; match_index := Z.of_nat k |}.
Proof.
  intros Hthr Hst (b0 & c0 & Hin0 & Hc0 & H81) Hle.
  destruct (pass_fold_spec cand threshold kind text (enumerate catalog) st)
    as (_ & Hcase & Hmax). cbn zeta in *.
  apply list_elem_of_lookup in Hin0. destruct Hin0 as [k0 Hk0].
  assert (Hin0 : (Z.of_nat k0, b0) ∈ enumerate catalog)
    by (apply elem_of_enumerate; eauto).
  specialize (Hmax _ _ _ Hin0 Hc0). rewrite H81 in Hmax.
  destruct Hcase as [Heq|(j & b & c & Hin & Hc & Heq & _ & _)].
  - rewrite Heq in Hmax. lia.
  - apply elem_of_enumerate in Hin. destruct Hin as (k & -> & Hk).
    exists k, b, c. split; [exact Hk|]. split; [exact Hc|].
    rewrite Heq in Hmax |- *. cbn [best_score] in Hmax.
    assert (partial_ratio text c <= 81)
      by (eapply Hle; [eapply list_elem_of_lookup_2; exact Hk|exact Hc]).
    f_equal. lia.
Qed.

(** A pass in which no row scores above 80 leaves the state unchanged. *)
Lemma pass_rejects_80 cand threshold kind text catalog st :
  80 <= threshold ->
  (forall b c, b ∈ catalog -> cand b = Some c -> partial_ratio text c <= 80) ->
  fold_left (pass_step partial_ratio cand threshold kind text) (enumerate catalog) st = st.
Proof.
  intros Hthr Hle.
  destruct (pass_fold_spec cand threshold kind text (enumerate catalog) st)
    as (_ & [Heq|(j & b & c & Hin & Hc & _ & Hlt & _)] & _); [exact Heq|].
  apply elem_of_enumerate in Hin. destruct Hin as (k & -> & Hk).
  assert (partial_ratio text c <= 80)
    by (eapply Hle; [eapply list_elem_of_lookup_2; exact Hk|exact Hc]).
  lia.
Qed.

Lemma run_passes_first catalog loc name st1 :
  pass_location_to_name partial_ratio catalog (clean loc) initial_state = st1 ->
  not_best_match st1 = false ->
  run_passes partial_ratio catalog loc name = st1.
Proof. unfold run_passes. intros -> Hnb. cbv zeta. rewrite Hnb. by rewrite Hnb. Qed.

Lemma run_passes_second catalog loc name st2 :
  pass_location_to_name partial_ratio catalog (clean loc) initial_state = initial_state ->
  pass_location_to_location partial_ratio catalog (clean loc) initial_state = st2 ->
  not_best_match st2 = false ->
  run_passes partial_ratio catalog loc name = st2.
Proof.
  unfold run_passes. intros -> Hst2 Hnb. cbv zeta.
  rewrite initial_not_best_match, Hst2. by rewrite Hnb.
Qed.

Lemma match_event_of_state catalog loc ev_name st :
  truthy loc = true ->
  run_passes partial_ratio catalog loc (default EmptyString ev_name) = st ->
  not_best_match st = false -> 0 <= match_index st ->
  match_event partial_ratio catalog (Some loc) ev_name
  = Some (match_index st, match_type st, best_score st).
Proof.
  intros Ht Hst Hnb Hidx. unfold match_event.
  change (default EmptyString (Some loc)) with loc. cbv zeta.
  rewrite Ht, Hst, Hnb. cbn [negb andb]. cbv iota.
  destruct (Z.leb_spec 0 (match_index st)); [reflexivity|lia].
Qed.

Lemma accepted_not_best_match name score kind j :
  truthy name = true ->
  not_best_match {| best_match := Some name; best_score := score;
                    match_type := kind; match_index := j |} = false.
Proof. unfold not_best_match. cbn. by intros ->. Qed.

(** C4.  Whatever the scorer and the catalog: an event is connected by
    [location_to_name] or [location_to_location] only to a row whose
    partial-ratio score against the cleaned location is above 80 (so never
    to one scoring exactly 80), and by [name_to_name] only to a row scoring
    above 85; and a row scoring 81 in the location-to-name pass, or in the
    location-to-location pass when the first pass accepted nothing, is
    accepted with score 81 when no row of that pass scores higher. *)
Theorem C4_thresholds catalog ev_location ev_name :
  (forall j kind score,
     match_event partial_ratio catalog ev_location ev_name = Some (j, kind, score) ->
     exists (k : nat) b loc,
       j = Z.of_nat k /\ catalog !! k = Some b /\ ev_location = Some loc /\
       match kind with
       | Some location_to_name =>
           score = partial_ratio (clean loc) (clean (fst b)) /\ 80 < score
       | Some location_to_location =>
           exists l, or_none (snd b) = Some l /\
                     score = partial_ratio (clean loc) (clean l) /\ 80 < score
       | Some name_to_name =>
           score = partial_ratio (clean (default EmptyString ev_name)) (clean (fst b))
           /\ 85 < score
       | None => False
       end) /\
  (forall loc,
     or_none ev_location = Some loc ->
     (exists b c, b ∈ catalog /\ candidate_name b = Some c /\
                  partial_ratio (clean loc) c = 81) ->
     (forall b c, b ∈ catalog -> candidate_name b = Some c ->
                  partial_ratio (clean loc) c <= 81) ->
     exists j, match_event partial_ratio catalog ev_location ev_name
               = Some (j, Some location_to_name, 81)) /\
  (forall loc,
     or_none ev_location = Some loc ->
     Forall (fun b => truthy (fst b) = true) catalog ->
     (forall b c, b ∈ catalog -> candidate_name b = Some c ->
                  partial_ratio (clean loc) c <= 80) ->
     (exists b c, b ∈ catalog /\ candidate_location b = Some c /\
                  partial_ratio (clean loc) c = 81) ->
     (forall b c, b ∈ catalog -> candidate_location b = Some c ->
                  partial_ratio (clean loc) c <= 81) ->
     exists j, match_event partial_ratio catalog ev_location ev_name
               = Some (j, Some location_to_location, 81)).
Proof.
  split; [|split].
  - intros j kind score. unfold match_event.
    destruct ev_location as [loc|]; [|cbn; discriminate].
    change (default EmptyString (Some loc)) with loc. cbv zeta.
    destruct (truthy loc); cbn [negb]; cbv iota; [|discriminate].
    pose proof (run_passes_justified catalog loc (default EmptyString ev_name)) as Hj.
    set (st := run_passes _ _ _ _) in *.
    destruct (not_best_match st) eqn:Hnb; cbn [negb andb]; cbv iota; [discriminate|].
    destruct (0 <=? match_index st); [|discriminate]. intros [= <- <- <-].
    destruct Hj as [Heq|(k & b & Hk & Hidx & Hbm & Hkind)].
    + rewrite Heq in Hnb. discriminate.
    + exists k, b, loc. repeat split; try assumption.
      destruct (match_type st) as [[]|]; tauto.
  - intros loc Hloc Hex Hle.
    destruct ev_location as [loc'|]; [|discriminate].
    cbn in Hloc. destruct (truthy loc') eqn:Ht; [|discriminate]. injection Hloc as ->.
    pose proof (pass_location_to_name_fold catalog (clean loc) initial_state) as Hfold.
    destruct (pass_accepts_81 candidate_name 80 location_to_name (clean loc) catalog
                initial_state ltac:(lia) ltac:(cbn; lia) Hex Hle)
      as (k & b & c & Hk & Hc & Hst).
    rewrite Hst in Hfold.
    apply candidate_name_truthy in Hc. destruct Hc as [Hname _].
    exists (Z.of_nat k).
    assert (Hrun := run_passes_first catalog loc (default EmptyString ev_name) _ Hfold
                      (accepted_not_best_match _ _ _ _ Hname)).
    rewrite (match_event_of_state catalog loc ev_name _ Ht Hrun);
      [reflexivity|by apply accepted_not_best_match|cbn; lia].
  - intros loc Hloc Hnames Hnone Hex Hle.
    destruct ev_location as [loc'|]; [|discriminate].
    cbn in Hloc. destruct (truthy loc') eqn:Ht; [|discriminate]. injection Hloc as ->.
    pose proof (pass_location_to_name_fold catalog (clean loc) initial_state) as Hfold1.
    rewrite (pass_rejects_80 candidate_name 80 location_to_name (clean loc) catalog
               initial_state ltac:(lia) Hnone) in Hfold1.
    pose proof (pass_location_to_location_fold catalog (clean loc) initial_state) as Hfold2.
    destruct (pass_accepts_81 candidate_location 80 location_to_location (clean loc) catalog
                initial_state ltac:(lia) ltac:(cbn; lia) Hex Hle)
      as (k & b & c & Hk & Hc & Hst).
    rewrite Hst in Hfold2.
    assert (Hname : truthy (fst b) = true).
    { rewrite Forall_forall in Hnames. apply Hnames. eapply list_elem_of_lookup_2. exact Hk. }
    exists (Z.of_nat k).
    assert (Hrun := run_passes_second catalog loc (default EmptyString ev_name) _ Hfold1 Hfold2
                      (accepted_not_best_match _ _ _ _ Hname)).
    rewrite (match_event_of_state catalog loc ev_name _ Ht Hrun);
      [reflexivity|by apply accepted_not_best_match|cbn; lia].
Qed.

End Passes.

(** C3 (counterexample).  The event has a name equal to a venue name but no
    location: [create_venue_connections] skips it before any pass, although
    the name-to-name pass run on it would connect it to row 0. *)
Lemma C3_counterexample :
  match_event Examples.containment_ratio Examples.gin_catalog
    None (Some "The Gin Joint"%string) = None /\
  match_event Examples.containment_ratio Examples.gin_catalog
    (Some EmptyString) (Some "The Gin Joint"%string) = None /\
  pass_name_to_name Examples.containment_ratio Examples.gin_catalog
    (clean "The Gin Joint") initial_state
  = {| best_match := Some "The Gin Joint"%string; best_score := 100;
       match_type := Some name_to_name; match_index := 0 |}.
Proof. vm_compute. repeat split; reflexivity. Qed.

(** C3 (amended).  Neither matcher raises.  For an event without a location
    (null or empty), the matcher of the importer skips methods 1 and 2 only:
    method 3 looks for a business name in the event name when there is one,
    and the keyword fallback runs on the event name; while
    [create_venue_connections] skips the event altogether, so that no
    strategy, name-to-name included, is attempted. *)
Theorem C3_absent_location partial_ratio self catalog ev_name ev_location :
  or_none ev_location = None ->
  EventImporter._find_matching_business self ev_name ev_location
  = EventImporter.method4 self ev_name None (EventImporter.method3 self ev_name None) /\
  (forall name, or_none ev_name = Some name ->
                EventImporter.method3 self ev_name None
                = EventImporter.first_name_in (EventImporter.business_by_name self)
                                              (lower name)) /\
  match_event partial_ratio catalog ev_location ev_name = None.
Proof.
  intros Hloc. split; [|split].
  - apply MatcherSpec.find_matching_without_location, Hloc.
  - intros name Hname. unfold EventImporter.method3. rewrite Hname. cbn.
    destruct (EventImporter.first_name_in _ _); reflexivity.
  - unfold match_event. destruct ev_location as [loc|]; [|reflexivity].
    cbn in Hloc |- *. destruct (truthy loc); [discriminate|reflexivity].
Qed.

Lemma C3_absent_location_witness :
  EventImporter._find_matching_business Examples.harbor_importer
    (Some "Gin Joint Party"%string) None = Some 1 /\
  match_event Examples.containment_ratio Examples.gin_catalog
    None (Some "Gin Joint Party"%string) = None.
Proof.
  destruct (C3_absent_location Examples.containment_ratio Examples.harbor_importer
              Examples.gin_catalog (Some "Gin Joint Party"%string) None eq_refl)
    as (Hfind & _ & Hskip).
  split; [rewrite Hfind; vm_compute; reflexivity|exact Hskip].
Defined.

Lemma C4_thresholds_witness :
  exists j, match_event (Examples.constant_ratio 81) Examples.gin_catalog
              (Some "Gin Joint"%string) (Some "Live Jazz Night"%string)
            = Some (j, Some location_to_name, 81).
Proof.
  apply (proj1 (proj2 (C4_thresholds (Examples.constant_ratio 81) Examples.gin_catalog
                         (Some "Gin Joint"%string) (Some "Live Jazz Night"%string)))
               "Gin Joint"%string).
  - reflexivity.
  - exists ("The Gin Joint"%string, Some "182 East Bay St"%string), "the gin joint"%string.
    split; [left|]. split; reflexivity.
  - intros b c _ _. unfold Examples.constant_ratio. lia.
Defined.

End VenueConnectionsSpec.

(** ** Calendar arithmetic *)

Module CalendarSpec.
Import PyStr Calendar.

Lemma valid_wf d : valid d = true <-> wf d /\ year d <= 9999.
Proof. unfold valid, wf. rewrite !andb_true_iff, !Z.leb_le. tauto. Qed.

Lemma month_cases m :
  1 <= m <= 12 ->
  m = 1 \/ m = 2 \/ m = 3 \/ m = 4 \/ m = 5 \/ m = 6 \/
  m = 7 \/ m = 8 \/ m = 9 \/ m = 10 \/ m = 11 \/ m = 12.
Proof. lia. Qed.

Ltac each_month m H :=
  destruct (month_cases m H) as [?|[?|[?|[?|[?|[?|[?|[?|[?|[?|[?|?]]]]]]]]]]]; subst m.

Lemma days_in_month_bounds y m : 28 <= days_in_month y m <= 31.
Proof.
  unfold days_in_month.
  destruct (m =? 2); [destruct (is_leap y); lia|].
  destruct ((m =? 4) || (m =? 6) || (m =? 9) || (m =? 11)); lia.
Qed.

Lemma days_before_month_next y m :
  1 <= m <= 12 ->
  days_before_month y (m + 1) = days_before_month y m + days_in_month y m.
Proof.
  intros Hm. unfold days_before_month.
  replace (Z.to_nat (m + 1 - 1)) with (S (Z.to_nat (m - 1))) by lia.
  cbn [days_before_month_nat]. do 2 f_equal. lia.
Qed.

Lemma days_before_month_13 y : days_before_month y 13 = year_length y.
Proof.
  unfold year_length, days_before_month.
  change (Z.to_nat (13 - 1)) with 12%nat. cbn [days_before_month_nat].
  unfold days_in_month. cbn [Z.of_nat Pos.of_succ_nat Pos.succ Z.eqb Pos.eqb orb].
  destruct (is_leap y); reflexivity.
Qed.

Lemma days_before_month_mono y m1 m2 :
  1 <= m1 -> m1 <= m2 -> m2 <= 13 ->
  days_before_month y m1 <= days_before_month y m2.
Proof.
  intros H1 H12 H2.
  replace m2 with (m1 + Z.of_nat (Z.to_nat (m2 - m1))) by lia.
  assert (Hk : m1 + Z.of_nat (Z.to_nat (m2 - m1)) <= 13) by lia.
  induction (Z.to_nat (m2 - m1)) as [|k IH].
  - rewrite Z.add_0_r. lia.
  - replace (m1 + Z.of_nat (S k)) with (m1 + Z.of_nat k + 1) in * by lia.
    rewrite days_before_month_next by lia.
    pose proof (days_in_month_bounds y (m1 + Z.of_nat k)). lia.
Qed.

Lemma days_before_year_next y :
  days_before_year (y + 1) = days_before_year y + year_length y.
Proof.
  unfold days_before_year, year_length, is_leap. cbv zeta.
  replace (y + 1 - 1) with y by lia.
  destruct (Z.eqb_spec (y mod 4) 0); destruct (Z.eqb_spec (y mod 100) 0);
    destruct (Z.eqb_spec (y mod 400) 0); cbn [andb orb negb];
    Z.div_mod_to_equations; lia.
Qed.

Lemma days_before_year_mono y1 y2 :
  y1 <= y2 -> days_before_year y1 <= days_before_year y2.
Proof. unfold days_before_year. cbv zeta. intros. Z.div_mod_to_equations. lia. Qed.

(** The day of the year of a well-formed date. *)
Lemma day_of_year_bounds d :
  wf d -> 1 <= days_before_month (year d) (month d) + day d <= year_length (year d).
Proof.
  intros (Hy & Hm & Hd).
  pose proof (days_before_month_mono (year d) 1 (month d) ltac:(lia) ltac:(lia) ltac:(lia)) as H0.
  change (days_before_month (year d) 1) with 0 in H0.
  pose proof (days_before_month_mono (year d) (month d + 1) 13 ltac:(lia) ltac:(lia) ltac:(lia)) as H1.
  rewrite days_before_month_next, days_before_month_13 in H1 by lia. lia.
Qed.

(** [toordinal] orders well-formed dates as the calendar does. *)
Lemma toordinal_lt d1 d2 :
  wf d1 -> wf d2 -> date_key d1 < date_key d2 -> toordinal d1 < toordinal d2.
Proof.
  intros W1 W2 Hlt.
  pose proof (day_of_year_bounds d1 W1) as B1.
  pose proof (day_of_year_bounds d2 W2) as B2.
  destruct W1 as (Hy1 & Hm1 & Hd1), W2 as (Hy2 & Hm2 & Hd2).
  pose proof (days_in_month_bounds (year d1) (month d1)).
  pose proof (days_in_month_bounds (year d2) (month d2)).
  unfold date_key in Hlt. unfold toordinal.
  destruct (Z.lt_trichotomy (year d1) (year d2)) as [Hy|[Hy|Hy]]; [| |lia].
  - pose proof (days_before_year_mono (year d1 + 1) (year d2) ltac:(lia)) as Hmono.
    rewrite days_before_year_next in Hmono. lia.
  - rewrite Hy in *.
    destruct (Z.lt_trichotomy (month d1) (month d2)) as [Hm|[Hm|Hm]]; [| |lia].
    + pose proof (days_before_month_mono (year d2) (month d1 + 1) (month d2)
                    ltac:(lia) ltac:(lia) ltac:(lia)) as Hmono.
      rewrite days_before_month_next in Hmono by lia. lia.
    + rewrite Hm in *. lia.
Qed.

Lemma toordinal_le_iff d1 d2 :
  wf d1 -> wf d2 -> (date_key d1 <= date_key d2 <-> toordinal d1 <= toordinal d2).
Proof.
  intros W1 W2. split; intros Hle.
  - destruct (Z.eq_dec (date_key d1) (date_key d2)) as [Heq|Hne].
    + assert (d1 = d2) as ->; [|lia].
      destruct W1 as (Hy1 & Hm1 & Hd1), W2 as (Hy2 & Hm2 & Hd2).
      pose proof (days_in_month_bounds (year d1) (month d1)).
      pose proof (days_in_month_bounds (year d2) (month d2)).
      unfold date_key in Heq. destruct d1, d2; cbn in *. f_equal; lia.
    + pose proof (toordinal_lt d1 d2 W1 W2 ltac:(lia)). lia.
  - destruct (Z.le_gt_cases (date_key d1) (date_key d2)) as [|Hgt]; [assumption|].
    pose proof (toordinal_lt d2 d1 W2 W1 ltac:(lia)). lia.
Qed.

(** [next_day] is the day after. *)
Lemma next_day_spec d :
  wf d -> wf (next_day d) /\ toordinal (next_day d) = toordinal d + 1.
Proof.
  intros (Hy & Hm & Hd). unfold next_day.
  destruct (Z.ltb_spec (day d) (days_in_month (year d) (month d))) as [Hlt|Hge].
  - split; [unfold wf; cbn; lia|]. unfold toordinal. cbn. lia.
  - destruct (Z.ltb_spec (month d) 12) as [Hm12|Hm12].
    + pose proof (days_in_month_bounds (year d) (month d + 1)).
      split; [unfold wf; cbn; lia|]. unfold toordinal. cbn [year month day].
      rewrite days_before_month_next by lia. lia.
    + pose proof (days_in_month_bounds (year d + 1) 1).
      split; [unfold wf; cbn [year month day]; lia|]. unfold toordinal. cbn [year month day].
      rewrite days_before_year_next.
      assert (month d = 12) as Hm' by lia.
      pose proof (days_before_month_next (year d) 12 ltac:(lia)) as H13.
      change (12 + 1) with 13 in H13. rewrite days_before_month_13 in H13.
      rewrite Hm' in *. change (days_before_month (year d + 1) 1) with 0. lia.
Qed.

Lemma iter_next_day_spec n d :
  wf d -> wf (Nat.iter n next_day d) /\
          toordinal (Nat.iter n next_day d) = toordinal d + Z.of_nat n.
Proof.
  intros W. induction n as [|n [IHw IHo]].
  - cbn. split; [exact W|lia].
  - rewrite Nat.iter_succ. destruct (next_day_spec _ IHw) as [W' O']. split; [exact W'|lia].
Qed.

(** [d + timedelta(days=n)] *)
Lemma add_days_spec n d r :
  wf d -> add_days n d = Some r ->
  valid r = true /\ toordinal r = toordinal d + Z.of_nat n.
Proof.
  intros W. unfold add_days.
  destruct (iter_next_day_spec n d W) as [W' O'].
  destruct (Z.leb_spec (year (Nat.iter n next_day d)) 9999); [|discriminate].
  intros [= <-]. split; [|exact O']. apply valid_wf. split; assumption.
Qed.

(** *** The order of formatted dates *)

Lemma code_digit n : code (digit n) = (48 + Z.to_N (n mod 10))%N.
Proof.
  unfold code, digit. apply N_ascii_embedding.
  pose proof (Z.mod_pos_bound n 10 ltac:(lia)). lia.
Qed.

Lemma str_le_digit a b s t :
  str_le (String (digit a) s) (String (digit b) t)
  = if a mod 10 <? b mod 10 then true
    else if b mod 10 <? a mod 10 then false
    else str_le s t.
Proof.
  cbn [str_le]. rewrite !code_digit.
  pose proof (Z.mod_pos_bound a 10 ltac:(lia)).
  pose proof (Z.mod_pos_bound b 10 ltac:(lia)).
  destruct (N.ltb_spec (48 + Z.to_N (a mod 10)) (48 + Z.to_N (b mod 10)));
    destruct (Z.ltb_spec (a mod 10) (b mod 10)); try lia; try reflexivity.
  destruct (N.ltb_spec (48 + Z.to_N (b mod 10)) (48 + Z.to_N (a mod 10)));
    destruct (Z.ltb_spec (b mod 10) (a mod 10)); try lia; reflexivity.
Qed.

Lemma str_le_same c s t : str_le (String c s) (String c t) = str_le s t.
Proof. cbn [str_le]. rewrite N.ltb_irrefl. reflexivity. Qed.

Lemma year_str_four_digits y : 1000 <= y -> year_str y = pad4 y.
Proof.
  intros Hy. unfold year_str.
  destruct (Z.ltb_spec y 10); [lia|]. destruct (Z.ltb_spec y 100); [lia|].
  destruct (Z.ltb_spec y 1000); [lia|]. reflexivity.
Qed.

(** Formatted dates of years of four digits compare as the dates do. *)
Lemma str_le_strftime d1 d2 :
  valid d1 = true -> valid d2 = true -> 1000 <= year d1 -> 1000 <= year d2 ->
  (str_le (strftime d1) (strftime d2) = true <-> date_key d1 <= date_key d2).
Proof.
  rewrite !valid_wf. intros [(Hy1 & Hm1 & Hd1) Hy1'] [(Hy2 & Hm2 & Hd2) Hy2'] Hk1 Hk2.
  pose proof (days_in_month_bounds (year d1) (month d1)).
  pose proof (days_in_month_bounds (year d2) (month d2)).
  unfold strftime. rewrite !year_str_four_digits by assumption.
  unfold pad4, pad2, date_key. cbv [String.append].
  rewrite !str_le_digit, str_le_same, !str_le_digit, str_le_same, !str_le_digit.
  cbn [str_le].
  repeat match goal with
         | |- context [?a <? ?b] => destruct (Z.ltb_spec a b)
         end; split; intros; try discriminate; try reflexivity;
    Z.div_mod_to_equations; lia.
Qed.

End CalendarSpec.

(** ** Dates of the Holy City Sinner scraper *)

Module HolyCitySinnerSpec.
Import PyStr Calendar Regex HolyCitySinner.

Lemma truthy_strftime d : or_none (Some (strftime d)) = Some (strftime d).
Proof.
  unfold strftime, year_str.
  destruct (year d <? 10); [reflexivity|]. destruct (year d <? 100); [reflexivity|].
  destruct (year d <? 1000); reflexivity.
Qed.

(** The day 365 days after a day of a year of four digits is in such a
    year too. *)
Lemma limit_year today limit :
  valid today = true -> 1000 <= year today -> add_days 365 today = Some limit ->
  valid limit = true /\ toordinal limit = toordinal today + 365 /\ 1000 <= year limit.
Proof.
  intros Vt Ht Hlimit. apply CalendarSpec.valid_wf in Vt as Wt. destruct Wt as [Wt _].
  destruct (CalendarSpec.add_days_spec 365 today limit Wt Hlimit) as [Vl Ol].
  split; [exact Vl|]. split; [exact Ol|].
  apply CalendarSpec.valid_wf in Vl as Wl. destruct Wl as [Wl _].
  destruct (Z.le_gt_cases 1000 (year limit)) as [|Hlt]; [assumption|].
  assert (Hkey : date_key limit < date_key today).
  { destruct Wt as (_ & Hm & Hd), Wl as (_ & Hm' & Hd').
    pose proof (CalendarSpec.days_in_month_bounds (year today) (month today)).
    pose proof (CalendarSpec.days_in_month_bounds (year limit) (month limit)).
    unfold date_key. lia. }
  pose proof (CalendarSpec.toordinal_lt limit today Wl Wt Hkey). lia.
Qed.

(** The final filter keeps a dated event of a year of four digits when its
    date is at most 365 days after [today]. *)
Lemma keeps_dated today limit d e :
  valid today = true -> valid d = true ->
  1000 <= year today -> 1000 <= year d ->
  add_days 365 today = Some limit ->
  get_Date e = Some (strftime d) ->
  keeps (strftime limit) e = true <-> toordinal d <= toordinal today + 365.
Proof.
  intros Vt Vd Ht Hd Hlimit He. unfold keeps. rewrite He, truthy_strftime.
  destruct (limit_year today limit Vt Ht Hlimit) as (Vl & Ol & Hl).
  rewrite (CalendarSpec.str_le_strftime d limit Vd Vl Hd Hl).
  apply CalendarSpec.valid_wf in Vd as [Wd _]. apply CalendarSpec.valid_wf in Vl as [Wl _].
  rewrite (CalendarSpec.toordinal_le_iff d limit Wd Wl). rewrite Ol. lia.
Qed.

(** C8 (counterexample).  On September 1, 2024, the text "March 3, 0500"
    is resolved to March 3 of the year 501, which [strftime] prints as
    "501-03-03".  The date lies long before today + 365 days, but the final
    filter of [get_all_events] compares the printed dates as text, and
    "501-03-03" comes after "2025-09-01": the event is excluded. *)
Lemma C8_counterexample :
  map get_Date (HolyCitySinnerText._extract_events_from_text Examples.sep_1_2024
                  Examples.old_text Examples.market_url)
  = [Some (strftime Examples.mar_3_501)] /\
  strftime Examples.mar_3_501 = "501-03-03"%string /\
  valid Examples.mar_3_501 = true /\
  toordinal Examples.mar_3_501 <= toordinal Examples.sep_1_2024 + 365 /\
  get_all_events Examples.sep_1_2024 []
    (HolyCitySinnerText._extract_events_from_text Examples.sep_1_2024
       Examples.old_text Examples.market_url) []
  = Some [].
Proof.
  split; [vm_compute; reflexivity|]. split; [vm_compute; reflexivity|].
  split; [reflexivity|]. split; [apply Z.leb_le; vm_compute; reflexivity|].
  vm_compute. reflexivity.
Qed.

(** C8 (amended).  The final filter of [get_all_events] compares the
    printed date of an event, as text, with the printed date of today + 365
    days.  When today and the resolved date of the event are in years of
    four digits (1000 to 9999), the text order is the order of the
    calendar: the event is in the list returned exactly when it was
    gathered from one of the pages and its date is at most 365 days after
    today, so that later dates are excluded and dates up to today + 365 days
    are retained. *)
Theorem C8_far_future_rejected today web weekend mobile result e :
  valid today = true -> 1000 <= year today ->
  get_all_events today web weekend mobile = Some result ->
  exists limit,
    add_days 365 today = Some limit /\
    valid limit = true /\ toordinal limit = toordinal today + 365 /\
    (forall event_date, or_none (get_Date e) = Some event_date ->
       (e ∈ result <->
        e ∈ gather_events web weekend mobile /\
        str_le event_date (strftime limit) = true)) /\
    (forall d, valid d = true -> 1000 <= year d -> get_Date e = Some (strftime d) ->
       (e ∈ result <->
        e ∈ gather_events web weekend mobile /\ toordinal d <= toordinal today + 365)).
Proof.
  intros Vt Ht. unfold get_all_events.
  destruct (add_days 365 today) as [limit|] eqn:Hlimit; [|discriminate].
  intros [= <-]. exists limit.
  destruct (limit_year today limit Vt Ht Hlimit) as (Vl & Ol & _).
  split; [reflexivity|]. split; [exact Vl|]. split; [exact Ol|]. split.
  - intros event_date He. rewrite !list_elem_of_In, filter_In.
    unfold keeps. rewrite He. reflexivity.
  - intros d Vd Hd He. rewrite <- (keeps_dated today limit d e Vt Vd Ht Hd Hlimit He).
    rewrite !list_elem_of_In, filter_In. reflexivity.
Qed.

Lemma C8_far_future_rejected_witness :
  Examples.next_year_event ∈ [Examples.next_year_event] <->
  Examples.next_year_event ∈ gather_events [Examples.next_year_event] [] [] /\
  toordinal Examples.sep_1_2025 <= toordinal Examples.sep_1_2024 + 365.
Proof.
  destruct (C8_far_future_rejected Examples.sep_1_2024 [Examples.next_year_event] [] []
              [Examples.next_year_event] Examples.next_year_event
              eq_refl ltac:(cbn; lia) eq_refl)
    as (limit & _ & _ & _ & _ & Hcalendar).
  apply (Hcalendar Examples.sep_1_2025); [reflexivity|cbn; lia|reflexivity].
Defined.

(** *** Year roll-over *)

(** [_extract_events_from_text] moves a date that lies more than 180 days
    back to the next year, when that date exists. *)
Lemma resolve_match_rolls_forward now month_name day_str m g0 d d' :
  month_of_name month_name = Some m ->
  make_date (year now) m (int_of_digits day_str) = Some d ->
  180 < days_between now d ->
  replace_year d (year d + 1) = Some d' ->
  resolve_match now {| group0 := g0; groups := [Some month_name; Some day_str; None] |}
  = Some (strftime d').
Proof.
  intros Hm Hd Hold Hd'. unfold resolve_match. cbn [groups or_none].
  rewrite Hm, Hd. destruct (Z.ltb_spec 180 (days_between now d)); [|lia].
  rewrite Hd'. reflexivity.
Qed.

Lemma resolve_match_keeps_recent now month_name day_str m g0 d :
  month_of_name month_name = Some m ->
  make_date (year now) m (int_of_digits day_str) = Some d ->
  days_between now d <= 180 ->
  resolve_match now {| group0 := g0; groups := [Some month_name; Some day_str; None] |}
  = Some (strftime d).
Proof.
  intros Hm Hd Hold. unfold resolve_match. cbn [groups or_none].
  rewrite Hm, Hd. destruct (Z.ltb_spec 180 (days_between now d)); [lia|]. reflexivity.
Qed.

(** C6 (failing input).  On September 1, 2024, March 3 of the current year
    lies 182 days back.  [_extract_events_from_text] resolves the text
    "March 3" to 2025-03-03, but [scrape_event] gives an event page whose
    description says "March 3" the date 2024-03-03: its branch for a missing
    year has no roll-over.  And where the roll-over of
    [_extract_events_from_text] meets February 29, the date is dropped. *)
Theorem C6_scrape_event_keeps_stale_year :
  days_between Examples.sep_1_2024 {| year := 2024; month := 3; day := 3 |} = 182 /\
  text_date_strs Examples.sep_1_2024 "March 3" = [Some "2025-03-03"%string] /\
  scrape_event_date 2024 Examples.market_url (Some "March 3"%string)
  = Some "2024-03-03"%string /\
  text_date_strs Examples.sep_1_2024 "February 29" = [None].
Proof. vm_compute. repeat split; reflexivity. Qed.

(** *** Events without a date *)

Lemma first_match_none description :
  Forall (fun p => search true 3 p description = None) date_patterns ->
  first_match date_patterns description = None.
Proof.
  unfold date_patterns. intros H.
  repeat (apply Forall_cons in H; destruct H as [?H H]).
  cbn [first_match]. repeat match goal with Hs : search _ _ _ _ = None |- _ => rewrite Hs; clear Hs end.
  reflexivity.
Qed.

(** Every event of the final list has a date. *)
Lemma get_all_events_dated today web weekend mobile result e :
  get_all_events today web weekend mobile = Some result ->
  e ∈ result -> exists event_date, or_none (get_Date e) = Some event_date.
Proof.
  unfold get_all_events. destruct (add_days 365 today); [|discriminate].
  intros [= <-] Hin. apply list_elem_of_In, filter_In in Hin. destruct Hin as [_ Hk].
  unfold keeps in Hk. destruct (or_none (get_Date e)); [eauto|discriminate].
Qed.

(** C2 (counterexample).  The description holds no date: the extraction
    gives no date, and the event does not proceed: [scrape_event] returns
    no event, and the final filter of [get_all_events] drops an event
    without a date. *)
Lemma C2_counterexample :
  scrape_event_date 2024 Examples.market_url
    (Some "Live music on the patio all weekend"%string) = None /\
  scrape_event 2024 Examples.market_url (Some "Patio Music"%string)
    (Some "Live music on the patio all weekend"%string) None None None = None /\
  get_all_events Examples.sep_1_2024 [Examples.undated_event] [] [] = Some [].
Proof. vm_compute. repeat split; reflexivity. Qed.

(** C2 (amended).  When the URL carries no date and none of the date
    patterns matches the description, the extraction gives no date and
    does not raise; a text without a match of the month-day pattern gives
    [_extract_events_from_text] no date either.  The importer would admit
    a named record without a date, but the scraper never hands it one:
    [scrape_event] returns no event for such a page, and the list
    [get_all_events] returns holds only events with a date. *)
Theorem C2_undated_event_is_dropped current_year event_url description
        name location image_url time_text :
  url_date event_url = None ->
  Forall (fun p => search true 3 p description = None) date_patterns ->
  scrape_event_date current_year event_url (Some description) = None /\
  scrape_event current_year event_url name (Some description) location image_url time_text
  = None /\
  (forall now, finditer 3 pat_month_day description = [] ->
               text_date_strs now description = []) /\
  (forall today web weekend mobile result e,
     get_all_events today web weekend mobile = Some result ->
     e ∈ result -> exists event_date, or_none (get_Date e) = Some event_date) /\
  (forall self db scraper e event_name,
     or_none (get_Name e) = Some event_name -> or_none (get_Date e) = None ->
     (event_name, None) ∉ EventImporter.stored_keys db ->
     exists self' r,
       EventImporter.import_events_from_scraper self db scraper [e]
       = Some (self', {| EventImporter.events := EventImporter.events db ++ [r];
                         EventImporter.db_businesses := EventImporter.db_businesses db |}) /\
       EventImporter.imported_count self' = 1 /\
       EventImporter.row_name r = event_name /\ EventImporter.row_date r = None).
Proof.
  intros Hurl Hpat.
  assert (Hdate : scrape_event_date current_year event_url (Some description) = None).
  { unfold scrape_event_date. rewrite Hurl. cbn [or_none].
    destruct (truthy description); [|reflexivity].
    by rewrite (first_match_none description Hpat). }
  split; [exact Hdate|]. split; [|split; [|split]].
  - unfold scrape_event. rewrite Hdate. cbn [or_none]. destruct (or_none name); reflexivity.
  - intros now Hnone. unfold text_date_strs. rewrite Hnone. reflexivity.
  - apply get_all_events_dated.
  - intros self db scraper e event_name. apply EventImporterSpec.undated_event_admitted.
Qed.

Lemma C2_undated_event_is_dropped_witness :
  scrape_event_date 2024 Examples.market_url
    (Some "Live music on the patio all weekend"%string) = None /\
  scrape_event 2024 Examples.market_url (Some "Patio Music"%string)
    (Some "Live music on the patio all weekend"%string) None None None = None.
Proof.
  destruct (C2_undated_event_is_dropped 2024 Examples.market_url
              "Live music on the patio all weekend"%string
              (Some "Patio Music"%string) None None None) as (H1 & H2 & _).
  - vm_compute. reflexivity.
  - repeat constructor.
  - split; [exact H1|exact H2].
Defined.

End HolyCitySinnerSpec.

(** ** The lookup tables of [load_existing_data] *)

Module IndexSpec.
Import PyStr EventImporter EventImporterSources.

Section ODictFacts.
Context {K V : Type} `{EqDecision K}.

Lemma odict_set_elem (k k' : K) (v v' : V) (d : ODict.odict K V) :
  (k', v') ∈ ODict.set k v d -> (k', v') = (k, v) \/ (k', v') ∈ d.
Proof.
  induction d as [|[k0 v0] d IH]; cbn.
  - intros Hin. apply list_elem_of_singleton in Hin. by left.
  - destruct (decide (k = k0)) as [->|Hne]; intros Hin;
      apply elem_of_cons in Hin; destruct Hin as [Heq|Hin].
    + by left.
    + right. by right.
    + right. rewrite Heq. left.
    + destruct (IH Hin) as [?|?]; [by left|right; by right].
Qed.

Lemma odict_get_set_eq (k : K) (v : V) (d : ODict.odict K V) :
  ODict.get k (ODict.set k v d) = Some v.
Proof.
  induction d as [|[k0 v0] d IH]; cbn.
  - destruct (decide (k = k)); [reflexivity|congruence].
  - destruct (decide (k = k0)) as [->|Hne]; cbn.
    + destruct (decide (k0 = k0)); [reflexivity|congruence].
    + destruct (decide (k = k0)); [congruence|exact IH].
Qed.

Lemma odict_get_set_ne (k k' : K) (v : V) (d : ODict.odict K V) :
  k' <> k -> ODict.get k' (ODict.set k v d) = ODict.get k' d.
Proof.
  intros Hne. induction d as [|[k0 v0] d IH]; cbn.
  - destruct (decide (k' = k)); [congruence|reflexivity].
  - destruct (decide (k = k0)) as [->|Hne0]; cbn.
    + destruct (decide (k' = k0)); [congruence|reflexivity].
    + destruct (decide (k' = k0)); [reflexivity|exact IH].
Qed.

Lemma odict_set_keys_nodup (k : K) (v : V) (d : ODict.odict K V) :
  NoDup (map fst d) -> NoDup (map fst (ODict.set k v d)).
Proof.
  induction d as [|[k0 v0] d IH]; cbn; intros Hnd.
  - constructor; [apply not_elem_of_nil|constructor].
  - apply NoDup_cons in Hnd. destruct Hnd as [Hk0 Hnd].
    destruct (decide (k = k0)) as [->|Hne]; cbn.
    + apply NoDup_cons. split; assumption.
    + apply NoDup_cons. split; [|apply IH, Hnd].
      intros Hin. apply list_elem_of_fmap in Hin. destruct Hin as ([k1 v1] & Hk1 & Hin).
      cbn in Hk1. subst k1. apply odict_set_elem in Hin. destruct Hin as [[= -> _]|Hin].
      * congruence.
      * apply Hk0. apply list_elem_of_fmap. exists (k0, v1). split; [reflexivity|exact Hin].
Qed.

Lemma odict_get_elem (k : K) (v : V) (d : ODict.odict K V) :
  ODict.get k d = Some v -> (k, v) ∈ d.
Proof.
  induction d as [|[k0 v0] d IH]; cbn; [discriminate|].
  destruct (decide (k = k0)) as [->|Hne].
  - intros [= ->]. left.
  - intros Hg. right. by apply IH.
Qed.

End ODictFacts.

(** *** The table by location *)

Lemma build_by_location_snoc bs b :
  build_by_location (bs ++ [b]) = location_step (build_by_location bs) b.
Proof. unfold build_by_location. rewrite fold_left_app. reflexivity. Qed.

Lemma build_by_location_sound bs : forall k b,
  build_by_location bs !! k = Some b ->
  exists name loc, (b, name, Some loc) ∈ bs /\ truthy loc = true /\ lower loc = k.
Proof.
  induction bs as [|[[b0 n0] l0] bs IH] using rev_ind; intros k b.
  - unfold build_by_location. cbn. rewrite lookup_empty. discriminate.
  - rewrite build_by_location_snoc. unfold location_step.
    assert (Hold : build_by_location bs !! k = Some b ->
                   exists name loc, (b, name, Some loc) ∈ bs ++ [(b0, n0, l0)] /\
                                    truthy loc = true /\ lower loc = k).
    { intros Hk. destruct (IH k b Hk) as (name & loc & Hin & Ht & Hl).
      exists name, loc. split; [apply elem_of_app; by left|]. by split. }
    destruct l0 as [l|]; cbn [or_none]; [|exact Hold].
    destruct (truthy l) eqn:Ht; [|exact Hold].
    destruct (decide (lower l = k)) as [<-|Hne].
    + rewrite lookup_insert_eq. intros [= <-]. exists n0, l.
      split; [apply elem_of_app; right; left|]. by split.
    + rewrite lookup_insert_ne by exact Hne. exact Hold.
Qed.

Lemma build_by_location_last pre post b name loc :
  truthy loc = true ->
  Forall (fun b' => forall l', or_none (snd b') = Some l' -> lower l' <> lower loc) post ->
  build_by_location (pre ++ (b, name, Some loc) :: post) !! lower loc = Some b.
Proof.
  intros Ht. induction post as [|[[b1 n1] l1] post IH] using rev_ind; intros Hpost.
  - rewrite build_by_location_snoc. unfold location_step. cbn [or_none]. rewrite Ht.
    apply lookup_insert_eq.
  - apply Forall_app in Hpost. destruct Hpost as [Hpost Hlast].
    apply Forall_cons in Hlast. destruct Hlast as [Hlast _]. cbn [snd] in Hlast.
    rewrite app_comm_cons, app_assoc, build_by_location_snoc. unfold location_step.
    destruct (or_none l1) as [l|] eqn:Hl1; [|by apply IH].
    rewrite lookup_insert_ne by (by apply Hlast). by apply IH.
Qed.

(** *** The table by name *)

Lemma build_by_name_snoc bs b :
  build_by_name (bs ++ [b]) = name_step (build_by_name bs) b.
Proof. unfold build_by_name. rewrite fold_left_app. reflexivity. Qed.

Lemma build_by_name_sound bs : forall k b,
  (k, b) ∈ build_by_name bs ->
  exists name loc, (b, name, loc) ∈ bs /\ truthy name = true /\ lower name = k.
Proof.
  induction bs as [|[[b0 n0] l0] bs IH] using rev_ind; intros k b.
  - intros Hin. by apply elem_of_nil in Hin.
  - rewrite build_by_name_snoc. unfold name_step.
    assert (Hold : (k, b) ∈ build_by_name bs ->
                   exists name loc, (b, name, loc) ∈ bs ++ [(b0, n0, l0)] /\
                                    truthy name = true /\ lower name = k).
    { intros Hk. destruct (IH k b Hk) as (name & loc & Hin & Ht & Hl).
      exists name, loc. split; [apply elem_of_app; by left|]. by split. }
    destruct (truthy n0) eqn:Ht; [|exact Hold].
    intros Hin. apply odict_set_elem in Hin. destruct Hin as [[= -> ->]|Hin]; [|by apply Hold].
    exists n0, l0. split; [apply elem_of_app; right; left|]. by split.
Qed.

Lemma build_by_name_keys bs : NoDup (map fst (build_by_name bs)).
Proof.
  induction bs as [|[[b0 n0] l0] bs IH] using rev_ind; [constructor|].
  rewrite build_by_name_snoc. unfold name_step.
  destruct (truthy n0); [by apply odict_set_keys_nodup|exact IH].
Qed.

Lemma build_by_name_last pre post b name loc :
  truthy name = true ->
  Forall (fun b' => truthy (snd (fst b')) = true -> lower (snd (fst b')) <> lower name) post ->
  ODict.get (lower name) (build_by_name (pre ++ (b, name, loc) :: post)) = Some b.
Proof.
  intros Ht. induction post as [|[[b1 n1] l1] post IH] using rev_ind; intros Hpost.
  - rewrite build_by_name_snoc. unfold name_step. rewrite Ht. apply odict_get_set_eq.
  - apply Forall_app in Hpost. destruct Hpost as [Hpost Hlast].
    apply Forall_cons in Hlast. destruct Hlast as [Hlast _]. cbn [fst snd] in Hlast.
    rewrite app_comm_cons, app_assoc, build_by_name_snoc. unfold name_step.
    destruct (truthy n1) eqn:Hn1; [|by apply IH].
    rewrite odict_get_set_ne by (intros Heq; by apply Hlast). by apply IH.
Qed.

Lemma first_name_in_sound names text b :
  first_name_in names text = Some b ->
  exists k, (k, b) ∈ names /\ contains k text = true.
Proof.
  induction names as [|[k0 b0] names IH]; cbn; [discriminate|].
  destruct (contains k0 text) eqn:Hc.
  - intros [= <-]. exists k0. split; [left|exact Hc].
  - intros Hf. destruct (IH Hf) as (k & Hin & Hk). exists k. split; [by right|exact Hk].
Qed.

(** *** The keyword index *)

Lemma add_keyword_lookup b kw w w' :
  add_keyword b kw w !! w'
  = if decide (w = w') then Some (default [] (kw !! w) ++ [b]) else kw !! w'.
Proof.
  unfold add_keyword. destruct (decide (w = w')) as [->|Hne].
  - apply lookup_insert_eq.
  - by apply lookup_insert_ne.
Qed.

Lemma build_keywords_snoc bs b :
  build_keywords (bs ++ [b]) = keyword_step (build_keywords bs) b.
Proof. unfold build_keywords. rewrite fold_left_app. reflexivity. Qed.

(** What the inner loop over the words of one name does to the list of a
    word. *)
Lemma add_keywords_lookup b words : forall kw w,
  exists extra,
    default [] (fold_left (add_keyword b) words kw !! w) = default [] (kw !! w) ++ extra /\
    (forall x, x ∈ extra -> x = b /\ In w words) /\
    (In w words -> b ∈ extra) /\
    (fold_left (add_keyword b) words kw !! w = None <-> kw !! w = None /\ ~ In w words).
Proof.
  induction words as [|w0 words IH]; intros kw w; cbn [fold_left].
  - exists []. rewrite app_nil_r. split; [reflexivity|]. split; [|split].
    + intros x Hx. by apply elem_of_nil in Hx.
    + intros [].
    + cbn. tauto.
  - destruct (IH (add_keyword b kw w0) w) as (extra & Heq & Hsound & Hcompl & Hnone).
    rewrite add_keyword_lookup in Heq, Hnone.
    destruct (decide (w0 = w)) as [->|Hne].
    + exists (b :: extra). cbn [default] in Heq. change (id ?x) with x in Heq.
      rewrite Heq, <- app_assoc. split; [reflexivity|]. split; [|split].
      * intros x Hx. apply elem_of_cons in Hx. destruct Hx as [->|Hx].
        -- split; [reflexivity|by left].
        -- destruct (Hsound x Hx). split; [assumption|by right].
      * intros _. left.
      * split; [intros H; apply Hnone in H; destruct H; discriminate|].
        intros [_ Hn]. exfalso. apply Hn. by left.
    + exists extra. split; [exact Heq|]. split; [|split].
      * intros x Hx. destruct (Hsound x Hx). split; [assumption|by right].
      * intros [Hw|Hw]; [congruence|by apply Hcompl].
      * rewrite Hnone. cbn. intuition congruence.
Qed.

Lemma keywords_of_long name w : In w (keywords_of name) -> 3 < len w.
Proof.
  unfold keywords_of. intros Hin. apply filter_In in Hin. destruct Hin as [_ H].
  by apply Z.ltb_lt.
Qed.

Lemma build_keywords_spec bs : forall w,
  (forall b, b ∈ default [] (build_keywords bs !! w) <-> has_keyword bs w b) /\
  (build_keywords bs !! w = None <-> forall b, ~ has_keyword bs w b).
Proof.
  induction bs as [|[[b0 n0] l0] bs IH] using rev_ind; intros w.
  - unfold build_keywords, has_keyword. cbn. rewrite lookup_empty. cbn. split.
    + intros b. split; [intros H; by apply elem_of_nil in H|].
      intros (name & loc & Hin & _). by apply elem_of_nil in Hin.
    + split; [|reflexivity]. intros _ b (name & loc & Hin & _). by apply elem_of_nil in Hin.
  - rewrite build_keywords_snoc. unfold keyword_step.
    destruct (IH w) as [IHin IHnone].
    assert (Hmono : forall b, has_keyword bs w b -> has_keyword (bs ++ [(b0, n0, l0)]) w b).
    { intros b (name & loc & Hin & Ht & Hw). exists name, loc.
      split; [apply elem_of_app; by left|]. by split. }
    assert (Hinv : forall b, has_keyword (bs ++ [(b0, n0, l0)]) w b ->
                             has_keyword bs w b \/
                             (b = b0 /\ truthy n0 = true /\ In w (keywords_of n0))).
    { intros b (name & loc & Hin & Ht & Hw). apply elem_of_app in Hin.
      destruct Hin as [Hin|Hin].
      - left. exists name, loc. by repeat split.
      - apply list_elem_of_singleton in Hin. injection Hin as -> -> ->. by right. }
    destruct (truthy n0) eqn:Ht.
    + destruct (add_keywords_lookup b0 (keywords_of n0) (build_keywords bs) w)
        as (extra & Heq & Hsound & Hcompl & Hnone).
      split.
      * intros b. rewrite Heq, elem_of_app, IHin. split.
        -- intros [Hb|Hb]; [by apply Hmono|].
           destruct (Hsound b Hb) as [-> Hw]. exists n0, l0.
           split; [apply elem_of_app; right; left|]. by split.
        -- intros Hb. destruct (Hinv b Hb) as [?|(-> & _ & Hw)]; [by left|].
           right. by apply Hcompl.
      * rewrite Hnone, IHnone. split.
        -- intros [Hn Hw] b Hb. destruct (Hinv b Hb) as [?|(_ & _ & ?)]; [by eapply Hn|tauto].
        -- intros Hn. split.
           ++ intros b Hb. apply (Hn b). by apply Hmono.
           ++ intros Hw. apply (Hn b0). exists n0, l0.
              split; [apply elem_of_app; right; left|]. by split.
    + split.
      * intros b. rewrite IHin. split; [apply Hmono|].
        intros Hb. destruct (Hinv b Hb) as [?|(_ & ? & _)]; [assumption|discriminate].
      * rewrite IHnone. split.
        -- intros Hn b Hb. destruct (Hinv b Hb) as [?|(_ & ? & _)]; [by eapply Hn|discriminate].
        -- intros Hn b Hb. apply (Hn b). by apply Hmono.
Qed.

(** *** The tables of a loaded importer *)

(** The table by location maps the lowercased location of a business to
    the id of the last business of the catalog at that location, and
    holds nothing else. *)
Theorem location_table_last_write_wins db self0 :
  let self := load_existing_data db self0 in
  (forall k b, business_by_location self !! k = Some b ->
     exists name loc, (b, name, Some loc) ∈ db_businesses db /\
                      truthy loc = true /\ lower loc = k) /\
  (forall pre post b name loc,
     db_businesses db = pre ++ (b, name, Some loc) :: post ->
     truthy loc = true ->
     Forall (fun b' => forall l', or_none (snd b') = Some l' -> lower l' <> lower loc) post ->
     business_by_location self !! lower loc = Some b).
Proof.
  cbn. split.
  - apply build_by_location_sound.
  - intros pre post b name loc ->. apply build_by_location_last.
Qed.

Lemma location_table_last_write_wins_witness :
  business_by_location Examples.harbor_importer !! lower "182 East Bay St" = Some 1.
Proof.
  apply (proj2 (location_table_last_write_wins
                  {| events := []; db_businesses := Examples.harbor_catalog |} init)
               [(0, "Harbor Cafe"%string, Some "123 Main St"%string)] [] 1
               "Gin Joint"%string "182 East Bay St"%string).
  - reflexivity.
  - reflexivity.
  - constructor.
Defined.

(** The table by name has one entry per lowercased name, each entry comes
    from a business of the catalog, and a name is mapped to the id of the
    last business of that name. *)
Theorem name_table_last_write_wins db self0 :
  let self := load_existing_data db self0 in
  NoDup (map fst (business_by_name self)) /\
  (forall k b, (k, b) ∈ business_by_name self ->
     exists name loc, (b, name, loc) ∈ db_businesses db /\
                      truthy name = true /\ lower name = k) /\
  (forall pre post b name loc,
     db_businesses db = pre ++ (b, name, loc) :: post ->
     truthy name = true ->
     Forall (fun b' => truthy (snd (fst b')) = true ->
                       lower (snd (fst b')) <> lower name) post ->
     ODict.get (lower name) (business_by_name self) = Some b).
Proof.
  cbn. split; [apply build_by_name_keys|]. split.
  - apply build_by_name_sound.
  - intros pre post b name loc ->. apply build_by_name_last.
Qed.

Lemma name_table_last_write_wins_witness :
  ODict.get (lower "Harbor Cafe") (business_by_name Examples.harbor_importer) = Some 0.
Proof.
  apply (proj2 (proj2 (name_table_last_write_wins
                  {| events := []; db_businesses := Examples.harbor_catalog |} init))
               [] [(1, "Gin Joint"%string, Some "182 East Bay St"%string)] 0
               "Harbor Cafe"%string (Some "123 Main St"%string)).
  - reflexivity.
  - reflexivity.
  - repeat constructor. cbn. intros _ Heq. discriminate Heq.
Defined.

(** A business is listed under a word of the keyword index exactly when
    the word is one of the keywords of its name, and no word of three
    characters or less is in the index. *)
Theorem keyword_index_membership db self0 w :
  let self := load_existing_data db self0 in
  (forall b, b ∈ default [] (business_keywords self !! w)
             <-> has_keyword (db_businesses db) w b) /\
  (len w <= 3 -> business_keywords self !! w = None).
Proof.
  cbn. destruct (build_keywords_spec (db_businesses db) w) as [Hin Hnone].
  split; [exact Hin|]. intros Hshort. apply Hnone.
  intros b (name & loc & _ & _ & Hw). apply keywords_of_long in Hw. lia.
Qed.

Lemma keyword_index_membership_witness :
  business_keywords Examples.harbor_importer !! "gin"%string = None.
Proof.
  apply (proj2 (keyword_index_membership
                  {| events := []; db_businesses := Examples.harbor_catalog |} init
                  "gin"%string)).
  apply Z.leb_le. reflexivity.
Defined.

(** *** The matcher returns businesses of the catalog *)

Lemma catalog_id_of_member bs b name loc :
  (b, name, loc) ∈ bs -> b ∈ business_ids bs.
Proof.
  intros Hin. unfold business_ids. apply list_elem_of_fmap.
  exists (b, name, loc). split; [reflexivity|exact Hin].
Qed.

Lemma bump_keys_sound (P : Z -> Prop) weight pm b :
  P b -> (forall k v, (k, v) ∈ pm -> P k) ->
  forall k v, (k, v) ∈ bump weight pm b -> P k.
Proof.
  intros Hb Hpm k v Hin. unfold bump in Hin. apply odict_set_elem in Hin.
  destruct Hin as [[= -> _]|Hin]; [exact Hb|by eapply Hpm].
Qed.

Lemma bump_ids_keys_sound (P : Z -> Prop) weight ids : forall pm,
  (forall b, b ∈ ids -> P b) -> (forall k v, (k, v) ∈ pm -> P k) ->
  forall k v, (k, v) ∈ fold_left (bump weight) ids pm -> P k.
Proof.
  induction ids as [|i ids IH]; intros pm Hids Hpm; cbn [fold_left]; [exact Hpm|].
  apply IH.
  - intros b Hb. apply Hids. by right.
  - apply bump_keys_sound; [apply Hids; left|exact Hpm].
Qed.

Lemma score_words_keys_sound (P : Z -> Prop) kw weight words : forall pm,
  (forall w b, b ∈ default [] (kw !! w) -> P b) ->
  (forall k v, (k, v) ∈ pm -> P k) ->
  forall k v, (k, v) ∈ score_words kw weight pm words -> P k.
Proof.
  unfold score_words.
  induction words as [|w words IH]; intros pm Hkw Hpm; cbn [fold_left]; [exact Hpm|].
  apply IH; [exact Hkw|].
  destruct (kw !! w) as [ids|] eqn:Hw; [|exact Hpm].
  apply bump_ids_keys_sound; [|exact Hpm].
  intros b Hb. apply (Hkw w). rewrite Hw. exact Hb.
Qed.

Lemma keyword_fallback_sound db self0 name loc b :
  keyword_fallback (load_existing_data db self0) name loc = Some b ->
  b ∈ business_ids (db_businesses db).
Proof.
  unfold keyword_fallback.
  destruct (potential_matches _ name loc) as [|x r] eqn:Hpm; [discriminate|].
  destruct (MatcherSpec.max_by_value_spec r x) as [Hin _].
  destruct (2 <=? snd (max_by_value x r)); [|discriminate]. intros [= <-].
  rewrite <- Hpm in Hin. rewrite MatcherSpec.potential_matches_tokens in Hin.
  destruct (max_by_value x r) as [k v]. cbn [fst].
  assert (Hkw : forall w b', b' ∈ default [] (build_keywords (db_businesses db) !! w) ->
                             b' ∈ business_ids (db_businesses db)).
  { intros w b' Hb'. apply (build_keywords_spec (db_businesses db) w) in Hb'.
    destruct Hb' as (n & l & Hmem & _). by eapply catalog_id_of_member. }
  cbn [load_existing_data business_keywords] in Hin.
  eapply (score_words_keys_sound (fun b => b ∈ business_ids (db_businesses db)));
    [exact Hkw| |exact Hin].
  intros k' v' Hin'.
  eapply (score_words_keys_sound (fun b => b ∈ business_ids (db_businesses db)));
    [exact Hkw| |exact Hin'].
  intros k'' v'' Hnil. by apply elem_of_nil in Hnil.
Qed.

Lemma first_name_in_loaded_sound db text b :
  first_name_in (build_by_name (db_businesses db)) text = Some b ->
  b ∈ business_ids (db_businesses db).
Proof.
  intros Hf. apply first_name_in_sound in Hf. destruct Hf as (k & Hin & _).
  apply build_by_name_sound in Hin. destruct Hin as (n & l & Hmem & _).
  by eapply catalog_id_of_member.
Qed.

(** Whatever the event, the id [_find_matching_business] returns is the id
    of a business of the catalog the importer loaded; with an empty catalog
    it returns [None]. *)
Theorem find_matching_returns_catalog_id db self0 name loc :
  (forall b, _find_matching_business (load_existing_data db self0) name loc = Some b ->
             b ∈ business_ids (db_businesses db)) /\
  (db_businesses db = [] ->
   _find_matching_business (load_existing_data db self0) name loc = None).
Proof.
  assert (Hsound : forall b,
            _find_matching_business (load_existing_data db self0) name loc = Some b ->
            b ∈ business_ids (db_businesses db)).
  { set (self := load_existing_data db self0).
    set (ok := fun o : option Z => forall b, o = Some b -> b ∈ business_ids (db_businesses db)).
    assert (H1 : ok (method1 self loc)).
    { intros b. unfold method1. destruct (or_none loc); [|discriminate].
      cbn. intros Hb. apply build_by_location_sound in Hb.
      destruct Hb as (n & l & Hmem & _). by eapply catalog_id_of_member. }
    assert (H2 : forall o, ok o -> ok (method2 self loc o)).
    { intros o Ho b. unfold method2. destruct (or_none loc); [|apply Ho].
      destruct (not_id o); [|apply Ho].
      destruct (first_name_in _ _) eqn:Hf; [|apply Ho].
      intros [= <-]. by eapply first_name_in_loaded_sound. }
    assert (H3 : forall o, ok o -> ok (method3 self name o)).
    { intros o Ho b. unfold method3. destruct (or_none name); [|apply Ho].
      destruct (not_id o); [|apply Ho].
      destruct (first_name_in _ _) eqn:Hf; [|apply Ho].
      intros [= <-]. by eapply first_name_in_loaded_sound. }
    assert (H4 : forall o, ok o -> ok (method4 self name loc o)).
    { intros o Ho b. unfold method4. destruct (not_id o); [|apply Ho].
      destruct (keyword_fallback self name loc) eqn:Hk; [|apply Ho].
      intros [= <-]. by eapply keyword_fallback_sound. }
    intros b. unfold _find_matching_business. apply H4, H3, H2, H1. }
  split; [exact Hsound|].
  intros Hempty.
  destruct (_find_matching_business _ name loc) as [b|] eqn:Hf; [|reflexivity].
  specialize (Hsound b eq_refl). rewrite Hempty in Hsound. by apply elem_of_nil in Hsound.
Qed.

Lemma find_matching_returns_catalog_id_witness :
  1 ∈ business_ids Examples.harbor_catalog.
Proof.
  apply (proj1 (find_matching_returns_catalog_id
                  {| events := []; db_businesses := Examples.harbor_catalog |} init
                  (Some "Gin Joint Party"%string) (Some "123 Main St"%string)) 1).
  vm_compute. reflexivity.
Defined.

End IndexSpec.

(** ** The rows of a run and the runs over all sources *)

Module RunSpec.
Import PyStr EventImporter EventImporterSources.

Lemma find_matching_same_tables self self' name loc :
  same_tables self self' ->
  _find_matching_business self' name loc = _find_matching_business self name loc.
Proof.
  intros (_ & _ & Hn & Hl & Hk).
  unfold _find_matching_business, method1, method2, method3, method4,
    keyword_fallback, potential_matches.
  rewrite Hn, Hl, Hk. reflexivity.
Qed.

Lemma rows_of_same_tables self self' scraper adm : forall first,
  same_tables self self' ->
  rows_of self' scraper first adm = rows_of self scraper first adm.
Proof.
  intros first Hs. revert first.
  induction adm as [|e adm IH]; intros first; cbn [rows_of]; [reflexivity|].
  destruct (or_none (get_Name e)); [|apply IH].
  rewrite IH. f_equal. unfold row_of. f_equal.
  by apply find_matching_same_tables.
Qed.

Lemma process_event_new_row scraper next_id self acc e name d :
  event_key e = Some (name, d) -> (name, d) ∉ existing_events self ->
  let row := row_of self scraper (next_id + imported_count self) name e in
  process_event scraper next_id (self, acc) e
  = (count_import (bool_decide (row_business_id row <> None)) self, acc ++ [row]).
Proof.
  unfold event_key, process_event. destruct (or_none (get_Name e)); [|discriminate].
  intros [= -> <-] Hnew. destruct (decide _); [contradiction|]. reflexivity.
Qed.

Lemma matched_rows_cons r rows :
  Z.of_nat (length (matched_rows (r :: rows)))
  = (if bool_decide (row_business_id r <> None) then 1 else 0)
    + Z.of_nat (length (matched_rows rows)).
Proof.
  unfold matched_rows. cbn [List.filter].
  destruct (bool_decide (row_business_id r <> None)); cbn [length]; lia.
Qed.

(** The loop appends the rows of the new events and counts those with a
    business. *)
Lemma process_events_rows scraper next_id evs : forall self acc,
  let rows := rows_of self scraper (next_id + imported_count self)
                      (List.filter (is_new (existing_events self)) evs) in
  exists self',
    fold_left (process_event scraper next_id) evs (self, acc) = (self', acc ++ rows) /\
    same_tables self self' /\
    imported_count self' = imported_count self + Z.of_nat (length rows) /\
    business_match_count self'
    = business_match_count self + Z.of_nat (length (matched_rows rows)).
Proof.
  induction evs as [|e evs IH]; intros self acc; cbn zeta.
  - exists self. cbn. rewrite app_nil_r. split; [reflexivity|].
    split; [apply EventImporterSpec.same_tables_refl|]. split; lia.
  - cbn [fold_left List.filter].
    destruct (event_key e) as [[name d]|] eqn:Hk.
    + destruct (decide ((name, d) ∈ existing_events self)) as [Hin|Hnin].
      * rewrite (EventImporterSpec.process_event_dup _ _ _ _ _ _ Hk Hin).
        assert (Hnew : is_new (existing_events self) e = false).
        { unfold is_new. rewrite Hk. apply bool_decide_eq_false_2. intros Hc. exact (Hc Hin). }
        rewrite !Hnew.
        destruct (IH (count_duplicate self) acc) as (self' & Hf & Hs & Hi & Hb).
        exists self'. cbn zeta in *.
        cbn [imported_count business_match_count count_duplicate existing_events] in *.
        rewrite (rows_of_same_tables self (count_duplicate self)) in Hf, Hi, Hb
          by (repeat split).
        split; [exact Hf|]. split; [repeat split; apply Hs|]. split; assumption.
      * rewrite (process_event_new_row scraper next_id self acc e name d Hk Hnin).
        assert (Hnew : is_new (existing_events self) e = true).
        { unfold is_new. rewrite Hk. by apply bool_decide_eq_true_2. }
        rewrite !Hnew.
        set (row := row_of self scraper (next_id + imported_count self) name e).
        set (m := bool_decide (row_business_id row <> None)).
        destruct (IH (count_import m self) (acc ++ [row])) as (self' & Hf & Hs & Hi & Hb).
        exists self'. cbn zeta in *.
        cbn [imported_count business_match_count count_import existing_events] in *.
        rewrite (rows_of_same_tables self (count_import m self)) in Hf, Hi, Hb
          by (repeat split).
        assert (Hname : or_none (get_Name e) = Some name).
        { unfold event_key in Hk. destruct (or_none (get_Name e)); [|discriminate].
          by injection Hk as -> _. }
        cbn [rows_of]. rewrite Hname. fold row.
        replace (next_id + imported_count self + 1)
          with (next_id + (imported_count self + 1)) by lia.
        split; [rewrite Hf, <- app_assoc; reflexivity|].
        split; [repeat split; apply Hs|].
        split; [rewrite Hi; cbn [length]; lia|].
        rewrite Hb, matched_rows_cons. fold m. destruct m; lia.
    + rewrite (EventImporterSpec.process_event_skip _ _ _ _ _ Hk).
      assert (Hnew : is_new (existing_events self) e = false)
        by (unfold is_new; rewrite Hk; reflexivity).
      rewrite !Hnew.
      destruct (IH self acc) as (self' & Hf & Hs & Hi & Hb).
      exists self'. split; [exact Hf|]. split; [exact Hs|]. split; assumption.
Qed.

Lemma rows_of_ids self scraper adm : forall first,
  map row_id (rows_of self scraper first adm)
  = ids_from first (length (rows_of self scraper first adm)).
Proof.
  induction adm as [|e adm IH]; intros first; cbn [rows_of]; [reflexivity|].
  destruct (or_none (get_Name e)); [|apply IH].
  cbn [map length]. rewrite EventImporterSpec.ids_from_cons, IH. reflexivity.
Qed.

(** The rows a run stores. *)
Lemma import_run_rows self db scraper evs :
  let rows := rows_of (load_existing_data db init) scraper (next_id_of db)
                      (List.filter (is_new (stored_keys db)) evs) in
  exists self',
    import_events_from_scraper self db scraper evs
      = Some (self', {| events := events db ++ rows; db_businesses := db_businesses db |}) /\
    imported_count self' = Z.of_nat (length rows) /\
    business_match_count self' = Z.of_nat (length (matched_rows rows)).
Proof.
  cbn zeta. unfold import_events_from_scraper.
  destruct evs as [|e evs].
  - exists (reset_statistics self). destruct db. cbn. rewrite app_nil_r. tauto.
  - set (evs' := e :: evs). unfold process_events.
    destruct (process_events_rows scraper (next_id_of db) evs'
                (load_existing_data db (reset_statistics self)) [])
      as (self' & Hf & Hs & Hi & Hb).
    cbn zeta in *.
    change (existing_events (load_existing_data db (reset_statistics self)))
      with (stored_keys db) in *.
    cbn [imported_count business_match_count load_existing_data reset_statistics]
      in Hf, Hi, Hb.
    rewrite Z.add_0_r in Hf, Hi, Hb. rewrite Z.add_0_l in Hi, Hb.
    rewrite (rows_of_same_tables (load_existing_data db init)
               (load_existing_data db (reset_statistics self))) in Hf, Hi, Hb
      by (repeat split).
    rewrite Hf. cbn [app]. exists self'.
    set (rows := rows_of (load_existing_data db init) scraper (next_id_of db)
                         (List.filter (is_new (stored_keys db)) evs')) in *.
    destruct rows as [|r rs] eqn:Hrows.
    + split; [|split; [exact Hi|exact Hb]].
      destruct db. cbn [events db_businesses]. rewrite app_nil_r. reflexivity.
    + rewrite (EventImporterSpec.executemany_insert_fresh (r :: rs) (events db)
                 (next_id_of db) (EventImporterSpec.next_id_fresh db)).
      * split; [reflexivity|]. split; [exact Hi|exact Hb].
      * rewrite <- Hrows. apply rows_of_ids.
Qed.

Lemma rows_of_sound self scraper adm : forall first,
  Forall (fun r => exists e name,
            In e adm /\ or_none (get_Name e) = Some name /\
            r = row_of self scraper (row_id r) name e)
         (rows_of self scraper first adm).
Proof.
  induction adm as [|e adm IH]; intros first; cbn [rows_of]; [constructor|].
  assert (Hrest : forall f,
            Forall (fun r => exists e0 name,
                      In e0 (e :: adm) /\ or_none (get_Name e0) = Some name /\
                      r = row_of self scraper (row_id r) name e0)
                   (rows_of self scraper f adm)).
  { intros f. eapply Forall_impl; [apply IH|]. cbn beta.
    intros r (e0 & name & Hin & Hn & Hr). exists e0, name. split; [by right|]. by split. }
  destruct (or_none (get_Name e)) as [name|] eqn:Hname; [|apply Hrest].
  constructor; [|apply Hrest].
  exists e, name. split; [by left|]. split; [exact Hname|reflexivity].
Qed.

(** The insert on the integers of SQLite is the insert on unbounded ids
    when every id fits, and fails otherwise. *)
Lemma executemany_insert_sqlite_spec rows : forall table,
  executemany_insert_sqlite table rows
  = if forallb (fun r => sqlite_integer (row_id r)) rows
    then executemany_insert table rows else None.
Proof.
  induction rows as [|r rs IH]; intros table;
    cbn [executemany_insert_sqlite executemany_insert forallb]; [reflexivity|].
  destruct (sqlite_integer (row_id r)); cbn [negb andb]; [|reflexivity].
  destruct (existsb _ table); [by destruct (forallb _ rs)|]. apply IH.
Qed.

Lemma import_run_sqlite self db scraper evs :
  let rows := rows_of (load_existing_data db init) scraper (next_id_of db)
                      (List.filter (is_new (stored_keys db)) evs) in
  import_events_from_scraper_sqlite self db scraper evs
  = if forallb (fun r => sqlite_integer (row_id r)) rows
    then import_events_from_scraper self db scraper evs else None.
Proof.
  cbn zeta. unfold import_events_from_scraper_sqlite, import_events_from_scraper.
  destruct evs as [|e evs]; [reflexivity|].
  set (evs' := e :: evs). unfold process_events.
  destruct (process_events_rows scraper (next_id_of db) evs'
              (load_existing_data db (reset_statistics self)) [])
    as (self' & Hf & _). cbn zeta in Hf.
  change (existing_events (load_existing_data db (reset_statistics self)))
    with (stored_keys db) in Hf.
  cbn [imported_count load_existing_data reset_statistics] in Hf.
  rewrite Z.add_0_r in Hf.
  rewrite (rows_of_same_tables (load_existing_data db init)
             (load_existing_data db (reset_statistics self))) in Hf by (repeat split).
  rewrite Hf. cbn [app].
  destruct (rows_of (load_existing_data db init) scraper (next_id_of db)
              (List.filter (is_new (stored_keys db)) evs')) as [|r rs]; [reflexivity|].
  rewrite executemany_insert_sqlite_spec.
  destruct (forallb _ (r :: rs)); reflexivity.
Qed.

Lemma ids_from_fit first n :
  - 2 ^ 63 <= first -> first + Z.of_nat n <= 2 ^ 63 ->
  forallb sqlite_integer (ids_from first n) = true.
Proof.
  intros Hlo Hhi. apply forallb_forall. intros x Hx. unfold ids_from in Hx.
  apply in_map_iff in Hx. destruct Hx as (k & <- & Hk). apply in_seq in Hk.
  unfold sqlite_integer. apply andb_true_iff. split; [apply Z.leb_le|apply Z.ltb_lt]; lia.
Qed.

Lemma forallb_row_ids rows :
  forallb (fun r => sqlite_integer (row_id r)) rows
  = forallb sqlite_integer (map row_id rows).
Proof. induction rows as [|r rs IH]; cbn; [reflexivity|]. by rewrite IH. Qed.

(** A run appends, in the order of the batch, one row for each new event of
    the batch, with the ids that follow the ids of the table: the row holds
    the fields of the event (an empty field as NULL), the name of the
    scraper as source when the event has none, and the business the matcher
    finds for the name and the location of the event.  The run completes,
    keeping the rows that were stored, exactly when each of these ids is an
    integer of SQLite, as they are when the ids of the table are not
    negative and leave room for the batch below 2^63; otherwise the insert
    raises and nothing is stored. *)
Theorem run_appends_the_rows_of_the_new_events self db scraper evs :
  let rows := rows_of (load_existing_data db init) scraper (next_id_of db)
                      (List.filter (is_new (stored_keys db)) evs) in
  let fit := forallb (fun r => sqlite_integer (row_id r)) rows in
  Forall (fun r => exists e name,
            In e evs /\ or_none (get_Name e) = Some name /\
            r = row_of (load_existing_data db init) scraper (row_id r) name e) rows /\
  map row_id rows = ids_from (next_id_of db) (length rows) /\
  (fit = true ->
   exists self',
     import_events_from_scraper_sqlite self db scraper evs
     = Some (self', {| events := events db ++ rows; db_businesses := db_businesses db |})) /\
  (fit = false -> import_events_from_scraper_sqlite self db scraper evs = None) /\
  (- 2 ^ 63 <= next_id_of db -> next_id_of db + Z.of_nat (length rows) <= 2 ^ 63 ->
   fit = true).
Proof.
  cbn zeta. split; [|split; [apply rows_of_ids|split; [|split]]].
  - eapply Forall_impl; [apply rows_of_sound|]. cbn beta.
    intros r (e & name & Hin & Hn & Hr). exists e, name.
    apply filter_In in Hin. destruct Hin as [Hin _]. by repeat split.
  - intros Hfit. destruct (import_run_rows self db scraper evs) as (self' & Hrun & _).
    cbn zeta in Hrun. exists self'.
    pose proof (import_run_sqlite self db scraper evs) as Hs. cbn zeta in Hs.
    rewrite Hfit in Hs. by rewrite Hs.
  - intros Hfit. pose proof (import_run_sqlite self db scraper evs) as Hs. cbn zeta in Hs.
    by rewrite Hfit in Hs.
  - intros Hlo Hhi. rewrite forallb_row_ids, rows_of_ids. by apply ids_from_fit.
Qed.

Lemma run_appends_the_rows_of_the_new_events_witness :
  import_events_from_scraper_sqlite init
    {| events := [row_of init "hcs" (2 ^ 63 - 1) "Last" Examples.food_truck_friday];
       db_businesses := [] |}
    "hcs" [Examples.food_truck_friday] = None /\
  exists self',
    import_events_from_scraper_sqlite init Examples.empty_db "hcs"
      [Examples.food_truck_friday]
    = Some (self',
            {| events := events Examples.empty_db
                         ++ rows_of (load_existing_data Examples.empty_db init) "hcs"
                              (next_id_of Examples.empty_db)
                              (List.filter (is_new (stored_keys Examples.empty_db))
                                 [Examples.food_truck_friday]);
               db_businesses := db_businesses Examples.empty_db |}).
Proof.
  split.
  - apply (proj1 (proj2 (proj2 (proj2
             (run_appends_the_rows_of_the_new_events init
                {| events := [row_of init "hcs" (2 ^ 63 - 1) "Last"
                                Examples.food_truck_friday];
                   db_businesses := [] |}
                "hcs" [Examples.food_truck_friday]))))).
    vm_compute. reflexivity.
  - apply (proj1 (proj2 (proj2
             (run_appends_the_rows_of_the_new_events init Examples.empty_db
                "hcs" [Examples.food_truck_friday])))).
    vm_compute. reflexivity.
Defined.

Lemma named_partition S evs :
  (length (List.filter (is_new S) evs) + length (List.filter (is_duplicate S) evs))%nat
  = length (List.filter has_name evs).
Proof.
  induction evs as [|e evs IH]; [reflexivity|]. cbn [List.filter].
  assert (Hcases : (is_new S e = false /\ is_duplicate S e = false /\ has_name e = false) \/
                   (is_new S e = true /\ is_duplicate S e = false /\ has_name e = true) \/
                   (is_new S e = false /\ is_duplicate S e = true /\ has_name e = true)).
  { unfold is_new, is_duplicate, has_name. destruct (event_key e) as [k|]; [|by left].
    right. destruct (decide (k ∈ S)) as [Hin|Hnin].
    - right. rewrite (bool_decide_eq_true_2 (k ∈ S) Hin).
      rewrite (bool_decide_eq_false_2 (k ∉ S)) by (intros Hc; exact (Hc Hin)). tauto.
    - left. rewrite (bool_decide_eq_false_2 (k ∈ S) Hnin).
      rewrite (bool_decide_eq_true_2 (k ∉ S) Hnin). tauto. }
  destruct Hcases as [(-> & -> & ->)|[(-> & -> & ->)|(-> & -> & ->)]]; cbn [length]; lia.
Qed.

Lemma filter_length_le {A} (f : A -> bool) l : (length (List.filter f l) <= length l)%nat.
Proof.
  induction l as [|x l IH]; [reflexivity|]. cbn [List.filter].
  destruct (f x); cbn [length]; lia.
Qed.

(** After a run the imported and the duplicate events add up to the named
    events of the batch (events without a name are counted nowhere), the
    imported count is the number of rows added, and the business matches
    are at most the imported events. *)
Theorem run_counters_add_up self db scraper evs :
  exists self' db',
    import_events_from_scraper self db scraper evs = Some (self', db') /\
    imported_count self' + duplicate_count self' = Z.of_nat (length (List.filter has_name evs)) /\
    Z.of_nat (length (events db')) = Z.of_nat (length (events db)) + imported_count self' /\
    0 <= business_match_count self' <= imported_count self'.
Proof.
  destruct (EventImporterSpec.import_run self db scraper evs)
    as (self' & rows & Hrun & Hi & Hd & _ & Hk).
  destruct (import_run_rows self db scraper evs) as (self2 & Hrun2 & Hi2 & Hb2).
  cbn zeta in *. rewrite Hrun in Hrun2. injection Hrun2 as <- Hrows.
  eexists self', _. split; [exact Hrun|].
  apply (f_equal (@length _)) in Hk. rewrite !length_map in Hk.
  pose proof (named_partition (stored_keys db) evs) as Hpart.
  split; [lia|]. split.
  - cbn [events]. rewrite length_app. lia.
  - rewrite Hb2, Hi2. unfold matched_rows.
    pose proof (filter_length_le (fun r => bool_decide (row_business_id r <> None))
                  (rows_of (load_existing_data db init) scraper (next_id_of db)
                           (List.filter (is_new (stored_keys db)) evs))).
    lia.
Qed.

Lemma new_rows_keys db evs rows :
  map (fun r => Some (row_key r)) rows
  = map event_key (List.filter (is_new (stored_keys db)) evs) ->
  Forall (fun r => (row_key r ∉ stored_keys db) /\
                   exists e, In e evs /\ event_key e = Some (row_key r)) rows.
Proof.
  intros Hk. apply Forall_forall. intros r Hr. apply list_elem_of_In in Hr.
  apply (in_map (fun r => Some (row_key r))) in Hr. rewrite Hk in Hr.
  apply in_map_iff in Hr. destruct Hr as (e & He & Hin).
  apply filter_In in Hin. destruct Hin as [Hin Hnew].
  unfold is_new in Hnew. rewrite He in Hnew. apply bool_decide_eq_true_1 in Hnew.
  split; [exact Hnew|]. exists e. by split.
Qed.

(** A run never stores a row whose (name, date) pair was stored before the
    run, and every row it stores has the pair of a named event of the
    batch. *)
Theorem run_never_stores_a_stored_key self db scraper evs :
  exists self' rows,
    import_events_from_scraper self db scraper evs
      = Some (self', {| events := events db ++ rows; db_businesses := db_businesses db |}) /\
    Forall (fun r => (row_key r ∉ stored_keys db) /\
                     exists e, In e evs /\ event_key e = Some (row_key r)) rows.
Proof.
  destruct (EventImporterSpec.import_run self db scraper evs)
    as (self' & rows & Hrun & _ & _ & _ & Hk).
  exists self', rows. split; [exact Hrun|]. by apply new_rows_keys.
Qed.

(** *** The two sources in a row *)

Lemma fold_max_elem l : forall a, fold_left Z.max l a ∈ a :: l.
Proof.
  induction l as [|x l IH]; intros a; cbn [fold_left]; [left|].
  specialize (IH (Z.max a x)). apply elem_of_cons in IH. destruct IH as [Heq|Hin].
  - rewrite Heq. destruct (Z.max_spec a x) as [[_ ->]|[_ ->]]; [right; left|left].
  - right. by right.
Qed.

Lemma max_id_greatest rows m :
  m ∈ map row_id rows -> Forall (fun r => row_id r <= m) rows -> max_id rows = Some m.
Proof.
  intros Hin Hle. destruct rows as [|r rs]; [by apply elem_of_nil in Hin|].
  cbn [max_id]. f_equal.
  pose proof (fold_max_elem (map row_id rs) (row_id r)) as Hel.
  change (row_id r :: map row_id rs) with (map row_id (r :: rs)) in Hel.
  pose proof (EventImporterSpec.max_id_bound (r :: rs) _ eq_refl) as Hb.
  cbn [max_id] in Hb. rewrite Forall_forall in Hle, Hb.
  apply list_elem_of_fmap in Hel. destruct Hel as (r1 & Hr1 & Hin1).
  apply list_elem_of_fmap in Hin. destruct Hin as (r2 & Hr2 & Hin2).
  specialize (Hle r1 Hin1). specialize (Hb r2 Hin2). lia.
Qed.

Lemma ids_from_app first n1 n2 :
  ids_from first (n1 + n2) = ids_from first n1 ++ ids_from (first + Z.of_nat n1) n2.
Proof.
  revert first. induction n1 as [|n1 IH]; intros first.
  - cbn. by rewrite Z.add_0_r.
  - change (S n1 + n2)%nat with (S (n1 + n2)).
    rewrite !EventImporterSpec.ids_from_cons, IH. cbn [app]. do 3 f_equal. lia.
Qed.

(** After rows with fresh consecutive ids were stored, the next id is
    the one after the last of them. *)
Lemma next_id_after db rows :
  map row_id rows = ids_from (next_id_of db) (length rows) ->
  next_id_of {| events := events db ++ rows; db_businesses := db_businesses db |}
  = next_id_of db + Z.of_nat (length rows).
Proof.
  intros Hids. destruct rows as [|r rs] using rev_ind.
  - cbn [length]. rewrite app_nil_r, Z.add_0_r. unfold next_id_of. reflexivity.
  - clear IHrs. rewrite length_app in *. cbn [length] in *.
    rewrite ids_from_app in Hids. unfold ids_from at 2 in Hids.
    rewrite map_app in Hids. cbn [map seq] in Hids.
    apply app_inj_tail in Hids. destruct Hids as [Hrs Hr].
    unfold next_id_of at 1. cbn [events].
    rewrite (max_id_greatest _ (row_id r)); [lia| |].
    + rewrite !map_app. apply elem_of_app. right. apply elem_of_app. right. left.
    + rewrite app_assoc. apply Forall_app. split; [apply Forall_app; split|].
      * eapply Forall_impl; [apply EventImporterSpec.next_id_fresh|]. cbn beta. intros; lia.
      * pose proof (EventImporterSpec.ids_from_sorted (length rs) (next_id_of db)) as Hs.
        apply Forall_forall. intros r' Hr'.
        assert (Hin : row_id r' ∈ ids_from (next_id_of db) (length rs)).
        { rewrite <- Hrs. apply list_elem_of_fmap. by exists r'. }
        unfold ids_from in Hin. apply list_elem_of_fmap in Hin.
        destruct Hin as (k & -> & Hk). apply elem_of_seq in Hk. lia.
      * constructor; [lia|constructor].
Qed.

Lemma get_events_hcs src : _get_events_from_scraper src "hcs" = hcs_events src.
Proof. reflexivity. Qed.

Lemma get_events_cvb src : _get_events_from_scraper src "cvb" = cvb_events src.
Proof. reflexivity. Qed.

Lemma all_sources_run self db src :
  exists self' rows1 rows2,
    import_events_from_all_sources self db src
      = Some (Z.of_nat (length (rows1 ++ rows2)), self',
              {| events := events db ++ rows1 ++ rows2;
                 db_businesses := db_businesses db |}) /\
    map row_id (rows1 ++ rows2) = ids_from (next_id_of db) (length (rows1 ++ rows2)) /\
    Forall (fun r => (row_key r ∉ stored_keys db) /\
                     exists e, In e (hcs_events src) /\ event_key e = Some (row_key r)) rows1 /\
    Forall (fun r => (row_key r ∉ stored_keys db) /\
                     (row_key r ∉ map row_key rows1) /\
                     exists e, In e (cvb_events src) /\ event_key e = Some (row_key r)) rows2.
Proof.
  unfold import_events_from_all_sources, import_events_from.
  rewrite get_events_hcs, get_events_cvb.
  destruct (EventImporterSpec.import_run self db "hcs" (hcs_events src))
    as (self1 & rows1 & Hrun1 & Hi1 & _ & Hids1 & Hk1).
  rewrite Hrun1.
  set (db1 := {| events := events db ++ rows1; db_businesses := db_businesses db |}).
  destruct (EventImporterSpec.import_run self1 db1 "cvb" (cvb_events src))
    as (self2 & rows2 & Hrun2 & Hi2 & _ & Hids2 & Hk2).
  rewrite Hrun2. exists self2, rows1, rows2.
  split; [|split; [|split]].
  - cbn [events db_businesses db1]. rewrite <- app_assoc, length_app, Hi1, Hi2.
    do 3 f_equal. lia.
  - unfold db1 in Hids2. rewrite (next_id_after db rows1 Hids1) in Hids2.
    rewrite map_app, length_app, ids_from_app, Hids1, Hids2. reflexivity.
  - by apply new_rows_keys.
  - pose proof (new_rows_keys db1 (cvb_events src) rows2 Hk2) as H2.
    eapply Forall_impl; [exact H2|]. cbn beta. intros r [Hnew Hev].
    unfold db1 in Hnew. rewrite EventImporterSpec.stored_keys_app in Hnew.
    apply not_elem_of_union in Hnew. destruct Hnew as [Hold Hnew1].
    split; [exact Hold|]. split; [|exact Hev].
    intros Hin. apply Hnew1. by apply elem_of_list_to_set.
Qed.

(** [import_events_from_all_sources] returns the number of rows the two
    runs added, and the ids of these rows continue the ids of the table
    without a gap across the two runs. *)
Theorem all_sources_total_and_ids self db src :
  exists self' rows,
    import_events_from_all_sources self db src
      = Some (Z.of_nat (length rows), self',
              {| events := events db ++ rows; db_businesses := db_businesses db |}) /\
    map row_id rows = ids_from (next_id_of db) (length rows).
Proof.
  destruct (all_sources_run self db src) as (self' & rows1 & rows2 & Hrun & Hids & _).
  exists self', (rows1 ++ rows2). by split.
Qed.

(** The two runs of [import_events_from_all_sources], with the rows each of
    them stores and what the second run makes of the rows of the first. *)
Lemma all_sources_two_runs self db src :
  exists self1 rows1 self2 rows2,
    let db1 := {| events := events db ++ rows1; db_businesses := db_businesses db |} in
    let db2 := {| events := events db1 ++ rows2; db_businesses := db_businesses db |} in
    let seen := stored_keys db ∪ list_to_set (map row_key rows1) in
    import_events_from self db src "hcs" = Some (self1, db1) /\
    import_events_from self1 db1 src "cvb" = Some (self2, db2) /\
    import_events_from_all_sources self db src
    = Some (imported_count self1 + imported_count self2, self2, db2) /\
    map (fun r => Some (row_key r)) rows2
    = map event_key (List.filter (is_new seen) (cvb_events src)) /\
    duplicate_count self2
    = Z.of_nat (length (List.filter (is_duplicate seen) (cvb_events src))).
Proof.
  destruct (EventImporterSpec.import_run self db "hcs" (hcs_events src))
    as (self1 & rows1 & Hrun1 & _ & _ & _ & _).
  set (db1 := {| events := events db ++ rows1; db_businesses := db_businesses db |}) in *.
  destruct (EventImporterSpec.import_run self1 db1 "cvb" (cvb_events src))
    as (self2 & rows2 & Hrun2 & _ & Hd2 & _ & Hk2).
  exists self1, rows1, self2, rows2. cbn zeta. fold db1.
  unfold import_events_from_all_sources, import_events_from.
  rewrite get_events_hcs, get_events_cvb, Hrun1, Hrun2.
  unfold db1 in Hd2, Hk2. rewrite EventImporterSpec.stored_keys_app in Hd2, Hk2.
  split; [reflexivity|]. split; [reflexivity|]. split; [reflexivity|].
  split; [exact Hk2|exact Hd2].
Qed.

(** In [import_events_from_all_sources] the run over the CVB events reloads
    the stored pairs, the rows of the run over the Holy City Sinner events
    among them.  It stores, in order, one row for each named CVB event whose
    (name, date) pair was neither stored before the call nor stored by the
    first run, and counts every other named CVB event as a duplicate; so no
    row stored from the CVB events has the pair of a row stored from the
    Holy City Sinner events. *)
Theorem all_sources_dedup_across_sources self db src :
  exists self1 rows1 self2 rows2,
    let db1 := {| events := events db ++ rows1; db_businesses := db_businesses db |} in
    let db2 := {| events := events db1 ++ rows2; db_businesses := db_businesses db |} in
    let seen := stored_keys db ∪ list_to_set (map row_key rows1) in
    import_events_from self db src "hcs" = Some (self1, db1) /\
    import_events_from self1 db1 src "cvb" = Some (self2, db2) /\
    import_events_from_all_sources self db src
    = Some (imported_count self1 + imported_count self2, self2, db2) /\
    map (fun r => Some (row_key r)) rows2
    = map event_key (List.filter (is_new seen) (cvb_events src)) /\
    duplicate_count self2
    = Z.of_nat (length (List.filter (is_duplicate seen) (cvb_events src))) /\
    Forall (fun r2 => Forall (fun r1 => row_key r1 <> row_key r2) rows1 /\
                      (row_key r2 ∉ stored_keys db)) rows2.
Proof.
  destruct (all_sources_two_runs self db src)
    as (self1 & rows1 & self2 & rows2 & Hrun1 & Hrun2 & Hall & Hk & Hd).
  cbn zeta in *. exists self1, rows1, self2, rows2. cbn zeta.
  split; [exact Hrun1|]. split; [exact Hrun2|]. split; [exact Hall|].
  split; [exact Hk|]. split; [exact Hd|].
  apply Forall_forall. intros r2 Hr2. apply list_elem_of_In in Hr2.
  apply (in_map (fun r => Some (row_key r))) in Hr2. rewrite Hk in Hr2.
  apply in_map_iff in Hr2. destruct Hr2 as (e & He & Hin).
  apply filter_In in Hin. destruct Hin as [_ Hnew].
  unfold is_new in Hnew. rewrite He in Hnew. apply bool_decide_eq_true_1 in Hnew.
  apply not_elem_of_union in Hnew. destruct Hnew as [Hold Hnew1].
  split; [|exact Hold]. apply Forall_forall. intros r1 Hr1 Heq.
  apply Hnew1. apply elem_of_list_to_set. rewrite <- Heq.
  apply list_elem_of_fmap. by exists r1.
Qed.

(** A scraper name that is neither "hcs" nor "cvb" (in any case of the
    letters) imports nothing: the count is 0 and the database is left as it
    was. *)
Theorem unknown_scraper_imports_nothing self db src scraper_name :
  lower scraper_name <> "hcs"%string -> lower scraper_name <> "cvb"%string ->
  import_events_from self db src scraper_name = Some (reset_statistics self, db) /\
  import_events_from_source db src scraper_name = Some (0, db).
Proof.
  intros Hh Hc.
  assert (Hnone : _get_events_from_scraper src scraper_name = []).
  { unfold _get_events_from_scraper.
    destruct (String.eqb_spec (lower scraper_name) "hcs"); [contradiction|].
    destruct (String.eqb_spec (lower scraper_name) "cvb"); [contradiction|]. reflexivity. }
  unfold import_events_from_source, import_events_from. rewrite Hnone. split; reflexivity.
Qed.

Lemma unknown_scraper_imports_nothing_witness :
  import_events_from init Examples.empty_db
    {| hcs_events := [Examples.food_truck_friday]; cvb_events := [] |} "yelp"
  = Some (reset_statistics init, Examples.empty_db) /\
  import_events_from_source Examples.empty_db
    {| hcs_events := [Examples.food_truck_friday]; cvb_events := [] |} "yelp"
  = Some (0, Examples.empty_db).
Proof.
  apply (unknown_scraper_imports_nothing init Examples.empty_db
           {| hcs_events := [Examples.food_truck_friday]; cvb_events := [] |} "yelp").
  - discriminate.
  - discriminate.
Defined.

End RunSpec.

(** ** Pages of text, URLs and date ranges of the Holy City Sinner scraper *)

Module HolyCitySinnerTextSpec.
Import PyStr Calendar Regex HolyCitySinner HolyCitySinnerText.

(** *** [_make_absolute_url] *)

Lemma make_absolute_url_http url : startswith "http" (_make_absolute_url url) = true.
Proof.
  unfold _make_absolute_url. destruct (startswith "http" url) eqn:Hh; [exact Hh|].
  destruct (startswith "//" url); [reflexivity|].
  destruct (startswith "/" url); reflexivity.
Qed.

(** Every URL [_make_absolute_url] returns starts with "http"; a URL that
    does is returned as it is, so that making a URL absolute twice is the
    same as once. *)
Theorem make_absolute_url_idempotent url :
  startswith "http" (_make_absolute_url url) = true /\
  (startswith "http" url = true -> _make_absolute_url url = url) /\
  _make_absolute_url (_make_absolute_url url) = _make_absolute_url url.
Proof.
  assert (Hfix : forall u, startswith "http" u = true -> _make_absolute_url u = u).
  { intros u Hu. unfold _make_absolute_url. by rewrite Hu. }
  split; [apply make_absolute_url_http|]. split; [apply Hfix|].
  apply Hfix, make_absolute_url_http.
Qed.

Lemma make_absolute_url_idempotent_witness :
  _make_absolute_url "https://holycitysinner.com/events/x"
  = "https://holycitysinner.com/events/x"%string.
Proof.
  apply (proj1 (proj2 (make_absolute_url_idempotent "https://holycitysinner.com/events/x"))).
  reflexivity.
Defined.

(** *** The links [get_events_for_date_range] collects *)

Lemma links_ok_weaken hrefs hrefs' links :
  (forall h, h ∈ hrefs -> h ∈ hrefs') -> links_ok hrefs links -> links_ok hrefs' links.
Proof.
  intros Hsub [Hnd Hall]. split; [exact Hnd|].
  eapply Forall_impl; [exact Hall|]. cbn beta.
  intros u (Hu & href & Hin & ->). split; [exact Hu|]. exists href. by split; [apply Hsub|].
Qed.

Lemma add_link_ok test hrefs links href :
  links_ok hrefs links ->
  (forall h, or_none href = Some h -> h ∈ hrefs) ->
  links_ok hrefs (add_link test links href).
Proof.
  intros [Hnd Hall] Hin. unfold add_link.
  destruct (or_none href) as [h|]; [|by split].
  destruct (test h); [|by split]. cbv zeta.
  destruct (bool_decide_reflect (_make_absolute_url h ∈ links)) as [Hdup|Hnew]; [by split|].
  split.
  - apply NoDup_app. split; [exact Hnd|]. split; [|apply NoDup_singleton].
    intros x Hx Hx'. apply list_elem_of_singleton in Hx'. by subst x.
  - apply Forall_app. split; [exact Hall|]. constructor; [|constructor].
    split; [apply make_absolute_url_http|]. exists h. by split; [apply Hin|].
Qed.

Lemma add_links_ok test hrefs page : forall links,
  links_ok hrefs links ->
  (forall h, Some h ∈ page -> h ∈ hrefs) ->
  links_ok hrefs (fold_left (add_link test) page links).
Proof.
  induction page as [|href page IH]; intros links Hok Hin; cbn [fold_left]; [exact Hok|].
  apply IH.
  - apply add_link_ok; [exact Hok|]. intros h Hh. apply Hin.
    destruct href as [h'|]; [|discriminate]. cbn in Hh.
    destruct (truthy h'); [|discriminate]. injection Hh as ->. left.
  - intros h Hh. apply Hin. by right.
Qed.

Lemma elem_of_all_hrefs hrefs alternate_pages h :
  h ∈ all_hrefs hrefs alternate_pages
  <-> Some h ∈ hrefs \/ exists page, Some page ∈ alternate_pages /\ Some h ∈ page.
Proof.
  unfold all_hrefs. rewrite list_elem_of_omap. split.
  - intros (x & Hx & Hid). cbn in Hid. subst x. apply elem_of_app in Hx.
    destruct Hx as [Hx|Hx]; [by left|]. right.
    apply list_elem_of_join in Hx. destruct Hx as (page & Hh & Hpage).
    apply list_elem_of_omap in Hpage. destruct Hpage as (y & Hy & Hid). cbn in Hid.
    subst y. by exists page.
  - intros [Hx|(page & Hpage & Hh)].
    + exists (Some h). split; [|reflexivity]. apply elem_of_app. by left.
    + exists (Some h). split; [|reflexivity]. apply elem_of_app. right.
      apply list_elem_of_join. exists page. split; [exact Hh|].
      apply list_elem_of_omap. by exists (Some page).
Qed.

(** The links [get_events_for_date_range] scrapes hold no link twice, every
    one of them is absolute (it starts with "http") and is the absolute form
    of a link of the calendar page or of an alternate page; and the
    alternate pages are not read when the calendar page gave five links or
    more. *)
Theorem event_links_distinct_and_absolute hrefs alternate_pages :
  let event_links := event_links_of hrefs alternate_pages in
  NoDup event_links /\
  Forall (fun u => startswith "http" u = true /\
                   exists href, href ∈ all_hrefs hrefs alternate_pages /\
                                u = _make_absolute_url href) event_links /\
  (5 <= Z.of_nat (length (fold_left (add_link is_event_href) hrefs [])) ->
   event_links = fold_left (add_link is_event_href) hrefs []).
Proof.
  cbv zeta. unfold event_links_of. cbv zeta.
  set (first := fold_left (add_link is_event_href) hrefs []).
  assert (Hfirst : links_ok (all_hrefs hrefs alternate_pages) first).
  { apply add_links_ok.
    - split; constructor.
    - intros h Hh. apply elem_of_all_hrefs. by left. }
  assert (Halt : forall pages links,
            (forall page, Some page ∈ pages -> Some page ∈ alternate_pages) ->
            links_ok (all_hrefs hrefs alternate_pages) links ->
            links_ok (all_hrefs hrefs alternate_pages)
              (fold_left (fun event_links page =>
                            match page with
                            | Some alt_hrefs =>
                                fold_left (add_link is_alternate_href) alt_hrefs event_links
                            | None => event_links
                            end) pages links)).
  { induction pages as [|page pages IH]; intros links Hsub Hok; cbn [fold_left]; [exact Hok|].
    apply IH; [intros p Hp; apply Hsub; by right|].
    destruct page as [alt_hrefs|]; [|exact Hok].
    apply add_links_ok; [exact Hok|]. intros h Hh. apply elem_of_all_hrefs. right.
    exists alt_hrefs. split; [apply Hsub; left|exact Hh]. }
  destruct (Z.eqb_spec (Z.of_nat (length first)) 0) as [H0|H0];
    destruct (Z.ltb_spec (Z.of_nat (length first)) 5) as [H5|H5]; cbn [orb].
  - destruct (Halt alternate_pages first (fun _ H => H) Hfirst) as [Hnd Hall].
    split; [exact Hnd|]. split; [exact Hall|]. lia.
  - lia.
  - destruct (Halt alternate_pages first (fun _ H => H) Hfirst) as [Hnd Hall].
    split; [exact Hnd|]. split; [exact Hall|]. lia.
  - destruct Hfirst as [Hnd Hall]. by repeat split.
Qed.

Lemma event_links_distinct_and_absolute_witness :
  event_links_of Examples.calendar_hrefs [Some [Some "/event/z"%string]]
  = fold_left (add_link is_event_href) Examples.calendar_hrefs [].
Proof.
  apply (proj2 (proj2 (event_links_distinct_and_absolute Examples.calendar_hrefs
                         [Some [Some "/event/z"%string]]))).
  apply Z.leb_le. vm_compute. reflexivity.
Defined.

(** *** [scrape_event]: the time of the URL *)

Lemma hour_cases h : 0 <= h < 24 -> exists n : nat, (n < 24)%nat /\ h = Z.of_nat n.
Proof. intros H. exists (Z.to_nat h). lia. Qed.

(** The clock [hh:mm] of a URL is shown on twelve hours: the hours 13 to 23
    as 1 to 11 PM, 12 as 12 PM, and the hours before noon as they are, without
    a leading zero, so that midnight reads "0:mm AM"; the minutes are copied. *)
Theorem clock_shown_on_twelve_hours h c1 c2 :
  0 <= h < 24 -> c1 <> ":"%char -> c2 <> ":"%char ->
  time_of_clock (pad2 h +:+ ":" +:+ String c1 (String c2 ""))
  = Some (str_int (if 12 <? h then h - 12 else h) +:+ ":" +:+ String c1 (String c2 "")
          +:+ " " +:+ (if h <? 12 then "AM"%string else "PM"%string)).
Proof.
  intros Hh H1 H2. apply Ascii.eqb_neq in H1, H2.
  destruct (hour_cases h Hh) as (n & Hn & ->).
  do 24 (destruct n as [|n];
         [unfold time_of_clock, split_char; cbv [String.append pad2 digit];
          cbn -[str_int Ascii.eqb]; rewrite ?H1, ?H2; cbn; reflexivity|]).
  lia.
Qed.

Lemma clock_shown_on_twelve_hours_witness :
  time_of_clock "00:30" = Some "0:30 AM"%string.
Proof.
  apply (clock_shown_on_twelve_hours 0 "3" "0"); [lia|discriminate|discriminate].
Defined.

(** *** [get_events_for_date_range] *)

Lemma in_date_range_dated start_date end_date d e :
  valid start_date = true -> valid end_date = true -> valid d = true ->
  1000 <= year start_date -> 1000 <= year end_date -> 1000 <= year d ->
  get_Date e = Some (strftime d) ->
  in_date_range (strftime start_date) (strftime end_date) e = true
  <-> toordinal start_date <= toordinal d <= toordinal end_date.
Proof.
  intros Vs Ve Vd Hs He Hd Hdate. unfold in_date_range.
  rewrite Hdate, HolyCitySinnerSpec.truthy_strftime.
  rewrite andb_true_iff.
  rewrite (CalendarSpec.str_le_strftime start_date d Vs Vd Hs Hd).
  rewrite (CalendarSpec.str_le_strftime d end_date Vd Ve Hd He).
  apply CalendarSpec.valid_wf in Vs as [Ws _].
  apply CalendarSpec.valid_wf in Ve as [We _].
  apply CalendarSpec.valid_wf in Vd as [Wd _].
  rewrite (CalendarSpec.toordinal_le_iff start_date d Ws Wd).
  rewrite (CalendarSpec.toordinal_le_iff d end_date Wd We). reflexivity.
Qed.

(** When [get_events_for_date_range] found a link of an event page, or the
    calendar page has no content element, it returns the events of the
    scraped links that pass the test of the range: an event with a date (of
    a year of four digits, as the bounds) is returned exactly when one of
    the links gave it and its date lies between the start date and the end
    date, both included.  When no link was found and the page has a content
    element, it returns the events read off the text of the page as they
    are, without the test of the range.  When the page cannot be fetched it
    returns no event. *)
Theorem date_range_keeps_dates_in_range now start_date end_date hrefs content_elem
        alternate_pages scrape :
  valid start_date = true -> valid end_date = true ->
  1000 <= year start_date -> 1000 <= year end_date ->
  let event_links := event_links_of hrefs alternate_pages in
  let events :=
    get_events_for_date_range now (strftime start_date) (strftime end_date)
      (Some (hrefs, content_elem)) alternate_pages scrape in
  (event_links <> [] \/ content_elem = None ->
   forall e d, valid d = true -> 1000 <= year d -> get_Date e = Some (strftime d) ->
     (e ∈ events <->
      (exists url, url ∈ event_links /\ scrape url = Some e) /\
      toordinal start_date <= toordinal d <= toordinal end_date)) /\
  (event_links = [] -> forall text, content_elem = Some text ->
   events = _extract_events_from_text now text events_url) /\
  get_events_for_date_range now (strftime start_date) (strftime end_date)
    None alternate_pages scrape = [].
Proof.
  intros Vs Ve Hs He. cbv zeta. unfold get_events_for_date_range. cbv zeta.
  split; [|split; [|reflexivity]].
  - intros Hcase e d Vd Hd Hdate.
    assert (Hfilter :
              match event_links_of hrefs alternate_pages, content_elem with
              | [], Some text => _extract_events_from_text now text events_url
              | _, _ =>
                  List.filter (in_date_range (strftime start_date) (strftime end_date))
                              (omap scrape (event_links_of hrefs alternate_pages))
              end
              = List.filter (in_date_range (strftime start_date) (strftime end_date))
                            (omap scrape (event_links_of hrefs alternate_pages))).
    { destruct (event_links_of hrefs alternate_pages) as [|u us]; [|reflexivity].
      destruct content_elem as [text|]; [|reflexivity].
      destruct Hcase as [Hne|Hnone]; [contradiction|discriminate]. }
    rewrite Hfilter, list_elem_of_In, filter_In, <- list_elem_of_In, list_elem_of_omap.
    rewrite (in_date_range_dated start_date end_date d e Vs Ve Vd Hs He Hd Hdate).
    reflexivity.
  - intros Hno text ->. by rewrite Hno.
Qed.

Lemma date_range_keeps_dates_in_range_witness :
  Examples.next_year_event
    ∈ get_events_for_date_range Examples.sep_1_2024
        (strftime Examples.sep_1_2024) (strftime Examples.sep_1_2025)
        (Some (Examples.calendar_hrefs, None)) [] Examples.scrape_one
  <-> (exists url, url ∈ event_links_of Examples.calendar_hrefs [] /\
                   Examples.scrape_one url = Some Examples.next_year_event) /\
      toordinal Examples.sep_1_2024 <= toordinal Examples.sep_1_2025
      <= toordinal Examples.sep_1_2025.
Proof.
  apply (proj1 (date_range_keeps_dates_in_range Examples.sep_1_2024 Examples.sep_1_2024
                  Examples.sep_1_2025 Examples.calendar_hrefs None [] Examples.scrape_one
                  eq_refl eq_refl ltac:(cbn; lia) ltac:(cbn; lia))
               (or_intror eq_refl) Examples.next_year_event Examples.sep_1_2025).
  - reflexivity.
  - cbn; lia.
  - reflexivity.
Defined.

(** *** [_extract_events_from_text] *)

Lemma make_date_valid y m d x : make_date y m d = Some x -> valid x = true.
Proof.
  unfold make_date. destruct (valid _) eqn:Hv; [|discriminate]. by intros [= <-].
Qed.

Lemma make_date_fields y m d x :
  make_date y m d = Some x -> year x = y /\ month x = m /\ day x = d.
Proof.
  unfold make_date. destruct (valid _); [|discriminate]. by intros [= <-].
Qed.

(** A date [_extract_events_from_text] resolves is a date of the
    calendar. *)
Lemma resolve_match_valid now mo s :
  resolve_match now mo = Some s -> exists d, valid d = true /\ s = strftime d.
Proof.
  unfold resolve_match.
  destruct (groups mo) as [|[month|] [|[day|] [|year [|? ?]]]]; try discriminate.
  destruct (month_of_name month) as [m|]; [|discriminate].
  destruct (make_date _ m _) as [date_obj|] eqn:Hd; [|discriminate].
  cbv zeta. destruct (180 <? days_between now date_obj).
  - unfold replace_year.
    destruct (make_date (Calendar.year date_obj + 1) _ _) as [d'|] eqn:Hd'; [|discriminate].
    cbn [option_map]. intros [= <-]. exists d'.
    split; [by eapply make_date_valid|reflexivity].
  - cbn [option_map]. intros [= <-]. exists date_obj.
    split; [by eapply make_date_valid|reflexivity].
Qed.

Lemma length_take n s : (String.length (take n s) <= n)%nat.
Proof.
  revert s. induction n as [|n IH]; intros [|c s]; cbn; try lia.
  specialize (IH s). lia.
Qed.

Lemma length_string_app a b :
  String.length (a +:+ b) = (String.length a + String.length b)%nat.
Proof.
  induction a as [|c a IH]; [reflexivity|].
  change (String c a +:+ b)%string with (String c (a +:+ b)).
  cbn [String.length]. by rewrite IH.
Qed.

Lemma title_of_length paragraph : len (title_of paragraph) <= 103.
Proof.
  unfold title_of. cbv zeta.
  destruct (Z.ltb_spec 100 (len (hd EmptyString (split_char "." paragraph)))) as [|Hle].
  - unfold len. rewrite length_string_app. cbn [String.length].
    pose proof (length_take 100 (hd EmptyString (split_char "." paragraph))). lia.
  - lia.
Qed.

Lemma event_of_paragraph_shape d source_url paragraph e :
  valid d = true ->
  event_of_paragraph (strftime d) source_url paragraph = Some e ->
  text_event_shape source_url e.
Proof.
  intros Vd. unfold event_of_paragraph.
  destruct (Z.ltb_spec (len paragraph) 20) as [|Hlen]; [discriminate|].
  intros [= <-]. unfold text_event_shape. cbn [get_URL get_Source get_Image_URL get_Date
    get_Time get_Description get_Name].
  split; [reflexivity|]. split; [reflexivity|]. split; [reflexivity|].
  split; [by exists d|]. split; [by eexists|].
  exists paragraph. split; [reflexivity|]. split; [exact Hlen|].
  split; [reflexivity|apply title_of_length].
Qed.

(** Every event [_extract_events_from_text] returns has the URL of the
    page, the source "Holy City Sinner", an empty image, a date that exists
    in the calendar, a paragraph of at least 20 characters as description
    and, as name, the part of it before the first full stop, cut to 100
    characters and three dots. *)
Theorem text_events_have_the_shape now text source_url :
  Forall (text_event_shape source_url) (_extract_events_from_text now text source_url).
Proof.
  apply Forall_forall. intros e He. apply list_elem_of_In in He.
  unfold _extract_events_from_text in He. apply in_flat_map in He.
  destruct He as (mc & _ & He). unfold events_of_match in He.
  destruct (resolve_match now (fst mc)) as [s|] eqn:Hs; [|destruct He].
  apply resolve_match_valid in Hs. destruct Hs as (d & Vd & ->).
  apply list_elem_of_In, list_elem_of_omap in He. destruct He as (p & _ & Hp).
  by eapply event_of_paragraph_shape.
Qed.

(** The events read off a page have the URL of the page. *)
Lemma text_events_url now text source_url :
  Forall (fun e => get_URL e = Some source_url)
         (_extract_events_from_text now text source_url).
Proof.
  apply Forall_forall. intros e He. apply list_elem_of_In in He.
  unfold _extract_events_from_text in He. apply in_flat_map in He.
  destruct He as (mc & _ & He). unfold events_of_match in He.
  destruct (resolve_match now (fst mc)) as [s|]; [|destruct He].
  apply list_elem_of_In, list_elem_of_omap in He. destruct He as (p & _ & Hp).
  unfold event_of_paragraph in Hp. destruct (len p <? 20); [discriminate|].
  by injection Hp as <-.
Qed.

Lemma filter_const_false {A} (f : A -> bool) l :
  Forall (fun x => f x = false) l -> List.filter f l = [].
Proof.
  induction 1 as [|x l Hx _ IH]; [reflexivity|]. cbn. by rewrite Hx.
Qed.

Lemma filter_const_true {A} (f : A -> bool) l :
  Forall (fun x => f x = true) l -> List.filter f l = l.
Proof.
  induction 1 as [|x l Hx _ IH]; [reflexivity|]. cbn. by rewrite Hx, IH.
Qed.

(** The events read off one page share its URL, so the test by URL of
    [get_all_events] drops all of them when an event gathered before has
    that URL, and keeps all of them otherwise. *)
Theorem text_events_deduplicated_as_a_whole now text source_url all_events :
  let new_events := _extract_events_from_text now text source_url in
  (Some source_url ∈ map get_URL all_events ->
   unique_by_url all_events new_events = []) /\
  (Some source_url ∉ map get_URL all_events ->
   unique_by_url all_events new_events = new_events).
Proof.
  cbn zeta. pose proof (text_events_url now text source_url) as Hshape.
  unfold unique_by_url. split; intros Hurl.
  - apply filter_const_false. eapply Forall_impl; [exact Hshape|]. cbn beta.
    intros e ->. apply bool_decide_eq_false_2. intros Hn. apply Hn.
    by apply elem_of_list_to_set.
  - apply filter_const_true. eapply Forall_impl; [exact Hshape|]. cbn beta.
    intros e ->. apply bool_decide_eq_true_2. intros Hn. apply Hurl.
    by apply elem_of_list_to_set in Hn.
Qed.

Lemma text_events_deduplicated_as_a_whole_witness :
  unique_by_url [Examples.undated_event]
    (_extract_events_from_text Examples.sep_1_2024 Examples.oyster_text
       Examples.market_url) = [].
Proof.
  apply (proj1 (text_events_deduplicated_as_a_whole Examples.sep_1_2024
                  Examples.oyster_text Examples.market_url [Examples.undated_event])).
  cbn. left.
Defined.

(** *** Dates written without a year *)

Lemma not_both_leap y : is_leap y = true -> is_leap (y + 1) = true -> False.
Proof.
  unfold is_leap. rewrite !andb_true_iff, !Z.eqb_eq. intros [H4 _] [H4' _].
  Z.div_mod_to_equations. lia.
Qed.

(** The days before a month are those of a common year, and one more
    after February of a leap year. *)
Lemma days_before_month_leap y m :
  1 <= m <= 12 ->
  days_before_month y m
  = days_before_month 1 m + (if (2 <? m) && is_leap y then 1 else 0).
Proof.
  intros Hm. CalendarSpec.each_month m Hm;
    unfold days_before_month;
    match goal with
    | |- context [Z.to_nat ?e] =>
        let n := eval vm_compute in (Z.to_nat e) in change (Z.to_nat e) with n
    end;
    cbn [days_before_month_nat]; unfold days_in_month;
    destruct (is_leap y); reflexivity.
Qed.

(** The same day of the month a year later is 365 or 366 days away. *)
Lemma toordinal_next_year y m d :
  1 <= m <= 12 ->
  365 <= toordinal {| year := y + 1; month := m; day := d |}
         - toordinal {| year := y; month := m; day := d |} <= 366.
Proof.
  intros Hm. unfold toordinal. cbn [year month day].
  rewrite CalendarSpec.days_before_year_next. unfold year_length.
  rewrite (days_before_month_leap y m Hm), (days_before_month_leap (y + 1) m Hm).
  pose proof (not_both_leap y) as Hleap.
  destruct (2 <? m), (is_leap y), (is_leap (y + 1)); cbn [andb]; try lia;
    exfalso; by apply Hleap.
Qed.

Lemma toordinal_in_year d :
  wf d ->
  days_before_year (year d) + 1 <= toordinal d <= days_before_year (year d) + 366.
Proof.
  intros W. pose proof (CalendarSpec.day_of_year_bounds d W) as B.
  unfold toordinal. unfold year_length in B. destruct (is_leap (year d)); lia.
Qed.

(** A date [_extract_events_from_text] reads without a year is given the
    current year, or the next one when that day lies more than 180 days
    back; so the date it resolves to is never more than 180 days before the
    current day and never more than 365 days after it. *)
Theorem yearless_text_date_window now mo month_name day_str s :
  valid now = true ->
  groups mo = [Some month_name; Some day_str; None] ->
  resolve_match now mo = Some s ->
  exists d, valid d = true /\ s = strftime d /\
            (year d = year now \/ year d = year now + 1) /\
            -180 <= toordinal d - toordinal now <= 365.
Proof.
  intros Vn Hg. unfold resolve_match. rewrite Hg. cbn [or_none].
  destruct (month_of_name month_name) as [m|]; [|discriminate].
  destruct (make_date _ m _) as [date_obj|] eqn:Hd; [|discriminate].
  cbv zeta.
  pose proof (make_date_valid _ _ _ _ Hd) as Vd.
  destruct (make_date_fields _ _ _ _ Hd) as (Hy & Hmo & Hday).
  apply CalendarSpec.valid_wf in Vn as [Wn _].
  pose proof Vd as Vd0. apply CalendarSpec.valid_wf in Vd0 as [Wd _].
  pose proof (toordinal_in_year now Wn) as Bn.
  pose proof (toordinal_in_year date_obj Wd) as Bd. rewrite Hy in Bd.
  unfold days_between. destruct (Z.ltb_spec 180 (toordinal now - toordinal date_obj)) as [Hold|Hrecent].
  - unfold replace_year.
    destruct (make_date (Calendar.year date_obj + 1) _ _) as [d'|] eqn:Hd'; [|discriminate].
    cbn [option_map]. intros [= <-]. exists d'.
    pose proof (make_date_valid _ _ _ _ Hd') as Vd'.
    destruct (make_date_fields _ _ _ _ Hd') as (Hy' & Hmo' & Hday').
    split; [exact Vd'|]. split; [reflexivity|]. split; [right; lia|].
    assert (Hm : 1 <= month date_obj <= 12) by (destruct Wd as (_ & ? & _); lia).
    pose proof (toordinal_next_year (year date_obj) (month date_obj) (day date_obj) Hm) as Hn.
    assert (Hd'eq : d' = {| year := year date_obj + 1; month := month date_obj;
                            day := day date_obj |}).
    { destruct d'. cbn in Hy', Hmo', Hday'. by subst. }
    assert (Hdeq : date_obj = {| year := year date_obj; month := month date_obj;
                                 day := day date_obj |}) by (by destruct date_obj).
    rewrite <- Hd'eq, <- Hdeq in Hn. lia.
  - cbn [option_map]. intros [= <-]. exists date_obj.
    split; [exact Vd|]. split; [reflexivity|]. split; [left; exact Hy|]. lia.
Qed.

Lemma yearless_text_date_window_witness :
  exists d, valid d = true /\ "2025-03-03"%string = strftime d /\
            (year d = year Examples.sep_1_2024 \/ year d = year Examples.sep_1_2024 + 1) /\
            -180 <= toordinal d - toordinal Examples.sep_1_2024 <= 365.
Proof.
  apply (yearless_text_date_window Examples.sep_1_2024
           {| group0 := "March 3"; groups := [Some "March"; Some "3"; None] |}%string
           "March" "3" "2025-03-03"); reflexivity.
Defined.

(** *** [get_all_events]: the three sources *)





End HolyCitySinnerTextSpec.

(** ** The row a pass of [create_venue_connections] settles on *)

Module VenueBestRowSpec.
Import PyStr VenueConnections.

Section BestRow.
Variable partial_ratio : string -> string -> Z.

(** A pass ends on the first of the rows with the highest score, when
    that score is above the threshold and above the best score so far. *)
Lemma pass_first_best cand threshold kind text pre j b post c st :
  cand b = Some c ->
  threshold < partial_ratio text c -> best_score st < partial_ratio text c ->
  (forall j' b' c', (j', b') ∈ pre -> cand b' = Some c' ->
                    partial_ratio text c' < partial_ratio text c) ->
  (forall j' b' c', (j', b') ∈ post -> cand b' = Some c' ->
                    partial_ratio text c' <= partial_ratio text c) ->
  fold_left (pass_step partial_ratio cand threshold kind text) (pre ++ (j, b) :: post) st
  = {| best_match := Some (fst b); best_score := partial_ratio text c;
       match_type := Some kind; match_index := j |}.
Proof.
  intros Hc Hthr Hst Hpre Hpost. rewrite fold_left_app. cbn [fold_left].
  destruct (VenueConnectionsSpec.pass_fold_spec partial_ratio cand threshold kind text pre st)
    as (_ & Hcase & _). cbn zeta in Hcase.
  set (st1 := fold_left _ pre st) in *.
  assert (Hst1 : best_score st1 < partial_ratio text c).
  { destruct Hcase as [->|(j' & b' & c' & Hin & Hc' & -> & _)]; [exact Hst|].
    cbn [best_score]. by eapply Hpre. }
  set (R := {| best_match := Some (fst b); best_score := partial_ratio text c;
               match_type := Some kind; match_index := j |}).
  assert (Hstep : pass_step partial_ratio cand threshold kind text st1 (j, b) = R).
  { unfold pass_step, accept. cbn [fst snd]. rewrite Hc.
    destruct (Z.ltb_spec threshold (partial_ratio text c)); [|lia].
    destruct (Z.ltb_spec (best_score st1) (partial_ratio text c)); [|lia]. reflexivity. }
  rewrite Hstep.
  destruct (VenueConnectionsSpec.pass_fold_spec partial_ratio cand threshold kind text post R)
    as (_ & Hcase2 & _). cbn zeta in Hcase2.
  destruct Hcase2 as [Heq|(j' & b' & c' & Hin & Hc' & _ & _ & Hlt)]; [exact Heq|].
  cbn [best_score R] in Hlt. specialize (Hpost j' b' c' Hin Hc'). lia.
Qed.

Lemma enumerate_split {A} (pre : list A) b post :
  exists post',
    enumerate (pre ++ b :: post) = enumerate pre ++ (Z.of_nat (length pre), b) :: post' /\
    forall j x, (j, x) ∈ post' -> x ∈ post.
Proof.
  unfold enumerate. rewrite imap_app, imap_cons. rewrite Nat.add_0_r.
  eexists. split; [reflexivity|].
  intros j x Hin. apply elem_of_lookup_imap in Hin.
  destruct Hin as (i & y & [= _ ->] & Hy). by eapply list_elem_of_lookup_2.
Qed.

Lemma enumerate_member {A} (l : list A) j x : (j, x) ∈ enumerate l -> x ∈ l.
Proof.
  intros Hin. apply VenueConnectionsSpec.elem_of_enumerate in Hin.
  destruct Hin as (k & _ & Hk). by eapply list_elem_of_lookup_2.
Qed.

(** When a business name scores above 80 against the location of an event,
    the event is connected by [location_to_name] to the first of the rows
    whose name scores highest, with that score; the locations of the
    businesses and the name of the event play no part. *)
Theorem best_name_for_location_wins catalog loc ev_name pre b post c :
  truthy loc = true ->
  catalog = pre ++ b :: post ->
  candidate_name b = Some c ->
  80 < partial_ratio (clean loc) c ->
  Forall (fun b' => forall c', candidate_name b' = Some c' ->
                    partial_ratio (clean loc) c' < partial_ratio (clean loc) c) pre ->
  Forall (fun b' => forall c', candidate_name b' = Some c' ->
                    partial_ratio (clean loc) c' <= partial_ratio (clean loc) c) post ->
  match_event partial_ratio catalog (Some loc) ev_name
  = Some (Z.of_nat (length pre), Some location_to_name, partial_ratio (clean loc) c).
Proof.
  intros Ht -> Hc Hthr Hpre Hpost.
  rewrite Forall_forall in Hpre. rewrite Forall_forall in Hpost.
  pose proof (VenueConnectionsSpec.pass_location_to_name_fold partial_ratio
                (pre ++ b :: post) (clean loc) initial_state) as Hfold.
  destruct (enumerate_split pre b post) as (post' & Henum & Hmem).
  rewrite Henum in Hfold.
  rewrite (pass_first_best candidate_name 80 location_to_name (clean loc)
             (enumerate pre) (Z.of_nat (length pre)) b post' c initial_state Hc Hthr)
    in Hfold.
  - apply VenueConnectionsSpec.candidate_name_truthy in Hc. destruct Hc as [Hname _].
    pose proof (VenueConnectionsSpec.accepted_not_best_match (fst b)
                  (partial_ratio (clean loc) c) (Some location_to_name)
                  (Z.of_nat (length pre)) Hname) as Hnb.
    pose proof (VenueConnectionsSpec.run_passes_first partial_ratio (pre ++ b :: post) loc
                  (default EmptyString ev_name) _ Hfold Hnb) as Hrun.
    rewrite (VenueConnectionsSpec.match_event_of_state partial_ratio (pre ++ b :: post)
               loc ev_name _ Ht Hrun Hnb); [reflexivity|cbn; lia].
  - cbn [best_score initial_state]. lia.
  - intros j' b' c' Hin. apply Hpre. by eapply enumerate_member.
  - intros j' b' c' Hin. apply Hpost. by eapply Hmem.
Qed.

(** A connection by business location or by event name is made only when
    no business name scores above 80 against the location of the event:
    the first pass takes precedence over the other two, whatever they
    score. *)
Theorem later_pass_only_without_name_for_location catalog loc ev_name j kind score :
  match_event partial_ratio catalog (Some loc) ev_name = Some (j, kind, score) ->
  kind <> Some location_to_name ->
  forall b c, b ∈ catalog -> candidate_name b = Some c ->
              partial_ratio (clean loc) c <= 80.
Proof.
  intros Hmatch Hkind b c Hb Hc.
  assert (Ht : truthy loc = true).
  { destruct (truthy loc) eqn:Ht; [reflexivity|]. unfold match_event in Hmatch.
    change (default EmptyString (Some loc)) with loc in Hmatch. cbv zeta in Hmatch.
    rewrite Ht in Hmatch. discriminate Hmatch. }
  pose proof (VenueConnectionsSpec.pass_location_to_name_fold partial_ratio catalog
                (clean loc) initial_state) as Hfold.
  destruct (VenueConnectionsSpec.pass_fold_spec partial_ratio candidate_name 80
              location_to_name (clean loc) (enumerate catalog) initial_state)
    as (_ & Hcase & Hmax). cbn zeta in Hcase, Hmax.
  apply list_elem_of_lookup in Hb. destruct Hb as [k Hk].
  assert (Hin : (Z.of_nat k, b) ∈ enumerate catalog)
    by (apply VenueConnectionsSpec.elem_of_enumerate; eauto).
  specialize (Hmax _ _ _ Hin Hc).
  destruct Hcase as [Heq|(j' & b' & c' & Hin' & Hc' & Heq & _ & _)].
  - rewrite Heq in Hmax. cbn [best_score initial_state] in Hmax. lia.
  - exfalso. rewrite Heq in Hfold.
    apply VenueConnectionsSpec.candidate_name_truthy in Hc'. destruct Hc' as [Hname _].
    apply VenueConnectionsSpec.elem_of_enumerate in Hin'. destruct Hin' as (k' & -> & _).
    pose proof (VenueConnectionsSpec.accepted_not_best_match (fst b')
                  (partial_ratio (clean loc) c') (Some location_to_name)
                  (Z.of_nat k') Hname) as Hnb.
    pose proof (VenueConnectionsSpec.run_passes_first partial_ratio catalog loc
                  (default EmptyString ev_name) _ Hfold Hnb) as Hrun.
    rewrite (VenueConnectionsSpec.match_event_of_state partial_ratio catalog
               loc ev_name _ Ht Hrun Hnb) in Hmatch; [|cbn; lia].
    cbn [match_type] in Hmatch. injection Hmatch as _ Hk' _. by apply Hkind.
Qed.

End BestRow.

Lemma best_name_for_location_wins_witness :
  match_event Examples.containment_ratio Examples.gin_catalog
    (Some "The Gin Joint"%string) (Some "Live Jazz Night"%string)
  = Some (0, Some location_to_name, 100).
Proof.
  apply (best_name_for_location_wins Examples.containment_ratio Examples.gin_catalog
           "The Gin Joint"%string (Some "Live Jazz Night"%string) []
           ("The Gin Joint"%string, Some "182 East Bay St"%string)
           [("Harbor Cafe"%string, None)] "the gin joint"%string).
  - reflexivity.
  - reflexivity.
  - reflexivity.
  - reflexivity.
  - constructor.
  - constructor; [|constructor]. intros c' Hc'. vm_compute in Hc'.
    injection Hc' as <-. apply Z.leb_le. reflexivity.
Defined.

Lemma later_pass_only_without_name_for_location_witness :
  Examples.containment_ratio (clean "182 East Bay St") "harbor cafe" <= 80.
Proof.
  apply (later_pass_only_without_name_for_location Examples.containment_ratio
           Examples.gin_catalog "182 East Bay St"%string (Some "Live Jazz Night"%string)
           0 (Some location_to_location) 100 eq_refl ltac:(discriminate)
           ("Harbor Cafe"%string, None) "harbor cafe"%string).
  - right. left.
  - reflexivity.
Defined.

End VenueBestRowSpec.
